(** * EmojiKitchen: storage manager, result logger and download orchestrator

    A shallow embedding of the Python sources

      - [src/emoji_kitchen/storage/manager.py]   (StorageManager)
      - [src/emoji_kitchen/utils/json_logger.py] (DownloadResult, JSONLogger)
      - [src/emoji_kitchen/orchestrator.py]      (DownloadStats, DownloadOrchestrator)
      - [Scripts/bulk_download.py]               (BulkDownloader)

    Python objects become records, mutation becomes explicit state passing,
    and a raised exception becomes the [Raise] outcome of a computation that
    keeps the state reached before the raise. *)

From Stdlib Require Import ZArith NArith List Bool Lia.
From Stdlib Require Import Ascii String.
From Stdlib.Strings Require Import Byte.
From Stdlib Require Import Hexadecimal HexadecimalString HexadecimalN.
From Stdlib Require Import Decimal DecimalString DecimalZ.
From Stdlib Require Import Floats.PrimFloat.
From Stdlib Require Floats.SpecFloat Floats.FloatOps.
From stdpp Require Import base option list gmap.

Set Default Proof Using "Type".
Local Open Scope Z_scope.

(* ===================================================================== *)
(** * Python values *)
(* ===================================================================== *)

(** A Python [str] is a sequence of Unicode code points. *)
Abbreviation str := (list N).

(** A Python [bytes] object. *)
Abbreviation bytes := (list Byte.byte).

(** A [pathlib] path, as its sequence of parts. *)
Abbreviation path := (list (list N)).

(** An ASCII literal of the source, as a [str]. *)
Fixpoint lit (s : string) : str :=
  match s with
  | EmptyString => []
  | String a s' => N_of_ascii a :: lit s'
  end.
Arguments lit : simpl never.

(** [sep.join(parts)]. *)
Fixpoint join (sep : str) (parts : list str) : str :=
  match parts with
  | [] => []
  | [x] => x
  | x :: rest => x ++ sep ++ join sep rest
  end.

(** What [join] puts after the first part. *)
Definition after_first (sep : str) (rest : list str) : str :=
  match rest with
  | [] => []
  | _ => sep ++ join sep rest
  end.

(** [format(n, "x")]: lowercase hexadecimal without prefix or padding. *)
Definition to_hex (n : N) : str :=
  lit (HexadecimalString.NilEmpty.string_of_uint (N.to_hex_uint n)).

(** [str(n)] for an [int]. *)
Definition to_dec (z : Z) : str :=
  lit (DecimalString.NilZero.string_of_int (Z.to_int z)).

(** Truthiness, as [if x] and [x and y] test it. *)
Definition truthy_float (x : float) : bool := negb (PrimFloat.eqb x 0%float).

Definition truthy_opt {A} (truthy : A -> bool) (o : option A) : bool :=
  match o with
  | Some a => truthy a
  | None => false
  end.

Definition truthy_int (z : Z) : bool := negb (z =? 0).

Definition truthy_seq {A} (l : list A) : bool :=
  match l with
  | [] => false
  | _ :: _ => true
  end.

(** [o or default] on an optional string. *)
Definition str_or (o : option str) (default : str) : str :=
  match o with
  | Some (c :: s) => c :: s
  | _ => default
  end.

(** ** Exceptions *)

Inductive os_error :=
| EEXIST    (* FileExistsError *)
| ENOENT    (* FileNotFoundError *)
| ENOTDIR   (* NotADirectoryError *)
| EISDIR.   (* IsADirectoryError *)

Inductive exn :=
| InvalidInput (what : str)
| OSError (code : os_error) (target : path)
| ClientException (what : str).

(** The outcome of a call: a value, or a raised exception. *)
Inductive result (A : Type) :=
| Return (a : A)
| Raise (e : exn).
Arguments Return {A} a.
Arguments Raise {A} e.

Definition returns {A} (r : result A) : Prop := exists a, r = Return a.

Definition raises {A} (r : result A) : Prop := exists e, r = Raise e.

(** ** Stateful calls that may raise

    A method running on a state [S] yields its outcome and the state it
    left behind; after a raise that is the state reached so far. *)

Definition M (S A : Type) : Type := S -> result A * S.

Definition ret {S A} (a : A) : M S A := fun s => (Return a, s).

Definition raise {S A} (e : exn) : M S A := fun s => (Raise e, s).

Definition bind {S A B} (m : M S A) (k : A -> M S B) : M S B :=
  fun s =>
    match m s with
    | (Return a, s') => k a s'
    | (Raise e, s') => (Raise e, s')
    end.

(** [try: m except Exception as e: h e]. *)
Definition try_except {S A} (m : M S A) (h : exn -> M S A) : M S A :=
  fun s =>
    match m s with
    | (Return a, s') => (Return a, s')
    | (Raise e, s') => h e s'
    end.

Definition get {S} : M S S := fun s => (Return s, s).

Definition modify {S} (f : S -> S) : M S unit := fun s => (Return tt, f s).

(** A call that only reads reaches the state it started from. *)
Definition pure {S A} (r : result A) : M S A := fun s => (r, s).

(** Run a method of a component [T] kept inside the state [S]. *)
Definition zoom {S T A} (proj : S -> T) (upd : T -> S -> S) (m : M T A) : M S A :=
  fun s => let '(r, t') := m (proj s) in (r, upd t' s).

Declare Scope py_scope.
Delimit Scope py_scope with py.
Notation "x <- m ;; k" := (bind m (fun x => k))
  (at level 100, m at next level, right associativity) : py_scope.
Notation "m ;;; k" := (bind m (fun _ => k))
  (at level 100, right associativity) : py_scope.
Local Open Scope py_scope.

(** ** What the interpreter and the operating system decide

    Renderings and settings the sources leave to the runtime. *)

Record Runtime := {
  (** [str(e)] of an exception *)
  exn_str : exn -> str;
  (** [str(p)] of a path *)
  path_str : path -> str;
  (** [format(x, ".0f")] of a float *)
  format_0f : float -> str;
  (** whether the filesystem encoding round-trips raw glyphs *)
  glyph_safe : bool;
  (** the size a file name carries when the caller names none *)
  path_size : Z;
  (** [st_size] of a directory *)
  dir_st_size : Z
}.

(* ===================================================================== *)
(** * Path resolver *)
(* ===================================================================== *)

Module Paths.

Inductive FilenameFormat := emoji | codepoint | auto.

(** Modelled from the spec: utils/emoji_utils.py is not among the sources.
    The CodepointKey of an emoji: its scalar values in lowercase hex,
    joined by hyphens. *)
Definition emoji_to_codepoint (e : str) : str :=
  join (lit "-") (map to_hex e).

(** Modelled from the spec: storage/paths.py is not among the sources.
    [auto] is the codepoint form when the filesystem encoding is unsafe
    for glyphs, and the glyph form otherwise. *)
Definition resolve_format (rt : Runtime) (fmt : FilenameFormat) : FilenameFormat :=
  match fmt with
  | auto => if glyph_safe rt then emoji else codepoint
  | f => f
  end.

(** Modelled from the spec: storage/paths.py is not among the sources.
    How an emoji appears in a name: its codepoint key, or its glyphs. *)
Definition emoji_name (rt : Runtime) (fmt : FilenameFormat) (e : str) : str :=
  match resolve_format rt fmt with
  | codepoint => emoji_to_codepoint e
  | _ => e
  end.

(** Modelled from the spec: storage/paths.py is not among the sources.
    The directory is named after the first emoji. *)
Definition generate_directory_name (rt : Runtime) (e : str) (fmt : FilenameFormat) : str :=
  emoji_name rt fmt e.

(** Modelled from the spec: storage/paths.py is not among the sources.
    The file name is [<e1>_<e2>_<size>.png]. *)
Definition generate_filename (rt : Runtime) (e1 e2 : str) (size : Z)
    (fmt : FilenameFormat) : str :=
  emoji_name rt fmt e1 ++ lit "_" ++ emoji_name rt fmt e2 ++ lit "_"
    ++ to_dec size ++ lit ".png".

(** Modelled from the spec: storage/paths.py is not among the sources.
    [<output_root>/<base_emoji_dir>/<e1>_<e2>_<size>.png]; an empty emoji
    string is the one error case, [InvalidInput]. *)
Definition generate_full_path (rt : Runtime) (base_dir : path) (e1 e2 : str)
    (fmt : FilenameFormat) : result path :=
  match e1, e2 with
  | [], _ => Raise (InvalidInput e1)
  | _, [] => Raise (InvalidInput e2)
  | _, _ =>
      Return (base_dir ++ [generate_directory_name rt e1 fmt;
                           generate_filename rt e1 e2 (path_size rt) fmt])
  end.

End Paths.


(* ===================================================================== *)
(** * Storage manager *)
(* ===================================================================== *)

Module Storage.
Import Paths.

(** ** The file tree under [pathlib]

    Regular files and directories, by path.  The failures modelled are
    those the tree itself decides (something is missing, or is of the
    wrong kind); permissions, quotas, other processes and the limits of
    the file system on the length of a name are left out, so a call that
    returns here may still raise an [OSError] of these kinds on a real
    disk, while a call that raises here raises there too. *)

Inductive node :=
| File (content : bytes)
| Dir.

Abbreviation filesystem := (gmap path node).

(** What is found at a path; the empty path is the anchor, a directory. *)
Definition stat (fs : filesystem) (p : path) : option node :=
  match p with
  | [] => Some Dir
  | _ => fs !! p
  end.

(** [p.exists()] *)
Definition path_exists (fs : filesystem) (p : path) : bool :=
  match stat fs p with
  | Some _ => true
  | None => false
  end.

(** [p.is_file()] *)
Definition is_file (fs : filesystem) (p : path) : bool :=
  match stat fs p with
  | Some (File _) => true
  | _ => false
  end.

(** [p.stat().st_size] of a path that exists *)
Definition st_size (rt : Runtime) (n : node) : Z :=
  match n with
  | File content => Z.of_nat (length content)
  | Dir => dir_st_size rt
  end.

(** [p.parent] *)
Definition parent (p : path) : path := removelast p.

(** [p.mkdir(parents=True, exist_ok=True)], walking down from the anchor:
    a directory met on the way is kept, a missing one is created, and a
    file in the way raises ([FileExistsError] at [p] itself,
    [NotADirectoryError] above it).  On a tree, where whatever exists has
    a directory as its parent, this is what [pathlib] does. *)
Fixpoint makedirs (above : path) (todo : list str) : M filesystem unit :=
  match todo with
  | [] => ret tt
  | c :: todo' =>
      let d := above ++ [c] in
      fs <- get ;;
      match fs !! d with
      | Some Dir => makedirs d todo'
      | Some (File _) =>
          raise (OSError (match todo' with [] => EEXIST | _ => ENOTDIR end)
                         (d ++ todo'))
      | None => modify (insert d Dir) ;;; makedirs d todo'
      end
  end.

Definition mkdir_parents_exist_ok (p : path) : M filesystem unit :=
  makedirs [] p.

(** [p.write_bytes(content)]: opens for writing, truncating. *)
Definition write_bytes (p : path) (content : bytes) : M filesystem unit :=
  fs <- get ;;
  match stat fs (parent p) with
  | None => raise (OSError ENOENT p)
  | Some (File _) => raise (OSError ENOTDIR p)
  | Some Dir =>
      match stat fs p with
      | Some Dir => raise (OSError EISDIR p)
      | _ => modify (insert p (File content))
      end
  end.

(** [p.unlink()] *)
Definition unlink (p : path) : M filesystem unit :=
  fs <- get ;;
  match stat fs p with
  | None => raise (OSError ENOENT p)
  | Some Dir => raise (OSError EISDIR p)
  | Some (File _) => modify (delete p)
  end.

(** ** [class StorageManager] *)

Record StorageManager := {
  base_dir : path;
  filename_format : FilenameFormat
}.

Section Methods.
Variable rt : Runtime.

(** [StorageManager.__init__] *)
Definition init (base : path) (fmt : FilenameFormat) : M filesystem StorageManager :=
  mkdir_parents_exist_ok base ;;;
  ret {| base_dir := base; filename_format := fmt |}.

Definition get_file_path (self : StorageManager) (emoji1 emoji2 : str) : result path :=
  generate_full_path rt (base_dir self) emoji1 emoji2 (filename_format self).

Definition file_exists (self : StorageManager) (emoji1 emoji2 : str) : M filesystem bool :=
  p <- pure (get_file_path self emoji1 emoji2) ;;
  fs <- get ;;
  ret (path_exists fs p && is_file fs p).

Definition save (self : StorageManager) (emoji1 emoji2 : str) (content : bytes)
    : M filesystem path :=
  file_path <- pure (get_file_path self emoji1 emoji2) ;;
  mkdir_parents_exist_ok (parent file_path) ;;;
  write_bytes file_path content ;;;
  ret file_path.

Definition get_file_size (self : StorageManager) (emoji1 emoji2 : str)
    : M filesystem (option Z) :=
  p <- pure (get_file_path self emoji1 emoji2) ;;
  fs <- get ;;
  match stat fs p with
  | Some n => ret (Some (st_size rt n))
  | None => ret None
  end.

Definition delete (self : StorageManager) (emoji1 emoji2 : str) : M filesystem bool :=
  p <- pure (get_file_path self emoji1 emoji2) ;;
  fs <- get ;;
  if path_exists fs p then unlink p ;;; ret true else ret false.

Definition get_emoji_directory (self : StorageManager) (e : str) : path :=
  base_dir self ++ [generate_directory_name rt e (filename_format self)].

End Methods.

End Storage.

(* ===================================================================== *)
(** * Result logger *)
(* ===================================================================== *)

Module Logger.

(** [@dataclass class DownloadResult] *)
Record DownloadResult := {
  emoji1 : str;
  emoji2 : str;
  timestamp : str;
  success : bool;
  file_path : option str;
  error_type : option str;
  error_message : option str;
  status_code : option Z;
  duration_ms : option float;
  url : option str
}.

(** Levels of the [logging] module. *)
Definition DEBUG : Z := 10.
Definition INFO : Z := 20.
Definition WARNING : Z := 30.
Definition ERROR : Z := 40.

(** A JSON log file: the list [json.load] reads from it, or the exception
    that opening or parsing it raises. *)
Abbreviation json_file := (result (list DownloadResult)).

(** [class JSONLogger].  [debug_file] and [console] hold the lines the two
    handlers have written, each with its level.  [log_level] is what
    [setLevel] was given; the sources give it [DEBUG] or [INFO]. *)
Record JSONLogger := {
  log_dir : path;
  session_id : str;
  log_level : Z;
  enable_console : bool;
  success_file : json_file;
  failure_file : json_file;
  debug_file : list (Z * str);
  console : list (Z * str);
  successes : list DownloadResult;
  failures : list DownloadResult
}.

Definition success_file_path (self : JSONLogger) : path :=
  log_dir self ++ [lit "successes_" ++ session_id self ++ lit ".json"].

Definition failure_file_path (self : JSONLogger) : path :=
  log_dir self ++ [lit "failures_" ++ session_id self ++ lit ".json"].

Definition set_lines (dbg con : list (Z * str)) (self : JSONLogger) : JSONLogger :=
  {| log_dir := log_dir self; session_id := session_id self;
     log_level := log_level self; enable_console := enable_console self;
     success_file := success_file self; failure_file := failure_file self;
     debug_file := dbg; console := con;
     successes := successes self; failures := failures self |}.

Definition set_success_file (f : json_file) (self : JSONLogger) : JSONLogger :=
  {| log_dir := log_dir self; session_id := session_id self;
     log_level := log_level self; enable_console := enable_console self;
     success_file := f; failure_file := failure_file self;
     debug_file := debug_file self; console := console self;
     successes := successes self; failures := failures self |}.

Definition set_failure_file (f : json_file) (self : JSONLogger) : JSONLogger :=
  {| log_dir := log_dir self; session_id := session_id self;
     log_level := log_level self; enable_console := enable_console self;
     success_file := success_file self; failure_file := f;
     debug_file := debug_file self; console := console self;
     successes := successes self; failures := failures self |}.

Definition set_successes (l : list DownloadResult) (self : JSONLogger) : JSONLogger :=
  {| log_dir := log_dir self; session_id := session_id self;
     log_level := log_level self; enable_console := enable_console self;
     success_file := success_file self; failure_file := failure_file self;
     debug_file := debug_file self; console := console self;
     successes := l; failures := failures self |}.

Definition set_failures (l : list DownloadResult) (self : JSONLogger) : JSONLogger :=
  {| log_dir := log_dir self; session_id := session_id self;
     log_level := log_level self; enable_console := enable_console self;
     success_file := success_file self; failure_file := failure_file self;
     debug_file := debug_file self; console := console self;
     successes := successes self; failures := l |}.

(** [self.logger.getEffectiveLevel()].  A level of 0 is [NOTSET]: the
    logger then defers to the root logger, which nothing in the sources
    configures, so that it is at its default, [WARNING].  Any other level
    is the threshold itself. *)
Definition effective_level (self : JSONLogger) : Z :=
  if log_level self =? 0 then WARNING else log_level self.

(** [self.logger.isEnabledFor(level)]: [logging.disable] is at its
    default, which drops what is at level 0 or below. *)
Definition enabled (level : Z) (self : JSONLogger) : bool :=
  (0 <? level) && (effective_level self <=? level).

(** [self.logger.log(level, msg)]: dropped when the logger is not enabled
    for the level.  The file handler, set to [DEBUG], takes every record
    from that level up; the console handler exists only with
    [enable_console], and being set to [log_level] it takes every record
    the logger lets through. *)
Definition emit (level : Z) (msg : str) (self : JSONLogger) : JSONLogger :=
  if enabled level self then
    set_lines (if DEBUG <=? level then debug_file self ++ [(level, msg)]
               else debug_file self)
              (if enable_console self then console self ++ [(level, msg)]
               else console self)
              self
  else self.

Definition debug (msg : str) : M JSONLogger unit := modify (emit DEBUG msg).
Definition info (msg : str) : M JSONLogger unit := modify (emit INFO msg).
Definition warning (msg : str) : M JSONLogger unit := modify (emit WARNING msg).
Definition error (msg : str) : M JSONLogger unit := modify (emit ERROR msg).

Section Methods.
Variable rt : Runtime.

(** [JSONLogger.__init__]; [old_successes] and [old_failures] are what the
    two log files hold when they exist already ([_init_json_file] leaves
    an existing file alone). *)
Definition init (dir : path) (session : str) (console_on : bool) (level : Z)
    (old_successes old_failures : option json_file) : JSONLogger :=
  let self :=
    {| log_dir := dir; session_id := session;
       log_level := level; enable_console := console_on;
       success_file := default (Return []) old_successes;
       failure_file := default (Return []) old_failures;
       debug_file := []; console := [];
       successes := []; failures := [] |} in
  let self := emit INFO (lit "JSON Logger initialized - Session: " ++ session) self in
  let self := emit INFO (lit "Success log: " ++ path_str rt (success_file_path self)) self in
  let self := emit INFO (lit "Failure log: " ++ path_str rt (failure_file_path self)) self in
  emit INFO (lit "Debug log: "
             ++ path_str rt (dir ++ [lit "debug_" ++ session ++ lit ".log"])) self.

Inductive which_file := SuccessFile | FailureFile.

(** [_append_to_json_file]: read, append, write back; any exception ends
    in an ERROR line instead.  What is modelled is the failure of the
    read; the write-back is taken to succeed, which [json.dump] with
    [ensure_ascii=False] into a UTF-8 file does when no text of the
    records holds a lone surrogate ([Conditions.encodable]) and the file
    that was read can be written (permissions and quotas are left out,
    as for the tree of pictures). *)
Definition _append_to_json_file (which : which_file) (r : DownloadResult)
    : M JSONLogger unit :=
  self <- get ;;
  let '(file, file_path, set_file) :=
    match which with
    | SuccessFile => (success_file self, success_file_path self, set_success_file)
    | FailureFile => (failure_file self, failure_file_path self, set_failure_file)
    end in
  match file with
  | Return data => modify (set_file (Return (data ++ [r])))
  | Raise e =>
      error (lit "Failed to write to " ++ path_str rt file_path ++ lit ": "
             ++ exn_str rt e)
  end.

(** The argument of [self.logger.info] in [log_success]: the conditional
    takes the whole concatenated f-string as its first branch. *)
Definition success_line (emoji1 emoji2 file_path : str) (duration_ms : option float) : str :=
  match duration_ms with
  | Some d =>
      if truthy_float d then
        lit "SUCCESS: " ++ emoji1 ++ lit " + " ++ emoji2
          ++ [32%N; 8217%N; 32%N] ++ file_path ++ lit " "
          ++ lit "(" ++ format_0f rt d ++ lit "ms)"
      else []
  | None => []
  end.

Definition log_success (now : str) (emoji1 emoji2 file_path : str)
    (duration_ms : option float) (url : option str) (status_code : option Z)
    : M JSONLogger unit :=
  let result :=
    {| emoji1 := emoji1; emoji2 := emoji2; timestamp := now; success := true;
       file_path := Some file_path; error_type := None; error_message := None;
       status_code := status_code; duration_ms := duration_ms; url := url |} in
  modify (fun self => set_successes (successes self ++ [result]) self) ;;;
  _append_to_json_file SuccessFile result ;;;
  info (success_line emoji1 emoji2 file_path duration_ms).

(** The argument of [self.logger.warning] in [log_failure]. *)
Definition failure_line (emoji1 emoji2 error_type error_message : str)
    (status_code : option Z) : str :=
  match status_code with
  | Some c =>
      if truthy_int c then
        lit "FAILURE: " ++ emoji1 ++ lit " + " ++ emoji2 ++ lit " - "
          ++ error_type ++ lit ": " ++ error_message ++ lit " "
          ++ lit "[HTTP " ++ to_dec c ++ lit "]"
      else []
  | None => []
  end.

Definition log_failure (now : str) (emoji1 emoji2 error_type error_message : str)
    (status_code : option Z) (duration_ms : option float) (url : option str)
    : M JSONLogger unit :=
  let result :=
    {| emoji1 := emoji1; emoji2 := emoji2; timestamp := now; success := false;
       file_path := None; error_type := Some error_type;
       error_message := Some error_message;
       status_code := status_code; duration_ms := duration_ms; url := url |} in
  modify (fun self => set_failures (failures self ++ [result]) self) ;;;
  _append_to_json_file FailureFile result ;;;
  warning (failure_line emoji1 emoji2 error_type error_message status_code).

(** The per-kind breakdown [save_summary] adds to the summary. *)
Definition error_breakdown (self : JSONLogger) : gmap str Z :=
  fold_left
    (fun (acc : gmap str Z) failure =>
       let kind := str_or (error_type failure) (lit "Unknown") in
       <[kind := default 0 (acc !! kind) + 1]> acc)
    (failures self) ∅.

End Methods.

End Logger.

(* ===================================================================== *)
(** * HTTP fetch client *)
(* ===================================================================== *)

Module Client.

(** What [download_image] hands back:
    [(success, content, error, status_code)]. *)
Definition response : Type := bool * option bytes * option str * option Z.

(** api/client.py is not among the sources; the orchestrator and the bulk
    script only call these two methods, so a client is any pair of them.
    Either call may raise. *)
Record EmojiKitchenClient := {
  build_url : str -> str -> Z -> result str;
  download_image : str -> str -> Z -> result response
}.

End Client.

(* ===================================================================== *)
(** * Batch orchestrator *)
(* ===================================================================== *)

Module Orchestrator.
Import Paths Storage Client.

(** [@dataclass class DownloadStats] *)
Record DownloadStats := {
  total : Z;
  successes : Z;
  failures : Z;
  skipped : Z;
  duration_seconds : float
}.

Definition new_stats (n : Z) : DownloadStats :=
  {| total := n; successes := 0; failures := 0; skipped := 0;
     duration_seconds := 0%float |}.

(** [class DownloadOrchestrator] *)
Record DownloadOrchestrator := {
  output_dir : path;
  log_dir : path;
  delay_ms : Z;
  max_concurrent : Z;
  skip_existing : bool;
  verbose : bool;
  storage : StorageManager;
  logger : Logger.JSONLogger;
  stats : DownloadStats
}.

(** The orchestrator together with what it acts on: the tree of
    pictures, and the calls of the client's [download_image] made so far
    (how many HTTP requests the client makes of one call, retrying, is
    the client's business). *)
Record State := {
  self : DownloadOrchestrator;
  fs : filesystem;
  requests : list (str * str * Z)
}.

Definition set_stats (s : DownloadStats) (st : State) : State :=
  let o := self st in
  {| self := {| output_dir := output_dir o; log_dir := log_dir o;
                delay_ms := delay_ms o; max_concurrent := max_concurrent o;
                skip_existing := skip_existing o; verbose := verbose o;
                storage := storage o; logger := logger o; stats := s |};
     fs := fs st; requests := requests st |}.

Definition set_logger (l : Logger.JSONLogger) (st : State) : State :=
  let o := self st in
  {| self := {| output_dir := output_dir o; log_dir := log_dir o;
                delay_ms := delay_ms o; max_concurrent := max_concurrent o;
                skip_existing := skip_existing o; verbose := verbose o;
                storage := storage o; logger := l; stats := stats o |};
     fs := fs st; requests := requests st |}.

Definition set_fs (f : filesystem) (st : State) : State :=
  {| self := self st; fs := f; requests := requests st |}.

Definition set_requests (r : list (str * str * Z)) (st : State) : State :=
  {| self := self st; fs := fs st; requests := r |}.

(** [self.stats.successes += 1] and its two siblings *)
Definition incr_successes (s : DownloadStats) : DownloadStats :=
  {| total := total s; successes := successes s + 1; failures := failures s;
     skipped := skipped s; duration_seconds := duration_seconds s |}.

Definition incr_failures (s : DownloadStats) : DownloadStats :=
  {| total := total s; successes := successes s; failures := failures s + 1;
     skipped := skipped s; duration_seconds := duration_seconds s |}.

Definition incr_skipped (s : DownloadStats) : DownloadStats :=
  {| total := total s; successes := successes s; failures := failures s;
     skipped := skipped s + 1; duration_seconds := duration_seconds s |}.

Definition on_stats (f : DownloadStats -> DownloadStats) : M State unit :=
  modify (fun st => set_stats (f (stats (self st))) st).

Definition on_logger {A} (m : M Logger.JSONLogger A) : M State A :=
  zoom (fun st => logger (self st)) set_logger m.

Definition on_storage {A} (m : M filesystem A) : M State A :=
  zoom fs set_fs m.

(** [await client.download_image(...)]: the call is made, then the
    client answers or raises. *)
Definition await_download_image (client : EmojiKitchenClient)
    (emoji1 emoji2 : str) (size : Z) : M State response :=
  modify (fun st => set_requests (requests st ++ [(emoji1, emoji2, size)]) st) ;;;
  pure (download_image client emoji1 emoji2 size).

(** What the system clock shows during one call of [download_pair]. *)
Record Clock := {
  (** [time.time()] on entry *)
  time_start : float;
  (** [time.time()] once the fetch is back *)
  time_fetched : float;
  (** [datetime.now().isoformat()] when the record is written *)
  now_iso : str
}.

Section Methods.
Variable rt : Runtime.

(** The constructor [EmojiKitchenClient(delay_ms=..., max_concurrent=...)]. *)
Variable new_client : Z -> Z -> EmojiKitchenClient.

(** [DownloadOrchestrator.__init__] *)
Definition init (out logs : path) (delay concurrent : Z) (skip verb : bool)
    (fmt : FilenameFormat) (session : str)
    (old_successes old_failures : option Logger.json_file)
    : M filesystem DownloadOrchestrator :=
  sm <- Storage.init out fmt ;;
  ret {| output_dir := out; log_dir := logs;
         delay_ms := delay; max_concurrent := concurrent;
         skip_existing := skip; verbose := verb;
         storage := sm;
         logger := Logger.init rt logs session verb
                     (if verb then 10 else 20) old_successes old_failures;
         stats := new_stats 0 |}.

Definition error_kind (status_code : option Z) : str :=
  match status_code with
  | Some c =>
      if c =? 404 then lit "NotFound"
      else if truthy_int c && (c >=? 500) then lit "ServerError"
      else lit "NetworkError"
  | None => lit "NetworkError"
  end.

(** The call gets past the existence check: skipping is off, or the
    manager answers that no file is there. *)
Definition fetches (st : State) (emoji1 emoji2 : str) : Prop :=
  skip_existing (self st) = false
  \/ (file_exists rt (storage (self st)) emoji1 emoji2 (fs st)).1 = Return false.

(** The condition of the first [if] of [download_pair], on its own. *)
Definition precheck (emoji1 emoji2 : str) : M State bool :=
  st <- get ;;
  if skip_existing (self st)
  then on_storage (file_exists rt (storage (self st)) emoji1 emoji2)
  else ret false.

Definition download_pair (clock : Clock) (emoji1 emoji2 : str) (size : Z)
    : M State (bool * option str) :=
  let start_time := time_start clock in
  st <- get ;;
  let o := self st in
  (* if self.skip_existing and self.storage.file_exists(emoji1, emoji2) *)
  already <- (if skip_existing o
              then on_storage (file_exists rt (storage o) emoji1 emoji2)
              else ret false) ;;
  if already : bool then
    on_stats incr_skipped ;;;
    on_logger (Logger.info (lit "Skipped " ++ emoji1 ++ lit " + " ++ emoji2
                            ++ lit " (already exists)")) ;;;
    ret (true, None)
  else
    let client := new_client (delay_ms o) (max_concurrent o) in
    url <- pure (build_url client emoji1 emoji2 size) ;;
    r <- await_download_image client emoji1 emoji2 size ;;
    let '(success, content, error, status_code) := r in
    let duration_ms := PrimFloat.mul (PrimFloat.sub (time_fetched clock) start_time)
                                     1000%float in
    if success && truthy_opt truthy_seq content then
      try_except
        (file_path <- on_storage (save rt (storage o) emoji1 emoji2
                                    (default [] content)) ;;
         on_stats incr_successes ;;;
         on_logger (Logger.log_success rt (now_iso clock) emoji1 emoji2
                      (path_str rt file_path) (Some duration_ms) (Some url)
                      status_code) ;;;
         ret (true, None))
        (fun e =>
           on_stats incr_failures ;;;
           let error_msg := lit "Failed to save file: " ++ exn_str rt e in
           on_logger (Logger.log_failure rt (now_iso clock) emoji1 emoji2
                        (lit "IOError") error_msg None (Some duration_ms)
                        (Some url)) ;;;
           ret (false, Some error_msg))
    else
      on_stats incr_failures ;;;
      on_logger (Logger.log_failure rt (now_iso clock) emoji1 emoji2
                   (error_kind status_code)
                   (str_or error (lit "Unknown error"))
                   status_code (Some duration_ms) (Some url)) ;;;
      ret (false, error).

End Methods.

End Orchestrator.

(* ===================================================================== *)
(** * Bulk download script *)
(* ===================================================================== *)

Module Bulk.
Import Paths Storage Client.

(** [class BulkDownloader] *)
Record BulkDownloader := {
  output_dir : path;
  size : Z;
  max_concurrent : Z;
  delay_ms : Z;
  storage : StorageManager;
  successes : Z;
  failures : Z;
  skipped : Z;
  not_found : Z;
  failed_pairs : list (str * str * str)
}.

(** The downloader together with the file tree, the requests sent so far
    and the number of [progress.update(task_id, advance=1)] calls. *)
Record State := {
  self : BulkDownloader;
  fs : filesystem;
  requests : list (str * str * Z);
  progress : Z
}.

Definition set_counters (ok failed skip missing : Z)
    (pairs : list (str * str * str)) (st : State) : State :=
  let o := self st in
  {| self := {| output_dir := output_dir o; size := size o;
                max_concurrent := max_concurrent o; delay_ms := delay_ms o;
                storage := storage o;
                successes := ok; failures := failed; skipped := skip;
                not_found := missing; failed_pairs := pairs |};
     fs := fs st; requests := requests st; progress := progress st |}.

Definition incr_successes (st : State) : State :=
  let o := self st in
  set_counters (successes o + 1) (failures o) (skipped o) (not_found o)
               (failed_pairs o) st.

Definition incr_skipped (st : State) : State :=
  let o := self st in
  set_counters (successes o) (failures o) (skipped o + 1) (not_found o)
               (failed_pairs o) st.

Definition incr_not_found (st : State) : State :=
  let o := self st in
  set_counters (successes o) (failures o) (skipped o) (not_found o + 1)
               (failed_pairs o) st.

(** [self.failures += 1; self.failed_pairs.append(entry)] *)
Definition record_failure (entry : str * str * str) (st : State) : State :=
  let o := self st in
  set_counters (successes o) (failures o + 1) (skipped o) (not_found o)
               (failed_pairs o ++ [entry]) st.

Definition set_fs (f : filesystem) (st : State) : State :=
  {| self := self st; fs := f; requests := requests st; progress := progress st |}.

Definition on_storage {A} (m : M filesystem A) : M State A :=
  zoom fs set_fs m.

Definition send_request (emoji1 emoji2 : str) (sz : Z) (st : State) : State :=
  {| self := self st; fs := fs st;
     requests := requests st ++ [(emoji1, emoji2, sz)];
     progress := progress st |}.

Definition advance_progress (st : State) : State :=
  {| self := self st; fs := fs st; requests := requests st;
     progress := progress st + 1 |}.

Section Methods.
Variable rt : Runtime.

(** [BulkDownloader.__init__]: the script always stores under glyph names. *)
Definition init (out : path) (sz concurrent delay : Z) : M filesystem BulkDownloader :=
  sm <- Storage.init out emoji ;;
  ret {| output_dir := out; size := sz; max_concurrent := concurrent;
         delay_ms := delay; storage := sm;
         successes := 0; failures := 0; skipped := 0; not_found := 0;
         failed_pairs := [] |}.

(** [process_single] up to its [await]: [true] when the pair is already
    on disk and the coroutine has returned, [false] when the request has
    been handed to the client. *)
Definition process_single_begin (emoji1 emoji2 : str) : M State bool :=
  st <- get ;;
  already <- on_storage (file_exists rt (storage (self st)) emoji1 emoji2) ;;
  if already : bool then
    modify incr_skipped ;;;
    modify advance_progress ;;;
    ret true
  else
    modify (send_request emoji1 emoji2 (size (self st))) ;;;
    ret false.

(** [process_single] from the point where [download_image] is back. *)
Definition process_single_resume (emoji1 emoji2 : str) (answer : result response)
    : M State unit :=
  r <- pure answer ;;
  let '(success, content, error, status_code) := r in
  st <- get ;;
  (if success && truthy_opt truthy_seq content then
     try_except
       (on_storage (save rt (storage (self st)) emoji1 emoji2 (default [] content)) ;;;
        modify incr_successes)
       (fun e => modify (record_failure (emoji1, emoji2, exn_str rt e)))
   else
     if bool_decide (status_code = Some 404) then modify incr_not_found
     else modify (record_failure (emoji1, emoji2, str_or error (lit "Unknown error")))) ;;;
  modify advance_progress.

Definition process_single (client : EmojiKitchenClient) (emoji1 emoji2 : str)
    : M State unit :=
  st <- get ;;
  done <- process_single_begin emoji1 emoji2 ;;
  if done : bool then ret tt
  else process_single_resume emoji1 emoji2
         (download_image client emoji1 emoji2 (size (self st))).

End Methods.

(** ** [download_all] as interleaved coroutines

    One batch is a group of [process_single] coroutines run by
    [asyncio.gather] on one event loop: a coroutine runs alone between two
    of its suspension points, so a step of the run is one coroutine going
    from one suspension point to the next. *)

Inductive phase :=
| Created                 (* scheduled, not started *)
| Queued                  (* inside [download_image], waiting for a permit *)
| Outstanding             (* permit held, request on the wire *)
| Finished                (* returned *)
| Crashed (e : exn).      (* left by an exception *)

Record task := {
  task_pair : str * str;
  task_phase : phase
}.

Record Run := {
  st : State;
  (** coroutines of the batch being gathered *)
  tasks : list task;
  (** pairs of the batches not started yet *)
  pending : list (str * str);
  (** permits of the client's pool that are taken *)
  permits_taken : Z
}.

Definition spawn (pr : str * str) : task :=
  {| task_pair := pr; task_phase := Created |}.

Definition set_phase (ph : phase) (t : task) : task :=
  {| task_pair := task_pair t; task_phase := ph |}.

Definition is_outstanding (t : task) : bool :=
  match task_phase t with
  | Outstanding => true
  | _ => false
  end.

(** What one coroutine adds to the number of outstanding fetches. *)
Definition weight (t : task) : Z := if is_outstanding t then 1 else 0.

(** The fetches that are outstanding at one moment of the run. *)
Definition outstanding (r : Run) : Z :=
  Z.of_nat (length (filter (fun t => is_outstanding t = true) (tasks r))).

Definition settled (t : task) : bool :=
  match task_phase t with
  | Finished => true
  | _ => false
  end.

(** The state [download_all] starts its loop in:
    [for i in range(0, total, batch_size)] has no iteration for a
    negative step and raises for a zero one. *)
Definition start (s : State) (emoji_pairs : list (str * str)) (batch_size : Z) : Run :=
  {| st := s; tasks := [];
     pending := if 0 <? batch_size then emoji_pairs else [];
     permits_taken := 0 |}.

Section Steps.
Variable rt : Runtime.
Variable batch_size : Z.

(** Modelled from the spec: api/client.py is not among the sources.
    [download_image] takes a permit of a pool of [max_concurrent] before
    it dispatches ([step_acquire]) and gives it back whatever the outcome
    ([step_answer], for a response as for an exception). *)
Inductive step : Run -> Run -> Prop :=
| step_gather r :
    (* the gathered batch is over: schedule emoji_pairs[i:i + batch_size] *)
    forallb settled (tasks r) = true ->
    pending r <> [] ->
    step r {| st := st r;
              tasks := map spawn (take (Z.to_nat batch_size) (pending r));
              pending := drop (Z.to_nat batch_size) (pending r);
              permits_taken := permits_taken r |}
| step_begin r i t out s' :
    tasks r !! i = Some t ->
    task_phase t = Created ->
    process_single_begin rt (task_pair t).1 (task_pair t).2 (st r) = (out, s') ->
    step r {| st := s';
              tasks := <[i := set_phase
                               (match out with
                                | Return true => Finished
                                | Return false => Queued
                                | Raise e => Crashed e
                                end) t]> (tasks r);
              pending := pending r;
              permits_taken := permits_taken r |}
| step_acquire r i t :
    tasks r !! i = Some t ->
    task_phase t = Queued ->
    permits_taken r < max_concurrent (self (st r)) ->
    step r {| st := st r;
              tasks := <[i := set_phase Outstanding t]> (tasks r);
              pending := pending r;
              permits_taken := permits_taken r + 1 |}
| step_answer r i t answer out s' :
    tasks r !! i = Some t ->
    task_phase t = Outstanding ->
    process_single_resume rt (task_pair t).1 (task_pair t).2 answer (st r) = (out, s') ->
    step r {| st := s';
              tasks := <[i := set_phase
                               (match out with
                                | Return _ => Finished
                                | Raise e => Crashed e
                                end) t]> (tasks r);
              pending := pending r;
              permits_taken := permits_taken r - 1 |}.

(** The moments of a run of [download_all]. *)
Inductive reachable (s : State) (emoji_pairs : list (str * str)) : Run -> Prop :=
| reach_start : reachable s emoji_pairs (start s emoji_pairs batch_size)
| reach_step r r' :
    reachable s emoji_pairs r -> step r r' -> reachable s emoji_pairs r'.

End Steps.

(** What holds at every moment of a run: the permits taken are those of
    the outstanding fetches, the ceiling is the one the run started with,
    and it is not exceeded. *)
Definition pool_invariant (ceiling : Z) (r : Run) : Prop :=
  permits_taken r = outstanding r
  /\ max_concurrent (self (st r)) = ceiling
  /\ outstanding r <= Z.max 0 ceiling.

End Bulk.

(* ===================================================================== *)
(** * Session summary *)
(* ===================================================================== *)

Module Summary.

(** The dictionary [get_summary] builds; [save_summary] adds the
    breakdown before it writes it. *)
Record summary := {
  session_id : str;
  total_attempts : Z;
  successes : Z;
  failures : Z;
  success_rate : str;
  success_file : str;
  failure_file : str;
  debug_file : str;
  error_breakdown : option (gmap str Z)
}.

(** The logger and the summary file of its session, if written. *)
Record Logs := {
  logger : Logger.JSONLogger;
  summary_file : option summary
}.

Definition set_logger (l : Logger.JSONLogger) (s : Logs) : Logs :=
  {| logger := l; summary_file := summary_file s |}.

Definition on_logger {A} (m : M Logger.JSONLogger A) : M Logs A :=
  zoom logger set_logger m.

Definition with_breakdown (b : gmap str Z) (s : summary) : summary :=
  {| session_id := session_id s; total_attempts := total_attempts s;
     successes := successes s; failures := failures s;
     success_rate := success_rate s; success_file := success_file s;
     failure_file := failure_file s; debug_file := debug_file s;
     error_breakdown := Some b |}.

Section Methods.
Variable rt : Runtime.

(** [format(a / b * 100, ".1f")] for a positive [b]: the one place where
    [get_summary] computes with floats. *)
Variable format_percent : Z -> Z -> str.

Definition get_summary (self : Logger.JSONLogger) : summary :=
  let total := Z.of_nat (length (Logger.successes self))
               + Z.of_nat (length (Logger.failures self)) in
  let success_count := Z.of_nat (length (Logger.successes self)) in
  let failure_count := Z.of_nat (length (Logger.failures self)) in
  {| session_id := Logger.session_id self;
     total_attempts := total;
     successes := success_count;
     failures := failure_count;
     success_rate :=
       (if 0 <? total then format_percent success_count total else lit "0.0")
       ++ lit "%";
     success_file := path_str rt (Logger.success_file_path self);
     failure_file := path_str rt (Logger.failure_file_path self);
     debug_file :=
       path_str rt (Logger.log_dir self
                    ++ [lit "debug_" ++ Logger.session_id self ++ lit ".log"]);
     error_breakdown := None |}.

(** [save_summary]; the summary file is taken to be writable: where
    [open] or [json.dump] raises, the exception leaves [save_summary] and
    [close] with it, and nothing below speaks of such a call. *)
Definition save_summary : M Logs unit :=
  s <- get ;;
  let self := logger s in
  let file := Logger.log_dir self
              ++ [lit "summary_" ++ Logger.session_id self ++ lit ".json"] in
  let doc := with_breakdown (Logger.error_breakdown self) (get_summary self) in
  modify (fun s => {| logger := logger s; summary_file := Some doc |}) ;;;
  on_logger (Logger.info (lit "Summary saved to " ++ path_str rt file)).

Definition close : M Logs unit :=
  save_summary ;;;
  on_logger (Logger.info (lit "JSON Logger closed")).

(** One call of a logging method, and a sequence of them. *)
Inductive log_call :=
| LogSuccess (now emoji1 emoji2 file_path : str) (duration_ms : option float)
    (url : option str) (status_code : option Z)
| LogFailure (now emoji1 emoji2 error_type error_message : str)
    (status_code : option Z) (duration_ms : option float) (url : option str).

Definition run_call (c : log_call) : M Logger.JSONLogger unit :=
  match c with
  | LogSuccess now e1 e2 fp d u sc => Logger.log_success rt now e1 e2 fp d u sc
  | LogFailure now e1 e2 k m sc d u => Logger.log_failure rt now e1 e2 k m sc d u
  end.

Fixpoint run_calls (cs : list log_call) : M Logger.JSONLogger unit :=
  match cs with
  | [] => ret tt
  | c :: rest => run_call c ;;; run_calls rest
  end.

End Methods.

(** The sum of the counts of a breakdown. *)
Definition breakdown_total (b : gmap str Z) : Z :=
  map_fold (fun _ n acc => n + acc) 0 b.

End Summary.

(* ===================================================================== *)
(** * Reporting *)
(* ===================================================================== *)

Module Reporting.

(** [seq[:limit]] *)
Definition slice_to {A} (limit : Z) (l : list A) : list A :=
  if 0 <=? limit then take (Z.to_nat limit) l
  else take (length l - Z.to_nat (- limit)) l.

(** The truncation of [print_failures]. *)
Definition truncate_message (error_msg : str) : str :=
  if 50 <? Z.of_nat (length error_msg)
  then take 47 error_msg ++ lit "..."
  else error_msg.

Record table_row := {
  pair_cell : str;
  type_cell : option str;
  details_cell : str
}.

(** One row of the table, or [None] where [len(error_msg)] raises
    [TypeError] because the dictionary holds no message.  The dictionaries
    are those of [to_dict()]: every key is present, so no default of
    [.get] applies. *)
Definition failure_row (failure : Logger.DownloadResult) : option table_row :=
  match Logger.error_message failure with
  | None => None
  | Some error_msg =>
      Some {| pair_cell := Logger.emoji1 failure ++ lit " + " ++ Logger.emoji2 failure;
              type_cell := Logger.error_type failure;
              details_cell := truncate_message error_msg |}
  end.

Fixpoint failure_rows (failures : list Logger.DownloadResult) : option (list table_row) :=
  match failures with
  | [] => Some []
  | failure :: rest =>
      match failure_row failure with
      | None => None
      | Some row =>
          match failure_rows rest with
          | None => None
          | Some rows => Some (row :: rows)
          end
      end
  end.

(** What [print_failures] puts on the console. *)
Inductive printout :=
| Nothing
| Table (total : Z) (rows : list table_row) (more : option Z).

(** [print_failures]; [None] stands for the [TypeError].  The cells are
    taken as text: [rich] reads square brackets in a cell as markup and
    raises [MarkupError] for a closing tag that matches nothing, so the
    table is what is printed for cells without a bracket
    ([Conditions.plain_row]). *)
Definition print_failures (failures : list Logger.DownloadResult) (limit : Z)
    : option printout :=
  match failures with
  | [] => Some Nothing
  | _ =>
      match failure_rows (slice_to limit failures) with
      | None => None
      | Some rows =>
          Some (Table (Z.of_nat (length failures)) rows
                  (if limit <? Z.of_nat (length failures)
                   then Some (Z.of_nat (length failures) - limit)
                   else None))
      end
  end.

End Reporting.

(* ===================================================================== *)
(** * Batch runs of the orchestrator *)
(* ===================================================================== *)

Module Batch.
Import Paths Storage Client Orchestrator.

(** How a method of the orchestrator ends. *)
Inductive ended (A : Type) :=
| Returned (a : A)
| Propagated (e : exn)
| TypeError.
Arguments Returned {A} a.
Arguments Propagated {A} e.
Arguments TypeError {A}.

(** The orchestrator's state and the summary file of the session.  What
    goes to the console (progress bar, summary table) is not kept. *)
Record Session := {
  state : State;
  summary_file : option Summary.summary
}.

Definition set_duration (d : float) (s : DownloadStats) : DownloadStats :=
  {| total := total s; successes := successes s; failures := failures s;
     skipped := skipped s; duration_seconds := d |}.

Section Methods.
Variable rt : Runtime.
Variable new_client : Z -> Z -> EmojiKitchenClient.
Variable format_percent : Z -> Z -> str.

(** The clock of the [i]-th call of [download_pair] in a batch. *)
Variable clock_at : nat -> Clock.

(** [for emoji1, emoji2 in emoji_pairs: await self.download_pair(...)] *)
Fixpoint download_each (i : nat) (emoji_pairs : list (str * str)) (size : Z)
    : M State unit :=
  match emoji_pairs with
  | [] => ret tt
  | (emoji1, emoji2) :: rest =>
      download_pair rt new_client (clock_at i) emoji1 emoji2 size ;;;
      download_each (S i) rest size
  end.

(** [self.logger.close()] on the logger of the orchestrator. *)
Definition close_logger (s : Session) : Session :=
  let logs := {| Summary.logger := logger (self (state s));
                 Summary.summary_file := summary_file s |} in
  let logs' := (Summary.close rt format_percent logs).2 in
  {| state := set_logger (Summary.logger logs') (state s);
     summary_file := Summary.summary_file logs' |}.

(** [download_batch]; [time_begin] and [time_end] are the two readings of
    [time.time()] around the loop.  [Returned] is the outcome when the
    table of failures renders and the summary file can be written, as
    [print_failures] and [save_summary] above have it. *)
Definition download_batch (time_begin time_end : float)
    (emoji_pairs : list (str * str)) (size : Z) (s : Session)
    : ended DownloadStats * Session :=
  let st0 := set_stats (new_stats (Z.of_nat (length emoji_pairs))) (state s) in
  let st1 := set_logger
               (Logger.emit Logger.INFO
                  (lit "Starting batch download of "
                   ++ to_dec (Z.of_nat (length emoji_pairs)) ++ lit " combinations")
                  (logger (self st0))) st0 in
  match download_each 0 emoji_pairs size st1 with
  | (Raise e, st2) => (Propagated e, {| state := st2; summary_file := summary_file s |})
  | (Return _, st2) =>
      let st3 := set_stats (set_duration (PrimFloat.sub time_end time_begin)
                              (stats (self st2))) st2 in
      match Reporting.print_failures (Logger.failures (logger (self st3))) 20 with
      | None => (TypeError, {| state := st3; summary_file := summary_file s |})
      | Some _ =>
          let s' := close_logger {| state := st3; summary_file := summary_file s |} in
          (Returned (stats (self (state s'))), s')
      end
  end.

(** [download_single], with the summary file writable as in
    [save_summary]. *)
Definition download_single (clock : Clock) (emoji1 emoji2 : str) (size : Z)
    (s : Session) : ended bool * Session :=
  match download_pair rt new_client clock emoji1 emoji2 size (state s) with
  | (Raise e, st1) => (Propagated e, {| state := st1; summary_file := summary_file s |})
  | (Return (success, error), st1) =>
      (Returned success,
       close_logger {| state := st1; summary_file := summary_file s |})
  end.

End Methods.

End Batch.

(* ===================================================================== *)
(** * A batch of the orchestrator as a run *)
(* ===================================================================== *)

Module BatchRun.
Import Paths Storage Client Orchestrator.

(** [download_batch] awaits one [download_pair] at a time, and every call
    of [download_pair] builds a client of its own
    ([async with EmojiKitchenClient(delay_ms=..., max_concurrent=...)]):
    at any moment there is at most one call, which is before its fetch,
    waiting for a permit of its client, or with its fetch on the wire. *)
Inductive fetching :=
| Idle                    (* no call is inside [download_image] *)
| Waiting                 (* inside [download_image], waiting for a permit *)
| OnTheWire.              (* permit held, request on the wire *)

Record Run := {
  st : State;
  (** the pairs still to be downloaded, the current one first *)
  todo : list (str * str);
  (** the calls of [download_pair] that are over *)
  done : nat;
  fetch : fetching;
  (** permits of the current client's pool that are taken *)
  permits_taken : Z
}.

(** The fetches that are outstanding at one moment of the run. *)
Definition outstanding (r : Run) : Z :=
  match fetch r with
  | OnTheWire => 1
  | _ => 0
  end.

Definition start (s : State) (emoji_pairs : list (str * str)) : Run :=
  {| st := s; todo := emoji_pairs; done := 0; fetch := Idle; permits_taken := 0 |}.

(** What is left of the loop once a call is over: an exception leaves it. *)
Definition after_call {A} (out : result A) (rest : list (str * str))
    : list (str * str) :=
  match out with
  | Return _ => rest
  | Raise _ => []
  end.

Section Steps.
Variable rt : Runtime.
Variable new_client : Z -> Z -> EmojiKitchenClient.
Variable clock_at : nat -> Clock.
Variable size : Z.

(** The call gets as far as [client.download_image]: it is not skipped,
    and neither the existence check nor [build_url] raises. *)
Definition reaches_fetch (s : State) (emoji1 emoji2 : str) : Prop :=
  fetches rt s emoji1 emoji2
  /\ returns (build_url (new_client (delay_ms (self s)) (max_concurrent (self s)))
                emoji1 emoji2 size).

(** Modelled from the spec: api/client.py is not among the sources.
    [download_image] takes a permit of the pool of its client, which
    holds [max_concurrent] of them, before it dispatches
    ([step_acquire]), and gives it back whatever the outcome
    ([step_answer]).  The client is new with every call
    ([step_enter]). *)
Inductive step : Run -> Run -> Prop :=
| step_pass r emoji1 emoji2 rest out s' :
    (* a call that is over before any fetch: skipped, or raised early *)
    fetch r = Idle ->
    todo r = (emoji1, emoji2) :: rest ->
    ~ reaches_fetch (st r) emoji1 emoji2 ->
    download_pair rt new_client (clock_at (done r)) emoji1 emoji2 size (st r)
    = (out, s') ->
    step r {| st := s'; todo := after_call out rest; done := S (done r);
              fetch := Idle; permits_taken := permits_taken r |}
| step_enter r emoji1 emoji2 rest :
    fetch r = Idle ->
    todo r = (emoji1, emoji2) :: rest ->
    reaches_fetch (st r) emoji1 emoji2 ->
    step r {| st := st r; todo := todo r; done := done r;
              fetch := Waiting; permits_taken := 0 |}
| step_acquire r :
    fetch r = Waiting ->
    permits_taken r < max_concurrent (self (st r)) ->
    step r {| st := st r; todo := todo r; done := done r;
              fetch := OnTheWire; permits_taken := permits_taken r + 1 |}
| step_answer r emoji1 emoji2 rest out s' :
    (* the client is back: the rest of the call runs to its end *)
    fetch r = OnTheWire ->
    todo r = (emoji1, emoji2) :: rest ->
    download_pair rt new_client (clock_at (done r)) emoji1 emoji2 size (st r)
    = (out, s') ->
    step r {| st := s'; todo := after_call out rest; done := S (done r);
              fetch := Idle; permits_taken := permits_taken r - 1 |}.

(** The moments of the loop of [download_batch] started in state [s]. *)
Inductive reachable (s : State) (emoji_pairs : list (str * str)) : Run -> Prop :=
| reach_start : reachable s emoji_pairs (start s emoji_pairs)
| reach_step r r' :
    reachable s emoji_pairs r -> step r r' -> reachable s emoji_pairs r'.

End Steps.

(** What holds at every moment of the run: the permits taken are those
    of the outstanding fetch, the ceiling is the one the run started
    with, and it is not exceeded. *)
Definition pool_invariant (ceiling : Z) (r : Run) : Prop :=
  permits_taken r = outstanding r
  /\ max_concurrent (self (st r)) = ceiling
  /\ outstanding r <= Z.max 0 ceiling.

End BatchRun.

(* ===================================================================== *)
(** * More of the bulk script *)
(* ===================================================================== *)

Module BulkMore.
Import Paths Storage Client Bulk.

(** [list(product(emojis, repeat=2))] *)
Definition generate_all_combinations (emojis : list str) : list (str * str) :=
  list_prod emojis emojis.

(** [total_attempted] of [print_summary] *)
Definition total_attempted (self : BulkDownloader) : Z :=
  successes self + failures self + not_found self + skipped self.

Section Methods.
Variable rt : Runtime.

(** [download_batch_chunk]: the pairs one after the other. *)
Fixpoint download_batch_chunk (client : EmojiKitchenClient)
    (pairs : list (str * str)) : M State unit :=
  match pairs with
  | [] => ret tt
  | (emoji1, emoji2) :: rest =>
      st <- get ;;
      already <- on_storage (file_exists rt (storage (self st)) emoji1 emoji2) ;;
      if already : bool then
        modify incr_skipped ;;;
        modify advance_progress ;;;
        download_batch_chunk client rest
      else
        modify (send_request emoji1 emoji2 (size (self st))) ;;;
        r <- pure (download_image client emoji1 emoji2 (size (self st))) ;;
        let '(success, content, error, status_code) := r in
        st <- get ;;
        (if success && truthy_opt truthy_seq content then
           try_except
             (on_storage (save rt (storage (self st)) emoji1 emoji2
                            (default [] content)) ;;;
              modify incr_successes)
             (fun e => modify (record_failure (emoji1, emoji2, exn_str rt e)))
         else
           if bool_decide (status_code = Some 404) then modify incr_not_found
           else modify (record_failure
                          (emoji1, emoji2, str_or error (lit "Unknown error")))) ;;;
        modify advance_progress ;;;
        download_batch_chunk client rest
  end.

(** The coroutines of [download_all], had they run one after the other. *)
Fixpoint process_each (client : EmojiKitchenClient) (pairs : list (str * str))
    : M State unit :=
  match pairs with
  | [] => ret tt
  | (emoji1, emoji2) :: rest =>
      process_single rt client emoji1 emoji2 ;;; process_each client rest
  end.

End Methods.

End BulkMore.

(* ===================================================================== *)
(** * The test runner *)
(* ===================================================================== *)

Module RunTest.

(** [str.isspace] of one character, as [strip()] and [split()] use it. *)
Definition isspace (c : N) : bool :=
  ((9 <=? c) && (c <=? 13) || (28 <=? c) && (c <=? 32)
   || (c =? 133) || (c =? 160) || (c =? 5760)
   || (8192 <=? c) && (c <=? 8202)
   || (c =? 8232) || (c =? 8233) || (c =? 8239) || (c =? 8287)
   || (c =? 12288))%N.

Fixpoint lstrip (s : str) : str :=
  match s with
  | [] => []
  | c :: s' => if isspace c then lstrip s' else c :: s'
  end.

(** [s.strip()] *)
Definition strip (s : str) : str := rev (lstrip (rev (lstrip s))).

(** [s.split()], with the word being read in [word]. *)
Fixpoint split_from (word : str) (s : str) : list str :=
  match s with
  | [] => match word with [] => [] | _ => [word] end
  | c :: s' =>
      if isspace c then
        match word with
        | [] => split_from [] s'
        | _ => word :: split_from [] s'
        end
      else split_from (word ++ [c]) s'
  end.

Definition split (s : str) : list str := split_from [] s.

(** [s.startswith('#')] *)
Definition is_comment (s : str) : bool :=
  match s with
  | c :: _ => (c =? 35)%N
  | [] => false
  end.

(** What one line of the test file adds to [emoji_pairs]. *)
Definition parse_line (line : str) : option (str * str) :=
  let line := strip line in
  if negb (truthy_seq line) || is_comment line then None
  else
    match split line with
    | a :: b :: _ => Some (a, b)
    | _ => None
    end.

(** The loop over the lines of the file. *)
Fixpoint read_pairs (lines : list str) : list (str * str) :=
  match lines with
  | [] => []
  | line :: rest =>
      match parse_line line with
      | Some pr => pr :: read_pairs rest
      | None => read_pairs rest
      end
  end.

End RunTest.

(* ===================================================================== *)
(** * Conditions on states *)
(* ===================================================================== *)

Module Conditions.
Import Storage Orchestrator.

(** A lone surrogate: a code point that [str] can hold and UTF-8 cannot
    encode, so that writing it to a file opened with [encoding='utf-8']
    raises [UnicodeEncodeError]. *)
Definition surrogate (c : N) : bool := ((55296 <=? c) && (c <=? 57343))%N.

(** A text that UTF-8 can encode. *)
Definition utf8_text (s : str) : bool := forallb (fun c => negb (surrogate c)) s.

Definition text_of (o : option str) : list str :=
  match o with
  | Some s => [s]
  | None => []
  end.

(** The texts of a record, as [to_dict()] hands them to [json.dump]. *)
Definition record_texts (r : Logger.DownloadResult) : list str :=
  [Logger.emoji1 r; Logger.emoji2 r; Logger.timestamp r]
  ++ text_of (Logger.file_path r) ++ text_of (Logger.error_type r)
  ++ text_of (Logger.error_message r) ++ text_of (Logger.url r).

(** A record that [json.dump(..., ensure_ascii=False)] can write. *)
Definition encodable (r : Logger.DownloadResult) : bool :=
  forallb utf8_text (record_texts r).

(** The texts a logging call puts into its record. *)
Definition call_texts (c : Summary.log_call) : list str :=
  match c with
  | Summary.LogSuccess now emoji1 emoji2 file_path _ url _ =>
      [emoji1; emoji2; now; file_path] ++ text_of url
  | Summary.LogFailure now emoji1 emoji2 error_type error_message _ _ url =>
      [emoji1; emoji2; now; error_type; error_message] ++ text_of url
  end.



(** The record carries an error message. *)
Definition has_message (r : Logger.DownloadResult) : Prop :=
  is_Some (Logger.error_message r).

(** The two log files hold what they held when the session began, [ds] and
    [df], followed by the records kept in memory. *)
Definition files_in_step (ds df : list Logger.DownloadResult)
    (lg : Logger.JSONLogger) : Prop :=
  Logger.success_file lg = Return (ds ++ Logger.successes lg)
  /\ Logger.failure_file lg = Return (df ++ Logger.failures lg).

(** Two states of the same orchestrator: the fields the constructor sets
    and no method assigns. *)
Definition same_config (st st' : State) : Prop :=
  output_dir (self st') = output_dir (self st)
  /\ log_dir (self st') = log_dir (self st)
  /\ delay_ms (self st') = delay_ms (self st)
  /\ max_concurrent (self st') = max_concurrent (self st)
  /\ skip_existing (self st') = skip_existing (self st)
  /\ verbose (self st') = verbose (self st)
  /\ storage (self st') = storage (self st).

(** The pairs the statistics account for. *)
Definition handled (s : DownloadStats) : Z :=
  successes s + failures s + skipped s.

(** Every pair of the list has its picture on disk. *)
Definition all_on_disk (rt : Runtime) (st : State) (emoji_pairs : list (str * str))
    : Prop :=
  Forall (fun pr => (file_exists rt (storage (self st)) pr.1 pr.2 (fs st)).1
                    = Return true) emoji_pairs.

(** How a later state [st'] of the orchestrator relates to an earlier one
    [st] when [n] calls of [download_pair] have returned in between and
    [x] requests went out for calls that did not return. *)
Definition progressed (n x : Z) (st st' : State) : Prop :=
  let s := stats (self st) in
  let s' := stats (self st') in
  let lg := logger (self st) in
  let lg' := logger (self st') in
  same_config st st'
  /\ (total s' = total s /\ duration_seconds s' = duration_seconds s)
  /\ (successes s <= successes s' /\ failures s <= failures s'
      /\ skipped s <= skipped s')
  /\ handled s' = handled s + n
  /\ (Z.of_nat (length (Logger.successes lg'))
      = Z.of_nat (length (Logger.successes lg)) + (successes s' - successes s)
      /\ Z.of_nat (length (Logger.failures lg'))
         = Z.of_nat (length (Logger.failures lg)) + (failures s' - failures s))
  /\ Z.of_nat (length (requests st'))
     = Z.of_nat (length (requests st))
       + (successes s' - successes s) + (failures s' - failures s) + x
  /\ (Forall has_message (Logger.failures lg)
      -> Forall has_message (Logger.failures lg'))
  /\ (forall ds df : list Logger.DownloadResult,
        files_in_step ds df lg -> files_in_step ds df lg')
  /\ (forall (q : path) (e : node),
        fs st !! q = Some e ->
        exists e', fs st' !! q = Some e'
                   /\ (e = Dir <-> e' = Dir)
                   /\ (skip_existing (self st) = true -> e' = e)).

(** The state in which the loop of [download_batch] starts: fresh
    statistics, and the line that announces the batch. *)
Definition batch_begin (emoji_pairs : list (str * str)) (st : State) : State :=
  let st0 := set_stats (new_stats (Z.of_nat (length emoji_pairs))) st in
  set_logger
    (Logger.emit Logger.INFO
       (lit "Starting batch download of "
        ++ to_dec (Z.of_nat (length emoji_pairs)) ++ lit " combinations")
       (logger (self st0))) st0.

End Conditions.

(* ===================================================================== *)
(** * Conditions on states of the bulk script *)
(* ===================================================================== *)

Module BulkConditions.
Import Storage Bulk.

(** How a later state [s'] of the downloader relates to an earlier one
    [s] when [n] pairs have been dealt with in between: each of them is
    in exactly one of the four counters and has advanced the progress bar
    once, every failure has its entry in [failed_pairs], no counter has
    gone down, and the configuration is the same. *)
Definition advanced (n : Z) (s s' : State) : Prop :=
  BulkMore.total_attempted (self s') = BulkMore.total_attempted (self s) + n
  /\ progress s' = progress s + n
  /\ Z.of_nat (length (failed_pairs (self s'))) - failures (self s')
     = Z.of_nat (length (failed_pairs (self s))) - failures (self s)
  /\ (successes (self s) <= successes (self s')
      /\ failures (self s) <= failures (self s')
      /\ skipped (self s) <= skipped (self s')
      /\ not_found (self s) <= not_found (self s'))
  /\ (size (self s') = size (self s)
      /\ storage (self s') = storage (self s)
      /\ max_concurrent (self s') = max_concurrent (self s)).

(** The coroutines of the gathered batch that have returned. *)
Definition returned (l : list task) : Z :=
  Z.of_nat (length (filter (fun t => settled t = true) l)).

(** The pairs a run has dealt with: those of the batches gathered
    earlier, and those of the current batch whose coroutine is back. *)
Definition dealt_with (total : nat) (r : Run) : Z :=
  Z.of_nat total - Z.of_nat (length (pending r)) - Z.of_nat (length (tasks r))
  + returned (tasks r).

(** The coroutine has handed its request to the client and is not back. *)
Definition awaiting (t : task) : Prop :=
  task_phase t = Queued \/ task_phase t = Outstanding.

(** What a run keeps of the state [s] it started in: the entries of the
    tree, the storage manager, and, for every coroutine that waits for
    its answer, that the tree it started from had no picture of its pair. *)
Definition spared (rt : Runtime) (s : State) (r : Run) : Prop :=
  (forall (q : path) (e : node), fs s !! q = Some e -> fs (st r) !! q = Some e)
  /\ storage (self (st r)) = storage (self s)
  /\ (forall (i : nat) (t : task),
        tasks r !! i = Some t -> awaiting t ->
        (file_exists rt (storage (self s)) (task_pair t).1 (task_pair t).2
           (fs s)).1 = Return false).


End BulkConditions.

(* ===================================================================== *)
(** * Conditions on the lines of the test file *)
(* ===================================================================== *)

Module LineConditions.
Import RunTest.

(** A run of whitespace. *)
Definition blank (ws : str) : Prop := Forall (fun c => isspace c = true) ws.

(** A word: not empty, and free of whitespace. *)
Definition word (w : str) : Prop :=
  w <> [] /\ Forall (fun c => isspace c = false) w.

(** Nothing, or something that begins with whitespace. *)
Definition set_off (tail : str) : Prop :=
  match tail with
  | [] => True
  | c :: _ => isspace c = true
  end.

End LineConditions.

(* ===================================================================== *)
(** * Concrete inputs *)
(* ===================================================================== *)

Module Examples.
Import Paths Storage Client.

(** U+1F600 and U+1F60E, two glyphs of the script's top-100 list. *)
Definition grinning : str := [128512%N].
Definition sunglasses : str := [128526%N].

(** A POSIX rendering of the runtime, abridged: the message of an
    [OSError] is given without its file name and every duration is
    rendered as [0]; [Sessions.linux] has both in full. *)
Definition posix : Runtime :=
  {| exn_str := fun e =>
       match e with
       | InvalidInput _ => lit "empty emoji"
       | OSError EEXIST _ => lit "[Errno 17] File exists"
       | OSError ENOENT _ => lit "[Errno 2] No such file or directory"
       | OSError ENOTDIR _ => lit "[Errno 20] Not a directory"
       | OSError EISDIR _ => lit "[Errno 21] Is a directory"
       | ClientException what => what
       end;
     path_str := join (lit "/");
     format_0f := fun _ => lit "0";
     glyph_safe := true;
     path_size := 512;
     dir_st_size := 4096 |}.

Definition downloads : path := [lit "downloads"].

Definition by_codepoint : StorageManager :=
  {| base_dir := downloads; filename_format := codepoint |}.

(** [downloads/1f600/1f600_1f60e_512.png] *)
Definition grin_cool_png : path :=
  [lit "downloads"; lit "1f600"; lit "1f600_1f60e_512.png"].

Definition png_bytes : bytes := [x89; x50; x4e; x47].

(** An output directory that holds nothing yet. *)
Definition empty_tree : filesystem := {[ downloads := Dir ]}.

(** The pair's picture is there already. *)
Definition tree_with_file : filesystem :=
  <[ grin_cool_png := File [x00] ]>
    (<[ [lit "downloads"; lit "1f600"] := Dir ]> empty_tree).

(** Someone made a directory where the pair's picture belongs. *)
Definition tree_with_dir : filesystem :=
  <[ grin_cool_png := Dir ]>
    (<[ [lit "downloads"; lit "1f600"] := Dir ]> empty_tree).

(** A logger as the orchestrator makes it without [verbose]. *)
Definition quiet_logger : Logger.JSONLogger :=
  Logger.init posix [lit "logs"] (lit "20250101_000000") false 20 None None.

Definition new_year : str := lit "2025-01-01T00:00:00".

(** A client whose endpoint gives the same answer to every request. *)
Definition serve (answer : result Client.response) : EmojiKitchenClient :=
  {| build_url := fun e1 e2 size =>
       Return (lit "https://emojik.vercel.app/s/" ++ emoji_to_codepoint e1
               ++ lit "_" ++ emoji_to_codepoint e2 ++ lit "?size=" ++ to_dec size);
     download_image := fun _ _ _ => answer |}.

Definition not_found_404 : Client.response :=
  (false, None, Some (lit "HTTP 404"), Some 404).

Definition unavailable_503 : Client.response :=
  (false, None, Some (lit "HTTP 503"), Some 503).

Definition ok_200 : Client.response :=
  (true, Some png_bytes, None, Some 200).

(** The orchestrator of [run_test.py], with skipping switched on. *)
Definition orchestrator0 : Orchestrator.DownloadOrchestrator :=
  {| Orchestrator.output_dir := downloads;
     Orchestrator.log_dir := [lit "logs"];
     Orchestrator.delay_ms := 100;
     Orchestrator.max_concurrent := 50;
     Orchestrator.skip_existing := true;
     Orchestrator.verbose := false;
     Orchestrator.storage := by_codepoint;
     Orchestrator.logger := quiet_logger;
     Orchestrator.stats := Orchestrator.new_stats 0 |}.

Definition on_tree (tree : filesystem) : Orchestrator.State :=
  {| Orchestrator.self := orchestrator0;
     Orchestrator.fs := tree;
     Orchestrator.requests := [] |}.

(** The downloader of [bulk_download.py]'s [main], on an empty output
    directory. *)
Definition bulk0 : Bulk.State :=
  {| Bulk.self :=
       {| Bulk.output_dir := downloads; Bulk.size := 100;
          Bulk.max_concurrent := 100; Bulk.delay_ms := 25;
          Bulk.storage := {| base_dir := downloads; filename_format := emoji |};
          Bulk.successes := 0; Bulk.failures := 0; Bulk.skipped := 0;
          Bulk.not_found := 0; Bulk.failed_pairs := [] |};
     Bulk.fs := empty_tree;
     Bulk.requests := [];
     Bulk.progress := 0 |}.

(** The picture's path under glyph names. *)
Definition grin_cool_glyph_png : path :=
  [lit "downloads"; grinning;
   grinning ++ lit "_" ++ sunglasses ++ lit "_" ++ lit "512" ++ lit ".png"].

(** A run of [download_all] over one pair: scheduled, then waiting for a
    permit, then with its request on the wire. *)
Definition one_pair : list (str * str) := [(grinning, sunglasses)].

Definition scheduled : Bulk.Run :=
  {| Bulk.st := bulk0;
     Bulk.tasks := [Bulk.spawn (grinning, sunglasses)];
     Bulk.pending := [];
     Bulk.permits_taken := 0 |}.

Definition queued : Bulk.Run :=
  {| Bulk.st := Bulk.send_request grinning sunglasses 100 bulk0;
     Bulk.tasks := [ {| Bulk.task_pair := (grinning, sunglasses); Bulk.task_phase := Bulk.Queued |} ];
     Bulk.pending := [];
     Bulk.permits_taken := 0 |}.

Definition fetching : Bulk.Run :=
  {| Bulk.st := Bulk.send_request grinning sunglasses 100 bulk0;
     Bulk.tasks := [ {| Bulk.task_pair := (grinning, sunglasses); Bulk.task_phase := Bulk.Outstanding |} ];
     Bulk.pending := [];
     Bulk.permits_taken := 1 |}.

(** A fetch that takes a quarter of a second. *)
Definition clock0 : Orchestrator.Clock :=
  {| Orchestrator.time_start := 1000%float;
     Orchestrator.time_fetched := 1000.25%float;
     Orchestrator.now_iso := new_year |}.

End Examples.

(* ===================================================================== *)
(** * Concrete sessions *)
(* ===================================================================== *)

Module Sessions.
Import Paths Storage Client Examples.

(** One success and one failure, as [download_pair] would log them. *)
Definition two_calls : list Summary.log_call :=
  [Summary.LogSuccess new_year grinning sunglasses (lit "out.png")
     (Some 250%float) None (Some 200);
   Summary.LogFailure new_year sunglasses grinning (lit "NotFound")
     (lit "HTTP 404") (Some 404) None None].

(** The integer nearest to [m * 2 ^ e], ties to even. *)
Definition round_half_even (m : positive) (e : Z) : Z :=
  if 0 <=? e then Z.pos m * 2 ^ e
  else
    let d := 2 ^ (- e) in
    let q := Z.pos m / d in
    let r := Z.pos m mod d in
    if (d <? 2 * r) || ((2 * r =? d) && Z.odd q) then q + 1 else q.

(** [format(d, ".0f")] *)
Definition format_0f_exact (d : float) : str :=
  match FloatOps.Prim2SF d with
  | SpecFloat.S754_zero s => (if s then lit "-" else []) ++ lit "0"
  | SpecFloat.S754_infinity s => (if s then lit "-" else []) ++ lit "inf"
  | SpecFloat.S754_nan => lit "nan"
  | SpecFloat.S754_finite s m e =>
      (if s then lit "-" else []) ++ to_dec (round_half_even m e)
  end.

(** [os.strerror] on Linux. *)
Definition strerror (code : os_error) : str :=
  match code with
  | EEXIST => lit "[Errno 17] File exists"
  | ENOENT => lit "[Errno 2] No such file or directory"
  | ENOTDIR => lit "[Errno 20] Not a directory"
  | EISDIR => lit "[Errno 21] Is a directory"
  end.

(** The runtime on Linux: [str(e)] of an [OSError] names the file, in
    quotes (the file names of these sessions hold no quote and no control
    character, which [repr] would escape). *)
Definition linux : Runtime :=
  {| exn_str := fun e =>
       match e with
       | InvalidInput _ => lit "empty emoji"
       | OSError code target =>
           strerror code ++ lit ": '" ++ join (lit "/") target ++ lit "'"
       | ClientException what => what
       end;
     path_str := join (lit "/");
     format_0f := format_0f_exact;
     glyph_safe := true;
     path_size := 512;
     dir_st_size := 4096 |}.

(** The success log of the session has been removed behind the logger's
    back: opening it raises [FileNotFoundError]. *)
Definition missing_log : exn :=
  OSError ENOENT [lit "logs"; lit "successes_20250101_000000.json"].

(** A logger whose success log cannot be opened. *)
Definition damaged_logger : Logger.JSONLogger :=
  Logger.init linux [lit "logs"] (lit "20250101_000000") false 20
    (Some (Raise missing_log)) None.


(** A logger that holds one success and one failure, with the summary of
    its session not written yet. *)
Definition busy_logs : Summary.Logs :=
  {| Summary.logger := (Summary.run_calls posix two_calls quiet_logger).2;
     Summary.summary_file := None |}.

(** The orchestrator as [run_test.py] constructs it, which overwrites. *)
Definition overwriting (tree : filesystem) : Orchestrator.State :=
  {| Orchestrator.self :=
       {| Orchestrator.output_dir := downloads;
          Orchestrator.log_dir := [lit "logs"];
          Orchestrator.delay_ms := 100;
          Orchestrator.max_concurrent := 50;
          Orchestrator.skip_existing := false;
          Orchestrator.verbose := false;
          Orchestrator.storage := by_codepoint;
          Orchestrator.logger := quiet_logger;
          Orchestrator.stats := Orchestrator.new_stats 0 |};
     Orchestrator.fs := tree;
     Orchestrator.requests := [] |}.

(** A session of the overwriting orchestrator on a tree that holds the
    pair's picture already. *)
Definition overwriting_session : Batch.Session :=
  {| Batch.state := overwriting tree_with_file; Batch.summary_file := None |}.

(** A session of the skipping orchestrator that has written no summary. *)
Definition session_on (tree : filesystem) : Batch.Session :=
  {| Batch.state := on_tree tree; Batch.summary_file := None |}.

(** Every pair of a batch sees the same clock. *)
Definition every_time : nat -> Orchestrator.Clock := fun _ => clock0.

(** The rendering of a rate of one, the only rate of these sessions. *)
Definition whole : Z -> Z -> str := fun _ _ => lit "100.0".


(** The downloader of the bulk script with a ceiling of two, and three
    pairs for it. *)
Definition bulk2 : Bulk.State :=
  {| Bulk.self :=
       {| Bulk.output_dir := downloads; Bulk.size := 100;
          Bulk.max_concurrent := 2; Bulk.delay_ms := 25;
          Bulk.storage := {| base_dir := downloads; filename_format := emoji |};
          Bulk.successes := 0; Bulk.failures := 0; Bulk.skipped := 0;
          Bulk.not_found := 0; Bulk.failed_pairs := [] |};
     Bulk.fs := empty_tree;
     Bulk.requests := [];
     Bulk.progress := 0 |}.

Definition three_pairs : list (str * str) :=
  [(grinning, sunglasses); (sunglasses, grinning); (grinning, grinning)].

(** The three coroutines have handed their requests to the client. *)
Definition three_sent : Bulk.State :=
  Bulk.send_request grinning grinning 100
    (Bulk.send_request sunglasses grinning 100
       (Bulk.send_request grinning sunglasses 100 bulk2)).

Definition in_phases (a b c : Bulk.phase) : list Bulk.task :=
  [ {| Bulk.task_pair := (grinning, sunglasses); Bulk.task_phase := a |};
    {| Bulk.task_pair := (sunglasses, grinning); Bulk.task_phase := b |};
    {| Bulk.task_pair := (grinning, grinning); Bulk.task_phase := c |} ].

(** The pool is exhausted: two fetches are on the wire and the third
    coroutine waits for a permit. *)
Definition crowded : Bulk.Run :=
  {| Bulk.st := three_sent;
     Bulk.tasks := in_phases Bulk.Outstanding Bulk.Outstanding Bulk.Queued;
     Bulk.pending := [];
     Bulk.permits_taken := 2 |}.

(** An overwriting orchestrator with a ceiling of one. *)
Definition narrow : Orchestrator.State :=
  {| Orchestrator.self :=
       {| Orchestrator.output_dir := downloads;
          Orchestrator.log_dir := [lit "logs"];
          Orchestrator.delay_ms := 100;
          Orchestrator.max_concurrent := 1;
          Orchestrator.skip_existing := false;
          Orchestrator.verbose := false;
          Orchestrator.storage := by_codepoint;
          Orchestrator.logger := quiet_logger;
          Orchestrator.stats := Orchestrator.new_stats 0 |};
     Orchestrator.fs := empty_tree;
     Orchestrator.requests := [] |}.

(** Its batch over the three pairs, with the first fetch on the wire. *)
Definition first_on_the_wire : BatchRun.Run :=
  {| BatchRun.st := narrow; BatchRun.todo := three_pairs; BatchRun.done := 0;
     BatchRun.fetch := BatchRun.OnTheWire; BatchRun.permits_taken := 1 |}.

(** The output directory of an earlier run of the bulk script: the first
    pair's picture is there under its glyph name. *)
Definition glyph_tree : filesystem :=
  <[ grin_cool_glyph_png := File [x00] ]>
    (<[ [lit "downloads"; grinning] := Dir ]> empty_tree).

Definition bulk_again : Bulk.State := Bulk.set_fs glyph_tree bulk0.

Definition two_pairs : list (str * str) :=
  [(grinning, sunglasses); (sunglasses, grinning)].

Definition cool_grin_glyph_png : path :=
  [lit "downloads"; sunglasses;
   sunglasses ++ lit "_" ++ grinning ++ lit "_" ++ lit "512" ++ lit ".png"].

Definition both (a b : Bulk.phase) : list Bulk.task :=
  [ {| Bulk.task_pair := (grinning, sunglasses); Bulk.task_phase := a |};
    {| Bulk.task_pair := (sunglasses, grinning); Bulk.task_phase := b |} ].

(** The first pair has been skipped. *)
Definition first_skipped : Bulk.State :=
  Bulk.advance_progress (Bulk.incr_skipped bulk_again).

(** The second pair has been fetched and its picture written. *)
Definition second_saved : Bulk.Run :=
  {| Bulk.st :=
       Bulk.advance_progress
         (Bulk.incr_successes
            (Bulk.set_fs
               (<[ cool_grin_glyph_png := File png_bytes ]>
                  (<[ [lit "downloads"; sunglasses] := Dir ]> glyph_tree))
               (Bulk.send_request sunglasses grinning 100 first_skipped)));
     Bulk.tasks := both Bulk.Finished Bulk.Finished;
     Bulk.pending := [];
     Bulk.permits_taken := 0 |}.

(** An endpoint that has a picture for every pair. *)
Definition generous : Z -> Z -> EmojiKitchenClient :=
  fun _ _ => serve (Return ok_200).

End Sessions.

(* ===================================================================== *)
(** * Facts about strings and codepoint keys *)
(* ===================================================================== *)

Module PathsFacts.
Import Paths.

Lemma lit_inj s1 s2 : lit s1 = lit s2 -> s1 = s2.
Proof.
  revert s2. induction s1 as [|a s1 IH]; intros [|b s2]; simpl; try discriminate.
  - reflexivity.
  - intros [= Hab Hs]. f_equal; [|auto].
    rewrite <- (ascii_N_embedding a), <- (ascii_N_embedding b). now f_equal.
Qed.

Lemma to_hex_inj n m : to_hex n = to_hex m -> n = m.
Proof.
  unfold to_hex. intros H%lit_inj.
  apply HexadecimalN.Unsigned.to_uint_inj.
  pose proof (HexadecimalString.NilEmpty.usu (N.to_hex_uint n)) as Hn.
  pose proof (HexadecimalString.NilEmpty.usu (N.to_hex_uint m)) as Hm.
  rewrite H in Hn. congruence.
Qed.

Lemma to_hex_nonempty n : to_hex n <> [].
Proof.
  unfold to_hex. destruct n as [|p]; [discriminate|].
  simpl. pose proof (HexadecimalPos.Unsigned.to_uint_nonnil p) as Hp.
  destruct (Pos.to_hex_uint p); [congruence | discriminate ..].
Qed.

(** A hexadecimal rendering holds digits only: no hyphen. *)
Lemma hex_digits_no_hyphen d :
  ~ In 45%N (lit (HexadecimalString.NilEmpty.string_of_uint d)).
Proof.
  induction d; simpl; intros H; try tauto;
    (destruct H as [H|H]; [discriminate | tauto]).
Qed.

Lemma to_hex_no_hyphen n : ~ In 45%N (to_hex n).
Proof. apply hex_digits_no_hyphen. Qed.

Lemma join_cons sep x rest : join sep (x :: rest) = x ++ after_first sep rest.
Proof. destruct rest; simpl; [now rewrite app_nil_r | reflexivity]. Qed.

(** Two hyphen-free heads followed by nothing or by a hyphen. *)
Lemma split_at_hyphen (x y t1 t2 : str) :
  ~ In 45%N x -> ~ In 45%N y ->
  (t1 = [] \/ exists t, t1 = 45%N :: t) ->
  (t2 = [] \/ exists t, t2 = 45%N :: t) ->
  x ++ t1 = y ++ t2 -> x = y /\ t1 = t2.
Proof.
  revert y. induction x as [|a x IH]; intros [|b y] Hx Hy H1 H2; simpl; intros E.
  - now split.
  - exfalso. destruct H1 as [->|[t ->]]; [discriminate|].
    injection E as <- _. apply Hy. now left.
  - exfalso. destruct H2 as [->|[t ->]]; [discriminate|].
    injection E as -> _. apply Hx. now left.
  - injection E as -> E.
    destruct (IH y) as [-> ->]; auto.
    + intros ?. apply Hx. now right.
    + intros ?. apply Hy. now right.
Qed.

Lemma after_first_shape (rest : list str) :
  after_first (lit "-") rest = [] \/ exists t, after_first (lit "-") rest = 45%N :: t.
Proof. destruct rest; simpl; eauto. Qed.

Lemma emoji_to_codepoint_inj e1 e2 :
  emoji_to_codepoint e1 = emoji_to_codepoint e2 -> e1 = e2.
Proof.
  unfold emoji_to_codepoint. revert e2.
  induction e1 as [|c1 e1 IH]; intros [|c2 e2].
  - reflexivity.
  - cbn [map]. rewrite join_cons. simpl join. intros E. symmetry in E.
    apply app_eq_nil in E as [E _]. now apply to_hex_nonempty in E.
  - cbn [map]. rewrite join_cons. simpl join. intros E.
    apply app_eq_nil in E as [E _]. now apply to_hex_nonempty in E.
  - cbn [map]. rewrite !join_cons. intros E.
    apply split_at_hyphen in E as [Hc Ht];
      auto using to_hex_no_hyphen, after_first_shape.
    apply to_hex_inj in Hc as ->. f_equal.
    destruct e1 as [|d1 e1], e2 as [|d2 e2]; try discriminate; [reflexivity|].
    apply IH. unfold after_first in Ht. cbn [map] in Ht |- *.
    now apply app_inv_head in Ht.
Qed.

(** A key holds hexadecimal digits and hyphens only: no underscore. *)
Lemma hex_digits_no_underscore d :
  ~ In 95%N (lit (HexadecimalString.NilEmpty.string_of_uint d)).
Proof.
  induction d; simpl; intros H; try tauto;
    (destruct H as [H|H]; [discriminate | tauto]).
Qed.

Lemma emoji_to_codepoint_no_underscore e : ~ In 95%N (emoji_to_codepoint e).
Proof.
  unfold emoji_to_codepoint. induction e as [|c e IH]; [simpl; tauto|].
  cbn [map]. rewrite join_cons. intros [H|H]%in_app_or.
  - now apply hex_digits_no_underscore in H.
  - destruct e as [|c' e]; [contradiction|].
    cbn [map after_first] in H.
    apply in_app_or in H as [[H|[]]|H]; [discriminate | auto].
Qed.

(** Two underscore-free heads, each followed by an underscore. *)
Lemma split_at_underscore (x y t1 t2 : str) :
  ~ In 95%N x -> ~ In 95%N y ->
  x ++ 95%N :: t1 = y ++ 95%N :: t2 -> x = y /\ t1 = t2.
Proof.
  revert y. induction x as [|a x IH]; intros [|b y] Hx Hy; simpl; intros E.
  - injection E as ->. now split.
  - exfalso. injection E as <- _. apply Hy. now left.
  - exfalso. injection E as -> _. apply Hx. now left.
  - injection E as -> E.
    destruct (IH y) as [-> ->]; auto.
    + intros ?. apply Hx. now right.
    + intros ?. apply Hy. now right.
Qed.

(** The file name alone already tells two pairs apart. *)
Lemma codepoint_filenames_distinct rt e1 e2 e3 e4 size :
  (e1, e2) <> (e3, e4) ->
  generate_filename rt e1 e2 size codepoint
  <> generate_filename rt e3 e4 size codepoint.
Proof.
  intros Hne E. unfold generate_filename, emoji_name in E. cbn [resolve_format] in E.
  change (lit "_") with [95%N] in E. cbn [app] in E.
  apply split_at_underscore in E as [H1 E];
    auto using emoji_to_codepoint_no_underscore.
  apply emoji_to_codepoint_inj in H1 as ->.
  apply split_at_underscore in E as [H2 _];
    auto using emoji_to_codepoint_no_underscore.
  apply emoji_to_codepoint_inj in H2 as ->. now apply Hne.
Qed.

Lemma generate_full_path_valid rt base e1 e2 fmt :
  e1 <> [] -> e2 <> [] ->
  generate_full_path rt base e1 e2 fmt =
    Return (base ++ [generate_directory_name rt e1 fmt;
                     generate_filename rt e1 e2 (path_size rt) fmt]).
Proof. destruct e1, e2; intros; simpl; congruence. Qed.

Lemma generate_full_path_invalid rt base e1 e2 fmt :
  e1 = [] \/ e2 = [] -> raises (generate_full_path rt base e1 e2 fmt).
Proof. destruct e1, e2; intros [|]; try discriminate; simpl; eexists; eauto. Qed.

Lemma codepoint_paths_distinct rt base e1 e2 e3 e4 :
  (e1, e2) <> (e3, e4) ->
  base ++ [generate_directory_name rt e1 codepoint;
           generate_filename rt e1 e2 (path_size rt) codepoint]
  <> base ++ [generate_directory_name rt e3 codepoint;
              generate_filename rt e3 e4 (path_size rt) codepoint].
Proof.
  intros Hne E. apply app_inv_head in E.
  unfold generate_directory_name, generate_filename, emoji_name in E. simpl in E.
  injection E as Hd Hf.
  apply emoji_to_codepoint_inj in Hd as ->.
  apply app_inv_head in Hf. injection Hf as Hf.
  apply app_inv_tail in Hf.
  apply emoji_to_codepoint_inj in Hf as ->. now apply Hne.
Qed.

End PathsFacts.

(* ===================================================================== *)
(** * Facts about the storage manager *)
(* ===================================================================== *)

Module StorageFacts.
Import Paths Storage Examples.

Ltac run :=
  unfold bind, ret, pure, get, modify, raise, try_except, zoom in *; simpl in *.

(** ** The file tree *)

Lemma write_bytes_returns (p : path) (content : bytes) (fs fs' : filesystem) :
  write_bytes p content fs = (Return tt, fs') ->
  p <> [] /\ fs' = <[p := File content]> fs.
Proof.
  unfold write_bytes. run.
  destruct (stat fs (parent p)) as [[|]|]; try discriminate.
  destruct p as [|c p]; [discriminate|].
  destruct (stat fs (c :: p)) as [[|]|]; try discriminate;
    intros [= <-]; split; congruence.
Qed.

(** ** Outcomes of the manager's methods *)

Section Methods.
Variable rt : Runtime.

Lemma file_exists_raises (sm : StorageManager) (e1 e2 : str) (fs : filesystem) (e : exn) :
  get_file_path rt sm e1 e2 = Raise e ->
  file_exists rt sm e1 e2 fs = (Raise e, fs).
Proof. unfold file_exists. run. now intros ->. Qed.

Lemma file_exists_returns (sm : StorageManager) (e1 e2 : str) (fs : filesystem) (p : path) :
  get_file_path rt sm e1 e2 = Return p ->
  file_exists rt sm e1 e2 fs = (Return (is_file fs p), fs).
Proof.
  unfold file_exists. run. intros ->. do 2 f_equal.
  unfold path_exists, is_file. now destruct (stat fs p) as [[|]|].
Qed.

Lemma file_exists_keeps_tree (sm : StorageManager) (e1 e2 : str) (fs : filesystem) :
  (file_exists rt sm e1 e2 fs).2 = fs.
Proof.
  destruct (get_file_path rt sm e1 e2) as [p|e] eqn:E.
  - now rewrite (file_exists_returns _ _ _ _ _ E).
  - now rewrite (file_exists_raises _ _ _ _ _ E).
Qed.

Lemma get_file_path_nonempty (sm : StorageManager) (e1 e2 : str) (p : path) :
  get_file_path rt sm e1 e2 = Return p -> p <> [].
Proof.
  unfold get_file_path, generate_full_path.
  destruct e1, e2; try discriminate. intros [= <-].
  now destruct (base_dir sm).
Qed.

Lemma save_returns (sm : StorageManager) (e1 e2 : str) (content : bytes)
    (fs fs' : filesystem) (p : path) :
  save rt sm e1 e2 content fs = (Return p, fs') ->
  get_file_path rt sm e1 e2 = Return p /\ fs' !! p = Some (File content).
Proof.
  unfold save. run.
  destruct (get_file_path rt sm e1 e2) as [q|]; [|discriminate].
  destruct (mkdir_parents_exist_ok (parent q) fs) as [[[]|] fs1]; [|discriminate].
  destruct (write_bytes q content fs1) as [[[]|] fs2] eqn:W; [|discriminate].
  intros [= <- <-]. split; [reflexivity|].
  apply write_bytes_returns in W as [_ ->]. apply lookup_insert_eq.
Qed.

Lemma delete_absent (sm : StorageManager) (e1 e2 : str) (fs : filesystem) (p : path) :
  get_file_path rt sm e1 e2 = Return p -> stat fs p = None ->
  Storage.delete rt sm e1 e2 fs = (Return false, fs).
Proof.
  intros Hp Hs. unfold Storage.delete, path_exists. run.
  rewrite Hp. simpl. now rewrite Hs.
Qed.

Lemma delete_file (sm : StorageManager) (e1 e2 : str) (fs : filesystem) (p : path)
    (content : bytes) :
  get_file_path rt sm e1 e2 = Return p -> stat fs p = Some (File content) ->
  Storage.delete rt sm e1 e2 fs = (Return true, base.delete p fs).
Proof.
  intros Hp Hs. unfold Storage.delete, path_exists, unlink. run.
  rewrite Hp. simpl. now rewrite !Hs.
Qed.

Lemma delete_directory (sm : StorageManager) (e1 e2 : str) (fs : filesystem) (p : path) :
  get_file_path rt sm e1 e2 = Return p -> stat fs p = Some Dir ->
  Storage.delete rt sm e1 e2 fs = (Raise (OSError EISDIR p), fs).
Proof.
  intros Hp Hs. unfold Storage.delete, path_exists, unlink. run.
  rewrite Hp. simpl. now rewrite !Hs.
Qed.

Lemma delete_invalid (sm : StorageManager) (e1 e2 : str) (fs : filesystem) (e : exn) :
  get_file_path rt sm e1 e2 = Raise e ->
  Storage.delete rt sm e1 e2 fs = (Raise e, fs).
Proof. unfold Storage.delete. run. now intros ->. Qed.

End Methods.

Section Contracts.
Variable rt : Runtime.

Lemma makedirs_present (above : path) (c : str) (todo : list str) (fs : filesystem) :
  fs !! (above ++ [c]) = Some Dir ->
  makedirs above (c :: todo) fs = makedirs (above ++ [c]) todo fs.
Proof. intros H. simpl. run. now rewrite H. Qed.

Lemma makedirs_missing (above : path) (c : str) (todo : list str) (fs : filesystem) :
  fs !! (above ++ [c]) = None ->
  makedirs above (c :: todo) fs
  = makedirs (above ++ [c]) todo (<[above ++ [c] := Dir]> fs).
Proof. intros H. simpl. run. now rewrite H. Qed.

(** Saving where the directory is in place and no directory squats on the
    file's path: the bytes are written, over whatever file was there. *)
Lemma save_into_directory (sm : StorageManager) (e1 e2 : str) (content : bytes)
    (fs : filesystem) (p : path) :
  get_file_path rt sm e1 e2 = Return p ->
  mkdir_parents_exist_ok (parent p) fs = (Return tt, fs) ->
  stat fs (parent p) = Some Dir ->
  stat fs p <> Some Dir ->
  save rt sm e1 e2 content fs = (Return p, <[p := File content]> fs).
Proof.
  intros Hp Hm Hd Hf. unfold save, write_bytes. run.
  rewrite Hp. simpl. rewrite Hm, Hd.
  destruct (stat fs p) as [[|]|]; congruence.
Qed.

(** Saving where a directory squats on the file's path. *)
Lemma save_onto_directory (sm : StorageManager) (e1 e2 : str) (content : bytes)
    (fs : filesystem) (p : path) :
  get_file_path rt sm e1 e2 = Return p ->
  mkdir_parents_exist_ok (parent p) fs = (Return tt, fs) ->
  stat fs (parent p) = Some Dir ->
  stat fs p = Some Dir ->
  save rt sm e1 e2 content fs = (Raise (OSError EISDIR p), fs).
Proof.
  intros Hp Hm Hd Hf. unfold save, write_bytes. run.
  rewrite Hp. simpl. now rewrite Hm, Hd, Hf.
Qed.

(** C4: once [save] has returned, [file_exists] answers true and
    [get_file_size] answers the number of bytes written, whatever the tree
    held at that path before the call. *)
Theorem save_then_exists_and_size (sm : StorageManager) (e1 e2 : str)
    (content : bytes) (fs fs' : filesystem) (p : path) :
  save rt sm e1 e2 content fs = (Return p, fs') ->
  file_exists rt sm e1 e2 fs' = (Return true, fs')
  /\ get_file_size rt sm e1 e2 fs' = (Return (Some (Z.of_nat (length content))), fs').
Proof.
  intros H. apply save_returns in H as [Hp Hf].
  pose proof (get_file_path_nonempty _ _ _ _ _ Hp) as Hne.
  assert (Hs : stat fs' p = Some (File content)).
  { destruct p; [congruence | exact Hf]. }
  split.
  - rewrite (file_exists_returns _ _ _ _ _ _ Hp). unfold is_file. now rewrite Hs.
  - unfold get_file_size. run. rewrite Hp. simpl. now rewrite Hs.
Qed.

(** C5: resolution depends on nothing but the manager's configuration and
    the pair, and under the codepoint format two different valid pairs get
    two different paths. *)
Theorem get_file_path_deterministic_injective :
  (forall (sm sm' : StorageManager) (e1 e2 : str),
     base_dir sm = base_dir sm' -> filename_format sm = filename_format sm' ->
     get_file_path rt sm e1 e2 = get_file_path rt sm' e1 e2)
  /\ (forall (sm : StorageManager) (a b c d : str),
     filename_format sm = codepoint ->
     a <> [] -> b <> [] -> c <> [] -> d <> [] ->
     (a, b) <> (c, d) ->
     exists p q,
       get_file_path rt sm a b = Return p /\ get_file_path rt sm c d = Return q
       /\ p <> q).
Proof.
  split.
  - intros sm sm' e1 e2 Hb Hf. unfold get_file_path. now rewrite Hb, Hf.
  - intros sm a b c d Hf Ha Hb Hc Hd Hne. unfold get_file_path. rewrite Hf.
    rewrite !PathsFacts.generate_full_path_valid by assumption.
    do 2 eexists. split; [reflexivity|]. split; [reflexivity|].
    now apply PathsFacts.codepoint_paths_distinct.
Qed.

(** What [delete] does, case by case: it returns true exactly when a file
    was there; after a [delete] that returned no file is there; with
    nothing at the path it returns false and leaves the tree alone; and
    with a directory at the path it raises, leaving the tree alone. *)
Theorem delete_contract (sm : StorageManager) (e1 e2 : str) (fs : filesystem) :
  ((exists fs', Storage.delete rt sm e1 e2 fs = (Return true, fs'))
   <-> file_exists rt sm e1 e2 fs = (Return true, fs))
  /\ (forall (r : bool) (fs' : filesystem),
        Storage.delete rt sm e1 e2 fs = (Return r, fs') ->
        file_exists rt sm e1 e2 fs' = (Return false, fs'))
  /\ (forall p : path,
        get_file_path rt sm e1 e2 = Return p -> stat fs p = None ->
        Storage.delete rt sm e1 e2 fs = (Return false, fs))
  /\ (forall p : path,
        get_file_path rt sm e1 e2 = Return p -> stat fs p = Some Dir ->
        Storage.delete rt sm e1 e2 fs = (Raise (OSError EISDIR p), fs)).
Proof.
  destruct (get_file_path rt sm e1 e2) as [p|e] eqn:Hp.
  2:{ rewrite (delete_invalid _ _ _ _ _ _ Hp), (file_exists_raises _ _ _ _ _ _ Hp).
      repeat split; try discriminate. intros [? [=]]. }
  pose proof (get_file_path_nonempty _ _ _ _ _ Hp) as Hne.
  rewrite (file_exists_returns _ _ _ _ _ _ Hp). unfold is_file.
  destruct (stat fs p) as [[content|]|] eqn:Hs.
  - rewrite (delete_file _ _ _ _ _ _ _ Hp Hs).
    split; [split; eauto | split; [| split]].
    + intros r fs' [= <- <-].
      rewrite (file_exists_returns _ _ _ _ _ _ Hp). unfold is_file.
      destruct p; [congruence|]. simpl. now rewrite lookup_delete_eq.
    + intros q [= <-]. congruence.
    + intros q [= <-]. congruence.
  - rewrite (delete_directory _ _ _ _ _ _ Hp Hs).
    split; [split; [intros [? [=]] | intros [=]] | split; [| split]].
    + intros r fs' [=].
    + intros q [= <-]. congruence.
    + now intros q [= <-].
  - rewrite (delete_absent _ _ _ _ _ _ Hp Hs).
    split; [split; [intros [? [=]] | intros [=]] | split; [| split]].
    + intros r fs' [= <- <-].
      rewrite (file_exists_returns _ _ _ _ _ _ Hp). unfold is_file. now rewrite Hs.
    + reflexivity.
    + intros q [= <-]. congruence.
Qed.

End Contracts.

(** ** The example trees *)

Lemma grin_cool_resolves :
  get_file_path posix by_codepoint grinning sunglasses = Return grin_cool_png.
Proof. reflexivity. Qed.

Lemma tree_with_file_stat : stat tree_with_file grin_cool_png = Some (File [x00]).
Proof. unfold tree_with_file, grin_cool_png. simpl. apply lookup_insert_eq. Qed.

Lemma tree_with_dir_stat : stat tree_with_dir grin_cool_png = Some Dir.
Proof. unfold tree_with_dir, grin_cool_png. simpl. apply lookup_insert_eq. Qed.

Lemma empty_tree_stat : stat empty_tree grin_cool_png = None.
Proof.
  unfold empty_tree, grin_cool_png, downloads. simpl.
  now apply lookup_singleton_ne.
Qed.

Lemma tree_with_file_parent :
  stat tree_with_file (parent grin_cool_png) = Some Dir.
Proof.
  unfold tree_with_file, grin_cool_png. simpl.
  rewrite lookup_insert_ne by discriminate. apply lookup_insert_eq.
Qed.

Lemma tree_with_dir_parent :
  stat tree_with_dir (parent grin_cool_png) = Some Dir.
Proof.
  unfold tree_with_dir, grin_cool_png. simpl.
  rewrite lookup_insert_ne by discriminate. apply lookup_insert_eq.
Qed.

Lemma tree_with_file_mkdir :
  mkdir_parents_exist_ok (parent grin_cool_png) tree_with_file
  = (Return tt, tree_with_file).
Proof.
  unfold mkdir_parents_exist_ok, grin_cool_png. simpl parent.
  rewrite makedirs_present.
  - rewrite makedirs_present; [reflexivity|]. apply tree_with_file_parent.
  - unfold tree_with_file, empty_tree, downloads. simpl.
    rewrite !lookup_insert_ne by discriminate. apply lookup_singleton_eq.
Qed.

Lemma tree_with_dir_mkdir :
  mkdir_parents_exist_ok (parent grin_cool_png) tree_with_dir
  = (Return tt, tree_with_dir).
Proof.
  unfold mkdir_parents_exist_ok, grin_cool_png. simpl parent.
  rewrite makedirs_present.
  - rewrite makedirs_present; [reflexivity|]. apply tree_with_dir_parent.
  - unfold tree_with_dir, empty_tree, downloads. simpl.
    rewrite !lookup_insert_ne by discriminate. apply lookup_singleton_eq.
Qed.

(** Overwriting the picture that is there. *)
Lemma save_over_file :
  save posix by_codepoint grinning sunglasses png_bytes tree_with_file
  = (Return grin_cool_png, <[grin_cool_png := File png_bytes]> tree_with_file).
Proof.
  apply save_into_directory.
  - reflexivity.
  - apply tree_with_file_mkdir.
  - apply tree_with_file_parent.
  - rewrite tree_with_file_stat. discriminate.
Qed.

(** The directory in the picture's place makes [save] raise. *)
Lemma save_over_dir :
  save posix by_codepoint grinning sunglasses png_bytes tree_with_dir
  = (Raise (OSError EISDIR grin_cool_png), tree_with_dir).
Proof.
  apply save_onto_directory.
  - reflexivity.
  - apply tree_with_dir_mkdir.
  - apply tree_with_dir_parent.
  - apply tree_with_dir_stat.
Qed.

Lemma save_then_exists_and_size_witness :
  save posix by_codepoint grinning sunglasses png_bytes tree_with_file
  = (Return grin_cool_png, <[grin_cool_png := File png_bytes]> tree_with_file)
  /\ file_exists posix by_codepoint grinning sunglasses
       (<[grin_cool_png := File png_bytes]> tree_with_file)
     = (Return true, <[grin_cool_png := File png_bytes]> tree_with_file)
  /\ get_file_size posix by_codepoint grinning sunglasses
       (<[grin_cool_png := File png_bytes]> tree_with_file)
     = (Return (Some 4), <[grin_cool_png := File png_bytes]> tree_with_file).
Proof.
  split; [exact save_over_file|].
  exact (save_then_exists_and_size posix by_codepoint grinning sunglasses
           png_bytes tree_with_file _ grin_cool_png save_over_file).
Defined.

Lemma get_file_path_deterministic_injective_witness :
  exists p q,
    get_file_path posix by_codepoint grinning sunglasses = Return p
    /\ get_file_path posix by_codepoint sunglasses grinning = Return q
    /\ p <> q.
Proof.
  apply (proj2 (get_file_path_deterministic_injective posix) by_codepoint
           grinning sunglasses sunglasses grinning);
    [reflexivity | discriminate ..].
Defined.

(** C10 at a tree where a directory sits at the pair's path: no file is
    there, [file_exists] says so, and [delete], which tests [exists()]
    alone, goes on to [unlink()] and raises where false was due. *)
Theorem delete_on_directory_raises :
  file_exists posix by_codepoint grinning sunglasses tree_with_dir
  = (Return false, tree_with_dir)
  /\ Storage.delete posix by_codepoint grinning sunglasses tree_with_dir
     = (Raise (OSError EISDIR grin_cool_png), tree_with_dir).
Proof.
  split.
  - rewrite (file_exists_returns _ _ _ _ _ _ grin_cool_resolves).
    unfold is_file. now rewrite tree_with_dir_stat.
  - exact (delete_directory _ _ _ _ _ _ grin_cool_resolves tree_with_dir_stat).
Qed.

Lemma delete_contract_witness :
  stat empty_tree grin_cool_png = None
  /\ Storage.delete posix by_codepoint grinning sunglasses empty_tree
     = (Return false, empty_tree).
Proof.
  split; [exact empty_tree_stat|].
  exact (proj1 (proj2 (proj2 (delete_contract posix by_codepoint grinning
                                sunglasses empty_tree)))
           grin_cool_png grin_cool_resolves empty_tree_stat).
Defined.

End StorageFacts.

(* ===================================================================== *)
(** * Facts about the result logger *)
(* ===================================================================== *)

Module LoggerFacts.
Import Logger Examples.

Ltac run :=
  unfold bind, ret, pure, get, modify, raise, try_except, zoom in *; simpl in *.

Lemma emit_fields (level : Z) (msg : str) (lg : JSONLogger) :
  successes (emit level msg lg) = successes lg
  /\ failures (emit level msg lg) = failures lg
  /\ log_level (emit level msg lg) = log_level lg
  /\ success_file (emit level msg lg) = success_file lg
  /\ failure_file (emit level msg lg) = failure_file lg.
Proof. unfold emit. destruct (enabled level lg); repeat split. Qed.

Lemma emit_enabled (level : Z) (msg : str) (lg : JSONLogger) :
  DEBUG <= level ->
  effective_level lg <= level ->
  debug_file (emit level msg lg) = debug_file lg ++ [(level, msg)].
Proof.
  intros Hd H. unfold emit, enabled, DEBUG in *.
  destruct (Z.ltb_spec 0 level); [|lia].
  destruct (Z.leb_spec (effective_level lg) level); [|lia].
  destruct (Z.leb_spec 10 level); [reflexivity | lia].
Qed.

Lemma emit_effective_level (level : Z) (msg : str) (lg : JSONLogger) :
  effective_level (emit level msg lg) = effective_level lg.
Proof. unfold effective_level. now rewrite (proj1 (proj2 (proj2 (emit_fields level msg lg)))). Qed.

Section Methods.
Variable rt : Runtime.

(** Appending to a log file never raises, and leaves the lists in memory
    and the level as they are. *)
Lemma append_to_json_file_fields (which : which_file) (r : DownloadResult)
    (lg : JSONLogger) :
  exists lg',
    _append_to_json_file rt which r lg = (Return tt, lg')
    /\ successes lg' = successes lg /\ failures lg' = failures lg
    /\ log_level lg' = log_level lg.
Proof.
  unfold _append_to_json_file. run.
  destruct which; simpl.
  - destruct (success_file lg); eexists; (split; [reflexivity|]);
      [now repeat split | unfold error; run].
    match goal with
    | |- context [emit ?l ?m ?g] => destruct (emit_fields l m g) as (? & ? & ? & _)
    end. auto.
  - destruct (failure_file lg); eexists; (split; [reflexivity|]);
      [now repeat split | unfold error; run].
    match goal with
    | |- context [emit ?l ?m ?g] => destruct (emit_fields l m g) as (? & ? & ? & _)
    end. auto.
Qed.

(** What [log_success] leaves behind. *)
Lemma log_success_fields (now e1 e2 fp : str) (dur : option float)
    (u : option str) (sc : option Z) (lg : JSONLogger) :
  exists lg',
    log_success rt now e1 e2 fp dur u sc lg = (Return tt, lg')
    /\ (exists r, successes lg' = successes lg ++ [r]
                  /\ Logger.emoji1 r = e1 /\ Logger.emoji2 r = e2
                  /\ success r = true)
    /\ failures lg' = failures lg
    /\ log_level lg' = log_level lg
    /\ (effective_level lg <= INFO ->
        last (debug_file lg') = Some (INFO, success_line rt e1 e2 fp dur)).
Proof.
  unfold log_success. run.
  match goal with
  | |- context [_append_to_json_file rt ?w ?r ?l] =>
      destruct (append_to_json_file_fields w r l) as (lg1 & -> & Hs & Hf & Hl)
  end.
  simpl in Hs, Hf, Hl. unfold info. run.
  eexists. split; [reflexivity|].
  destruct (emit_fields INFO (success_line rt e1 e2 fp dur) lg1)
    as (Es & Ef & El & _).
  rewrite Es, Ef, El, Hs, Hf, Hl.
  split; [eexists; split; [reflexivity | now repeat split]|].
  repeat split. intros Hlvl.
  rewrite emit_enabled; [apply last_snoc | unfold DEBUG, INFO, WARNING; lia |].
  unfold effective_level in *. now rewrite Hl.
Qed.

(** What [log_failure] leaves behind. *)
Lemma log_failure_fields (now e1 e2 kind msg : str) (sc : option Z)
    (dur : option float) (u : option str) (lg : JSONLogger) :
  exists lg',
    log_failure rt now e1 e2 kind msg sc dur u lg = (Return tt, lg')
    /\ (exists r, failures lg' = failures lg ++ [r]
                  /\ Logger.emoji1 r = e1 /\ Logger.emoji2 r = e2
                  /\ success r = false
                  /\ error_type r = Some kind /\ status_code r = sc)
    /\ successes lg' = successes lg
    /\ log_level lg' = log_level lg
    /\ (effective_level lg <= WARNING ->
        last (debug_file lg') = Some (WARNING, failure_line e1 e2 kind msg sc)).
Proof.
  unfold log_failure. run.
  match goal with
  | |- context [_append_to_json_file rt ?w ?r ?l] =>
      destruct (append_to_json_file_fields w r l) as (lg1 & -> & Hs & Hf & Hl)
  end.
  simpl in Hs, Hf, Hl. unfold warning. run.
  eexists. split; [reflexivity|].
  destruct (emit_fields WARNING (failure_line e1 e2 kind msg sc) lg1)
    as (Es & Ef & El & _).
  rewrite Es, Ef, El, Hs, Hf, Hl.
  split; [eexists; split; [reflexivity | now repeat split]|].
  repeat split. intros Hlvl.
  rewrite emit_enabled; [apply last_snoc | unfold DEBUG, INFO, WARNING; lia |].
  unfold effective_level in *. now rewrite Hl.
Qed.

(** C9, as the code has it: for a logger that lets INFO records through
    (its effective level is INFO or below, as with the DEBUG and INFO the
    orchestrator sets), [log_success] blanks its line exactly when
    [duration_ms] is falsy; [log_failure] blanks its line exactly when
    [status_code] is falsy, whatever [duration_ms] is. *)
Theorem log_lines_blanked (now e1 e2 fp kind msg : str) (dur : option float)
    (u : option str) (sc : option Z) (lg : JSONLogger) :
  effective_level lg <= INFO ->
  last (debug_file (log_success rt now e1 e2 fp dur u sc lg).2)
    = Some (INFO,
            if truthy_opt truthy_float dur then
              lit "SUCCESS: " ++ e1 ++ lit " + " ++ e2 ++ [32%N; 8217%N; 32%N]
                ++ fp ++ lit " (" ++ format_0f rt (default 0%float dur) ++ lit "ms)"
            else [])
  /\ last (debug_file (log_failure rt now e1 e2 kind msg sc dur u lg).2)
    = Some (WARNING,
            if truthy_opt truthy_int sc then
              lit "FAILURE: " ++ e1 ++ lit " + " ++ e2 ++ lit " - " ++ kind
                ++ lit ": " ++ msg ++ lit " [HTTP " ++ to_dec (default 0 sc) ++ lit "]"
            else []).
Proof.
  intros Hlvl. split.
  - destruct (log_success_fields now e1 e2 fp dur u sc lg)
      as (lg' & -> & _ & _ & _ & Hline).
    cbn [snd]. rewrite Hline by assumption. do 2 f_equal.
    unfold success_line. destruct dur as [d|]; cbn [truthy_opt default]; [|reflexivity].
    destruct (truthy_float d); reflexivity.
  - destruct (log_failure_fields now e1 e2 kind msg sc dur u lg)
      as (lg' & -> & _ & _ & _ & Hline).
    cbn [snd]. rewrite Hline by (unfold INFO, WARNING in *; lia). do 2 f_equal.
    unfold failure_line. destruct sc as [c|]; cbn [truthy_opt default]; [|reflexivity].
    destruct (truthy_int c); reflexivity.
Qed.

End Methods.

(** One more failure adds one to the count of its kind in the breakdown
    of the summary, and to no other. *)
Lemma error_breakdown_snoc (lg : JSONLogger) (r : DownloadResult) :
  let kind := str_or (error_type r) (lit "Unknown") in
  error_breakdown (set_failures (failures lg ++ [r]) lg)
  = <[kind := default 0 (error_breakdown lg !! kind) + 1]> (error_breakdown lg).
Proof. unfold error_breakdown. cbn [failures set_failures]. now rewrite fold_left_app. Qed.

Lemma quiet_logger_level : effective_level quiet_logger = 20.
Proof. reflexivity. Qed.

Lemma log_lines_blanked_witness :
  effective_level quiet_logger <= INFO
  /\ last (debug_file (log_success posix new_year grinning sunglasses
                         (lit "out.png") (Some 0%float) None (Some 200)
                         quiet_logger).2)
     = Some (INFO, []).
Proof.
  split; [unfold INFO; rewrite quiet_logger_level; lia|].
  refine (proj1 (log_lines_blanked posix new_year grinning sunglasses
                   (lit "out.png") [] [] (Some 0%float) None (Some 200)
                   quiet_logger _)).
  unfold INFO. rewrite quiet_logger_level. lia.
Defined.

(** C9 as stated fails for [log_failure]: with no duration and status 404
    the failure line is written in full, and with a duration but no status
    it is blank. *)
Lemma log_failure_blanking_counterexample :
  truthy_opt truthy_float None = false
  /\ last (debug_file (log_failure posix new_year grinning sunglasses
                         (lit "NotFound") (lit "Not found") (Some 404) None None
                         quiet_logger).2)
     <> Some (WARNING, [])
  /\ truthy_opt truthy_float (Some 1500%float) = true
  /\ last (debug_file (log_failure posix new_year grinning sunglasses
                         (lit "NetworkError") (lit "timed out") None
                         (Some 1500%float) None quiet_logger).2)
     = Some (WARNING, []).
Proof. repeat split; try reflexivity. discriminate. Qed.

End LoggerFacts.

(* ===================================================================== *)
(** * Facts about the orchestrator *)
(* ===================================================================== *)

Module OrchestratorFacts.
Import Paths Storage Client Orchestrator Examples.

Ltac run :=
  unfold on_storage, on_logger, on_stats, await_download_image in *;
  unfold bind, ret, pure, get, modify, raise, try_except, zoom in *;
  cbv beta iota zeta in *.

Lemma set_fs_same (st : State) : set_fs (fs st) st = st.
Proof. now destruct st. Qed.

Section Methods.
Variable rt : Runtime.
Variable new_client : Z -> Z -> EmojiKitchenClient.

Lemma precheck_outcome (e1 e2 : str) (st : State) :
  precheck rt e1 e2 st
  = (if skip_existing (self st)
     then (file_exists rt (storage (self st)) e1 e2 (fs st)).1
     else Return false, st).
Proof.
  unfold precheck. run.
  destruct (skip_existing (self st)); [|reflexivity].
  pose proof (StorageFacts.file_exists_keeps_tree rt (storage (self st)) e1 e2 (fs st)) as K.
  destruct (file_exists rt (storage (self st)) e1 e2 (fs st)) as [r t].
  cbn [fst snd] in *. subst t. now rewrite set_fs_same.
Qed.


Lemma precheck_fetches (e1 e2 : str) (st : State) :
  fetches rt st e1 e2 -> precheck rt e1 e2 st = (Return false, st).
Proof.
  intros H. rewrite precheck_outcome.
  destruct H as [-> | H]; [reflexivity|].
  rewrite H. now destruct (skip_existing (self st)).
Qed.

Lemma precheck_skips (e1 e2 : str) (st : State) :
  skip_existing (self st) = true ->
  (file_exists rt (storage (self st)) e1 e2 (fs st)).1 = Return true ->
  precheck rt e1 e2 st = (Return true, st).
Proof. intros Hs He. rewrite precheck_outcome. now rewrite Hs, He. Qed.

Lemma precheck_raises (e1 e2 : str) (st : State) (e : exn) :
  skip_existing (self st) = true ->
  (file_exists rt (storage (self st)) e1 e2 (fs st)).1 = Raise e ->
  precheck rt e1 e2 st = (Raise e, st).
Proof. intros Hs He. rewrite precheck_outcome. now rewrite Hs, He. Qed.

(** ** The five ways through [download_pair] *)

Lemma download_pair_skips (clock : Clock) (e1 e2 : str) (size : Z) (st : State) :
  skip_existing (self st) = true ->
  (file_exists rt (storage (self st)) e1 e2 (fs st)).1 = Return true ->
  exists st',
    download_pair rt new_client clock e1 e2 size st = (Return (true, None), st')
    /\ requests st' = requests st
    /\ fs st' = fs st
    /\ stats (self st') = incr_skipped (stats (self st))
    /\ logger (self st')
       = Logger.emit Logger.INFO
           (lit "Skipped " ++ e1 ++ lit " + " ++ e2 ++ lit " (already exists)")
           (logger (self st)).
Proof.
  intros Hskip Hex.
  pose proof (precheck_skips e1 e2 st Hskip Hex) as P.
  unfold precheck in P. unfold download_pair, Logger.info. run.
  rewrite P. eexists. split; [reflexivity|]. now repeat split.
Qed.

Lemma download_pair_precheck_raises (clock : Clock) (e1 e2 : str) (size : Z)
    (st : State) (e : exn) :
  skip_existing (self st) = true ->
  (file_exists rt (storage (self st)) e1 e2 (fs st)).1 = Raise e ->
  download_pair rt new_client clock e1 e2 size st = (Raise e, st).
Proof.
  intros Hskip Hex.
  pose proof (precheck_raises e1 e2 st e Hskip Hex) as P.
  unfold precheck in P. unfold download_pair. run. now rewrite P.
Qed.

Lemma download_pair_url_raises (clock : Clock) (e1 e2 : str) (size : Z)
    (st : State) (e : exn) :
  fetches rt st e1 e2 ->
  build_url (new_client (delay_ms (self st)) (max_concurrent (self st)))
    e1 e2 size = Raise e ->
  download_pair rt new_client clock e1 e2 size st = (Raise e, st).
Proof.
  intros Hpre Hurl.
  pose proof (precheck_fetches e1 e2 st Hpre) as P.
  unfold precheck in P. unfold download_pair. run. now rewrite P, Hurl.
Qed.

Lemma download_pair_fetch_raises (clock : Clock) (e1 e2 : str) (size : Z)
    (st : State) (url : str) (e : exn) :
  fetches rt st e1 e2 ->
  build_url (new_client (delay_ms (self st)) (max_concurrent (self st)))
    e1 e2 size = Return url ->
  download_image (new_client (delay_ms (self st)) (max_concurrent (self st)))
    e1 e2 size = Raise e ->
  download_pair rt new_client clock e1 e2 size st
  = (Raise e, set_requests (requests st ++ [(e1, e2, size)]) st).
Proof.
  intros Hpre Hurl Hresp.
  pose proof (precheck_fetches e1 e2 st Hpre) as P.
  unfold precheck in P. unfold download_pair. run. now rewrite P, Hurl, Hresp.
Qed.

Lemma download_pair_fetch_failed (clock : Clock) (e1 e2 : str) (size : Z)
    (st : State) (url : str) (success : bool) (content : option bytes)
    (error : option str) (status : option Z) :
  fetches rt st e1 e2 ->
  build_url (new_client (delay_ms (self st)) (max_concurrent (self st)))
    e1 e2 size = Return url ->
  download_image (new_client (delay_ms (self st)) (max_concurrent (self st)))
    e1 e2 size = Return (success, content, error, status) ->
  success && truthy_opt truthy_seq content = false ->
  exists st',
    download_pair rt new_client clock e1 e2 size st = (Return (false, error), st')
    /\ requests st' = requests st ++ [(e1, e2, size)]
    /\ fs st' = fs st
    /\ stats (self st') = incr_failures (stats (self st))
    /\ (exists r,
          Logger.failures (logger (self st'))
            = Logger.failures (logger (self st)) ++ [r]
          /\ Logger.emoji1 r = e1 /\ Logger.emoji2 r = e2
          /\ Logger.success r = false
          /\ Logger.error_type r = Some (error_kind status)
          /\ Logger.status_code r = status)
    /\ Logger.successes (logger (self st')) = Logger.successes (logger (self st)).
Proof.
  intros Hpre Hurl Hresp Hfail.
  pose proof (precheck_fetches e1 e2 st Hpre) as P.
  unfold precheck in P. unfold download_pair. run.
  rewrite P, Hurl, Hresp. cbv beta iota. rewrite Hfail.
  match goal with
  | |- context [Logger.log_failure rt ?n ?a ?b ?k ?m ?c ?d ?u ?l] =>
      destruct (LoggerFacts.log_failure_fields rt n a b k m c d u l)
        as (lg' & -> & Hrec & Hsucc & _)
  end.
  eexists. split; [reflexivity|]. now repeat split.
Qed.

Lemma download_pair_saved (clock : Clock) (e1 e2 : str) (size : Z)
    (st : State) (url : str) (success : bool) (content : option bytes)
    (error : option str) (status : option Z) (p : path) (fs1 : filesystem) :
  fetches rt st e1 e2 ->
  build_url (new_client (delay_ms (self st)) (max_concurrent (self st)))
    e1 e2 size = Return url ->
  download_image (new_client (delay_ms (self st)) (max_concurrent (self st)))
    e1 e2 size = Return (success, content, error, status) ->
  success && truthy_opt truthy_seq content = true ->
  save rt (storage (self st)) e1 e2 (default [] content) (fs st) = (Return p, fs1) ->
  exists st',
    download_pair rt new_client clock e1 e2 size st = (Return (true, None), st')
    /\ requests st' = requests st ++ [(e1, e2, size)]
    /\ fs st' = fs1
    /\ stats (self st') = incr_successes (stats (self st))
    /\ (exists r,
          Logger.successes (logger (self st'))
            = Logger.successes (logger (self st)) ++ [r]
          /\ Logger.emoji1 r = e1 /\ Logger.emoji2 r = e2
          /\ Logger.success r = true)
    /\ Logger.failures (logger (self st')) = Logger.failures (logger (self st)).
Proof.
  intros Hpre Hurl Hresp Hok Hsave.
  pose proof (precheck_fetches e1 e2 st Hpre) as P.
  unfold precheck in P. unfold download_pair. run.
  rewrite P, Hurl, Hresp. cbv beta iota. rewrite Hok.
  cbn [fs set_requests self]. rewrite Hsave.
  match goal with
  | |- context [Logger.log_success rt ?n ?a ?b ?f ?d ?u ?c ?l] =>
      destruct (LoggerFacts.log_success_fields rt n a b f d u c l)
        as (lg' & -> & Hrec & Hfail & _)
  end.
  eexists. split; [reflexivity|]. now repeat split.
Qed.

Lemma download_pair_save_raised (clock : Clock) (e1 e2 : str) (size : Z)
    (st : State) (url : str) (success : bool) (content : option bytes)
    (error : option str) (status : option Z) (e : exn) (fs1 : filesystem) :
  fetches rt st e1 e2 ->
  build_url (new_client (delay_ms (self st)) (max_concurrent (self st)))
    e1 e2 size = Return url ->
  download_image (new_client (delay_ms (self st)) (max_concurrent (self st)))
    e1 e2 size = Return (success, content, error, status) ->
  success && truthy_opt truthy_seq content = true ->
  save rt (storage (self st)) e1 e2 (default [] content) (fs st) = (Raise e, fs1) ->
  exists st',
    download_pair rt new_client clock e1 e2 size st
    = (Return (false, Some (lit "Failed to save file: " ++ exn_str rt e)), st')
    /\ requests st' = requests st ++ [(e1, e2, size)]
    /\ fs st' = fs1
    /\ stats (self st') = incr_failures (stats (self st))
    /\ (exists r,
          Logger.failures (logger (self st'))
            = Logger.failures (logger (self st)) ++ [r]
          /\ Logger.emoji1 r = e1 /\ Logger.emoji2 r = e2
          /\ Logger.success r = false
          /\ Logger.error_type r = Some (lit "IOError")
          /\ Logger.status_code r = None)
    /\ Logger.successes (logger (self st')) = Logger.successes (logger (self st)).
Proof.
  intros Hpre Hurl Hresp Hok Hsave.
  pose proof (precheck_fetches e1 e2 st Hpre) as P.
  unfold precheck in P. unfold download_pair. run.
  rewrite P, Hurl, Hresp. cbv beta iota. rewrite Hok.
  cbn [fs set_requests self]. rewrite Hsave.
  match goal with
  | |- context [Logger.log_failure rt ?n ?a ?b ?k ?m ?c ?d ?u ?l] =>
      destruct (LoggerFacts.log_failure_fields rt n a b k m c d u l)
        as (lg' & -> & Hrec & Hsucc & _)
  end.
  eexists. split; [reflexivity|]. now repeat split.
Qed.

(** Which way the existence check sends the call. *)
Lemma check_cases (e1 e2 : str) (st : State) :
  (skip_existing (self st) = true
   /\ (file_exists rt (storage (self st)) e1 e2 (fs st)).1 = Return true)
  \/ (exists e, skip_existing (self st) = true
                /\ (file_exists rt (storage (self st)) e1 e2 (fs st)).1 = Raise e)
  \/ fetches rt st e1 e2.
Proof.
  unfold fetches. destruct (skip_existing (self st)); [|auto].
  destruct ((file_exists rt (storage (self st)) e1 e2 (fs st)).1) as [[|]|e]; eauto.
Qed.

(** C3: with [skip_existing] on and the file reported on disk,
    [download_pair] sends no request, adds one to [skipped] and to nothing
    else, leaves the tree alone and returns success. *)
Theorem skip_existing_makes_no_request (clock : Clock) (e1 e2 : str) (size : Z)
    (st : State) :
  skip_existing (self st) = true ->
  (file_exists rt (storage (self st)) e1 e2 (fs st)).1 = Return true ->
  exists st',
    download_pair rt new_client clock e1 e2 size st = (Return (true, None), st')
    /\ requests st' = requests st
    /\ skipped (stats (self st')) = skipped (stats (self st)) + 1
    /\ successes (stats (self st')) = successes (stats (self st))
    /\ failures (stats (self st')) = failures (stats (self st))
    /\ fs st' = fs st.
Proof.
  intros Hskip Hex.
  destruct (download_pair_skips clock e1 e2 size st Hskip Hex)
    as (st' & E & Hreq & Hfs & Hstats & _).
  exists st'. rewrite Hstats. now repeat split.
Qed.


(** C7: when the fetch succeeds and [save] raises, [download_pair] returns
    false with the save error, adds one to [failures] and to nothing else,
    and appends one failure record of kind IOError, with no HTTP status. *)
Theorem save_failure_is_io_error (clock : Clock) (e1 e2 : str) (size : Z)
    (st : State) (url : str) (content : bytes) (error : option str)
    (status : option Z) (e : exn) (fs1 : filesystem) :
  fetches rt st e1 e2 ->
  build_url (new_client (delay_ms (self st)) (max_concurrent (self st)))
    e1 e2 size = Return url ->
  download_image (new_client (delay_ms (self st)) (max_concurrent (self st)))
    e1 e2 size = Return (true, Some content, error, status) ->
  content <> [] ->
  save rt (storage (self st)) e1 e2 content (fs st) = (Raise e, fs1) ->
  exists st',
    download_pair rt new_client clock e1 e2 size st
    = (Return (false, Some (lit "Failed to save file: " ++ exn_str rt e)), st')
    /\ failures (stats (self st')) = failures (stats (self st)) + 1
    /\ successes (stats (self st')) = successes (stats (self st))
    /\ skipped (stats (self st')) = skipped (stats (self st))
    /\ (exists r,
          Logger.failures (logger (self st'))
            = Logger.failures (logger (self st)) ++ [r]
          /\ Logger.success r = false
          /\ Logger.error_type r = Some (lit "IOError")
          /\ Logger.status_code r = None)
    /\ Logger.successes (logger (self st')) = Logger.successes (logger (self st)).
Proof.
  intros Hpre Hurl Hresp Hne Hsave.
  assert (Hok : true && truthy_opt truthy_seq (Some content) = true).
  { destruct content; [congruence | reflexivity]. }
  destruct (download_pair_save_raised clock e1 e2 size st url true (Some content)
              error status e fs1 Hpre Hurl Hresp Hok Hsave)
    as (st' & E & _ & _ & Hstats & (r & Hr & _ & _ & H3 & H4 & H5) & Hsucc).
  exists st'. rewrite Hstats. repeat split; eauto.
Qed.

(** C6, as the code has it: [download_pair] lets an exception through
    exactly when the existence check, the building of the URL or the fetch
    call itself raises, and then no counter and no record has changed;
    what [save] raises, and what the client reports as a failed outcome,
    ends in a returned result. *)
Theorem download_pair_raises_iff (clock : Clock) (e1 e2 : str) (size : Z)
    (st : State) (e : exn) :
  ((exists st', download_pair rt new_client clock e1 e2 size st = (Raise e, st'))
   <-> (skip_existing (self st) = true
        /\ (file_exists rt (storage (self st)) e1 e2 (fs st)).1 = Raise e)
       \/ (fetches rt st e1 e2
           /\ build_url (new_client (delay_ms (self st)) (max_concurrent (self st)))
                e1 e2 size = Raise e)
       \/ (fetches rt st e1 e2
           /\ returns (build_url (new_client (delay_ms (self st))
                                    (max_concurrent (self st))) e1 e2 size)
           /\ download_image (new_client (delay_ms (self st))
                                (max_concurrent (self st))) e1 e2 size = Raise e))
  /\ (forall st',
        download_pair rt new_client clock e1 e2 size st = (Raise e, st') ->
        stats (self st') = stats (self st) /\ logger (self st') = logger (self st)).
Proof.
  assert (Hfwd : forall st',
    download_pair rt new_client clock e1 e2 size st = (Raise e, st') ->
    ((skip_existing (self st) = true
      /\ (file_exists rt (storage (self st)) e1 e2 (fs st)).1 = Raise e)
     \/ (fetches rt st e1 e2
         /\ build_url (new_client (delay_ms (self st)) (max_concurrent (self st)))
              e1 e2 size = Raise e)
     \/ (fetches rt st e1 e2
         /\ returns (build_url (new_client (delay_ms (self st))
                                  (max_concurrent (self st))) e1 e2 size)
         /\ download_image (new_client (delay_ms (self st))
                              (max_concurrent (self st))) e1 e2 size = Raise e))
    /\ stats (self st') = stats (self st) /\ logger (self st') = logger (self st)).
  { intros st' H.
    destruct (check_cases e1 e2 st) as [[Hs He] | [(e0 & Hs & He) | Hpre]].
    - destruct (download_pair_skips clock e1 e2 size st Hs He) as (st1 & E & _).
      rewrite E in H. discriminate.
    - rewrite (download_pair_precheck_raises clock e1 e2 size st e0 Hs He) in H.
      injection H as <- <-. auto.
    - destruct (build_url (new_client (delay_ms (self st)) (max_concurrent (self st)))
                  e1 e2 size) as [url|e0] eqn:Hurl.
      2:{ rewrite (download_pair_url_raises clock e1 e2 size st e0 Hpre Hurl) in H.
          injection H as <- <-. auto. }
      destruct (download_image (new_client (delay_ms (self st))
                                  (max_concurrent (self st))) e1 e2 size)
        as [[[[success content] error] status]|e0] eqn:Hresp.
      2:{ rewrite (download_pair_fetch_raises clock e1 e2 size st url e0
                     Hpre Hurl Hresp) in H.
          injection H as <- <-. split; [|now split].
          right. right. split; [assumption|]. split; [now exists url | reflexivity]. }
      destruct (success && truthy_opt truthy_seq content) eqn:Hok.
      + destruct (save rt (storage (self st)) e1 e2 (default [] content) (fs st))
          as [[p|e0] fs1] eqn:Hsave.
        * destruct (download_pair_saved clock e1 e2 size st url success content
                      error status p fs1 Hpre Hurl Hresp Hok Hsave) as (st1 & E & _).
          rewrite E in H. discriminate.
        * destruct (download_pair_save_raised clock e1 e2 size st url success
                      content error status e0 fs1 Hpre Hurl Hresp Hok Hsave)
            as (st1 & E & _).
          rewrite E in H. discriminate.
      + destruct (download_pair_fetch_failed clock e1 e2 size st url success
                    content error status Hpre Hurl Hresp Hok) as (st1 & E & _).
        rewrite E in H. discriminate. }
  split.
  - split.
    + intros [st' H]. now apply Hfwd in H.
    + intros [[Hs He] | [[Hpre Hurl] | (Hpre & [url Hurl] & Hresp)]].
      * eexists. now apply download_pair_precheck_raises.
      * eexists. now apply download_pair_url_raises.
      * eexists. eapply download_pair_fetch_raises; eauto.
  - intros st' H. now apply Hfwd in H.
Qed.

End Methods.

(** ** The example runs *)

Lemma fresh_tree_fetches : fetches posix (on_tree empty_tree) grinning sunglasses.
Proof.
  right. cbn [self fs on_tree storage orchestrator0].
  rewrite (StorageFacts.file_exists_returns _ _ _ _ _ _ StorageFacts.grin_cool_resolves).
  unfold is_file. now rewrite StorageFacts.empty_tree_stat.
Qed.

Lemma blocked_tree_fetches : fetches posix (on_tree tree_with_dir) grinning sunglasses.
Proof.
  right. cbn [self fs on_tree storage orchestrator0].
  rewrite (StorageFacts.file_exists_returns _ _ _ _ _ _ StorageFacts.grin_cool_resolves).
  unfold is_file. now rewrite StorageFacts.tree_with_dir_stat.
Qed.

Lemma full_tree_has_file :
  (file_exists posix (storage (self (on_tree tree_with_file))) grinning sunglasses
     (fs (on_tree tree_with_file))).1 = Return true.
Proof.
  cbn [self fs on_tree storage orchestrator0].
  rewrite (StorageFacts.file_exists_returns _ _ _ _ _ _ StorageFacts.grin_cool_resolves).
  unfold is_file. now rewrite StorageFacts.tree_with_file_stat.
Qed.

Lemma skip_existing_makes_no_request_witness :
  exists st',
    download_pair posix (fun _ _ => serve (Return ok_200)) clock0
      grinning sunglasses 512 (on_tree tree_with_file) = (Return (true, None), st')
    /\ requests st' = []
    /\ skipped (stats (self st')) = 0 + 1
    /\ successes (stats (self st')) = 0
    /\ failures (stats (self st')) = 0
    /\ fs st' = tree_with_file.
Proof.
  exact (skip_existing_makes_no_request posix (fun _ _ => serve (Return ok_200))
           clock0 grinning sunglasses 512 (on_tree tree_with_file)
           eq_refl full_tree_has_file).
Defined.



Lemma save_failure_is_io_error_witness :
  exists st',
    download_pair posix (fun _ _ => serve (Return ok_200)) clock0
      grinning sunglasses 512 (on_tree tree_with_dir)
    = (Return (false, Some (lit "Failed to save file: "
                            ++ lit "[Errno 21] Is a directory")), st')
    /\ failures (stats (self st')) = 0 + 1
    /\ successes (stats (self st')) = 0
    /\ skipped (stats (self st')) = 0
    /\ (exists r,
          Logger.failures (logger (self st')) = [] ++ [r]
          /\ Logger.success r = false
          /\ Logger.error_type r = Some (lit "IOError")
          /\ Logger.status_code r = None)
    /\ Logger.successes (logger (self st')) = [].
Proof.
  refine (save_failure_is_io_error posix (fun _ _ => serve (Return ok_200)) clock0
            grinning sunglasses 512 (on_tree tree_with_dir) _ png_bytes None
            (Some 200) (OSError EISDIR grin_cool_png) tree_with_dir
            blocked_tree_fetches eq_refl eq_refl _ StorageFacts.save_over_dir).
  discriminate.
Defined.

(** C6 as stated fails: an empty emoji makes the existence check raise,
    and a fetch that raises is not caught either; both exceptions leave
    [download_pair]. *)
Lemma exception_escapes_counterexample :
  download_pair posix (fun _ _ => serve (Return ok_200)) clock0
    [] sunglasses 512 (on_tree empty_tree)
  = (Raise (InvalidInput []), on_tree empty_tree)
  /\ (download_pair posix
        (fun _ _ => serve (Raise (ClientException (lit "connection reset"))))
        clock0 grinning sunglasses 512 (on_tree empty_tree)).1
     = Raise (ClientException (lit "connection reset")).
Proof.
  split.
  - apply download_pair_precheck_raises; [reflexivity|].
    cbn [self fs on_tree storage orchestrator0].
    now rewrite (StorageFacts.file_exists_raises posix by_codepoint [] sunglasses
                   empty_tree (InvalidInput []) eq_refl).
  - now rewrite (download_pair_fetch_raises posix
                   (fun _ _ => serve (Raise (ClientException (lit "connection reset"))))
                   clock0 grinning sunglasses 512 (on_tree empty_tree) _
                   (ClientException (lit "connection reset"))
                   fresh_tree_fetches eq_refl eq_refl).
Qed.

Lemma download_pair_raises_iff_witness :
  exists st',
    download_pair posix (fun _ _ => serve (Return ok_200)) clock0
      [] sunglasses 512 (on_tree empty_tree) = (Raise (InvalidInput []), st').
Proof.
  apply (proj2 (proj1 (download_pair_raises_iff posix
                         (fun _ _ => serve (Return ok_200)) clock0 [] sunglasses
                         512 (on_tree empty_tree) (InvalidInput [])))).
  left. split; [reflexivity|].
  cbn [self fs on_tree storage orchestrator0].
  now rewrite (StorageFacts.file_exists_raises posix by_codepoint [] sunglasses
                 empty_tree (InvalidInput []) eq_refl).
Defined.

(** C1 as stated fails: after a 404 the statistics of the orchestrator are
    those after a 503, the one failure counted in [failures]. *)
Lemma not_found_shares_counter_counterexample :
  exists st404 st503,
    download_pair posix (fun _ _ => serve (Return not_found_404)) clock0
      grinning sunglasses 512 (on_tree empty_tree)
    = (Return (false, Some (lit "HTTP 404")), st404)
    /\ download_pair posix (fun _ _ => serve (Return unavailable_503)) clock0
         grinning sunglasses 512 (on_tree empty_tree)
       = (Return (false, Some (lit "HTTP 503")), st503)
    /\ failures (stats (self st404)) = 1
    /\ stats (self st404) = stats (self st503).
Proof.
  destruct (download_pair_fetch_failed posix (fun _ _ => serve (Return not_found_404))
              clock0 grinning sunglasses 512 (on_tree empty_tree) _ false None
              (Some (lit "HTTP 404")) (Some 404) fresh_tree_fetches eq_refl eq_refl
              eq_refl) as (st404 & E404 & _ & _ & H404 & _).
  destruct (download_pair_fetch_failed posix (fun _ _ => serve (Return unavailable_503))
              clock0 grinning sunglasses 512 (on_tree empty_tree) _ false None
              (Some (lit "HTTP 503")) (Some 503) fresh_tree_fetches eq_refl eq_refl
              eq_refl) as (st503 & E503 & _ & _ & H503 & _).
  exists st404, st503. rewrite H404, H503. now repeat split.
Qed.

End OrchestratorFacts.

(* ===================================================================== *)
(** * Facts about the bulk script *)
(* ===================================================================== *)

Module BulkFacts.
Import Paths Storage Client Bulk Examples.

Ltac run :=
  unfold on_storage in *;
  unfold bind, ret, pure, get, modify, raise, try_except, zoom in *;
  cbv beta iota zeta in *.

Section Methods.
Variable rt : Runtime.

(** A 404 coming back to [process_single]. *)
Lemma process_single_resume_not_found (e1 e2 : str) (success : bool)
    (content : option bytes) (error : option str) (s : State) :
  success && truthy_opt truthy_seq content = false ->
  process_single_resume rt e1 e2 (Return (success, content, error, Some 404)) s
  = (Return tt, advance_progress (incr_not_found s)).
Proof.
  intros Hfail. unfold process_single_resume. run. rewrite Hfail.
  now rewrite bool_decide_eq_true_2.
Qed.

(** Neither half of [process_single] touches the configured ceiling. *)
Lemma process_single_begin_ceiling (e1 e2 : str) (s : State) :
  max_concurrent (self (process_single_begin rt e1 e2 s).2) = max_concurrent (self s).
Proof.
  unfold process_single_begin. run.
  destruct (file_exists rt (storage (self s)) e1 e2 (fs s)) as [[[|]|e] t];
    reflexivity.
Qed.

Lemma process_single_resume_ceiling (e1 e2 : str) (answer : result response)
    (s : State) :
  max_concurrent (self (process_single_resume rt e1 e2 answer s).2)
  = max_concurrent (self s).
Proof.
  unfold process_single_resume. run.
  destruct answer as [[[[success content] error] status]|e]; [|reflexivity].
  destruct (success && truthy_opt truthy_seq content).
  - destruct (save rt (storage (self s)) e1 e2 (default [] content) (fs s))
      as [[p|e] t]; reflexivity.
  - destruct (bool_decide (status = Some 404)); reflexivity.
Qed.

End Methods.

(** ** The permit pool *)

Lemma outstanding_cons (t : task) (l : list task) :
  Z.of_nat (length (filter (fun t => is_outstanding t = true) (t :: l)))
  = weight t + Z.of_nat (length (filter (fun t => is_outstanding t = true) l)).
Proof.
  rewrite filter_cons. unfold weight.
  destruct (decide (is_outstanding t = true)) as [E|E].
  - rewrite E. simpl length. lia.
  - apply not_true_is_false in E. rewrite E. lia.
Qed.

(** Replacing one coroutine changes the count by the difference of the
    two weights. *)
Lemma outstanding_insert (l : list task) (i : nat) (t t' : task) :
  l !! i = Some t ->
  Z.of_nat (length (filter (fun t => is_outstanding t = true) (<[i := t']> l)))
  = Z.of_nat (length (filter (fun t => is_outstanding t = true) l))
    - weight t + weight t'.
Proof.
  revert i. induction l as [|a l IH]; intros [|i] H; try discriminate.
  - injection H as ->. simpl insert. rewrite !outstanding_cons. lia.
  - simpl in H. simpl insert. rewrite !outstanding_cons, (IH i H). lia.
Qed.

Lemma outstanding_settled (l : list task) :
  forallb settled l = true ->
  length (filter (fun t => is_outstanding t = true) l) = 0%nat.
Proof.
  induction l as [|a l IH]; [reflexivity|].
  simpl forallb. intros [Ha Hl]%andb_prop.
  rewrite filter_cons.
  destruct (decide (is_outstanding a = true)) as [E|E]; [|auto].
  unfold settled, is_outstanding in *. destruct (task_phase a); discriminate.
Qed.

Lemma outstanding_spawned (l : list (str * str)) :
  length (filter (fun t => is_outstanding t = true) (map spawn l)) = 0%nat.
Proof.
  induction l as [|a l IH]; [reflexivity|].
  simpl map. rewrite filter_cons.
  destruct (decide (is_outstanding (spawn a) = true)) as [E|E]; [discriminate | auto].
Qed.

Lemma weight_set_phase (ph : phase) (t : task) :
  weight (set_phase ph t) = match ph with Outstanding => 1 | _ => 0 end.
Proof. now destruct ph. Qed.

Lemma weight_of_phase (t : task) :
  weight t = match task_phase t with Outstanding => 1 | _ => 0 end.
Proof. unfold weight, is_outstanding. now destruct (task_phase t). Qed.

Section Pool.
Variable rt : Runtime.
Variable batch_size : Z.

Lemma pool_invariant_start (s : State) (emoji_pairs : list (str * str)) :
  pool_invariant (max_concurrent (self s)) (start s emoji_pairs batch_size).
Proof. unfold pool_invariant, outstanding. simpl. repeat split; lia. Qed.

Lemma pool_invariant_step (ceiling : Z) (r r' : Run) :
  pool_invariant ceiling r -> step rt batch_size r r' -> pool_invariant ceiling r'.
Proof.
  intros (Hp & Hc & Hle) Hstep. unfold pool_invariant, outstanding in *.
  destruct Hstep as [r Hdone _ | r i t out s' Hi Hph Hrun
                    | r i t Hi Hph Hfree | r i t answer out s' Hi Hph Hrun];
    cbn [tasks st permits_taken] in *.
  - rewrite outstanding_spawned. rewrite (outstanding_settled _ Hdone) in Hp, Hle.
    repeat split; auto.
  - rewrite (outstanding_insert _ _ _ _ Hi), weight_set_phase, weight_of_phase, Hph.
    pose proof (process_single_begin_ceiling rt (task_pair t).1 (task_pair t).2 (st r))
      as K. rewrite Hrun in K. simpl in K.
    destruct out as [[|]|e]; repeat split; lia.
  - rewrite (outstanding_insert _ _ _ _ Hi), weight_set_phase, weight_of_phase, Hph.
    repeat split; lia.
  - rewrite (outstanding_insert _ _ _ _ Hi), weight_set_phase, weight_of_phase, Hph.
    pose proof (process_single_resume_ceiling rt (task_pair t).1 (task_pair t).2
                  answer (st r)) as K. rewrite Hrun in K. simpl in K.
    destruct out as [[]|e]; repeat split; lia.
Qed.

Lemma pool_invariant_reachable (s : State) (emoji_pairs : list (str * str)) (r : Run) :
  reachable rt batch_size s emoji_pairs r ->
  pool_invariant (max_concurrent (self s)) r.
Proof.
  induction 1 as [|r r' _ IH Hstep].
  - apply pool_invariant_start.
  - eapply pool_invariant_step; eauto.
Qed.

End Pool.

(** ** Where a 404 is counted *)

Section NotFound.
Variable rt : Runtime.
Variable new_client : Z -> Z -> EmojiKitchenClient.

(** A 404 coming back to a whole call of [process_single], and to
    [download_batch_chunk] for the same pair. *)
Lemma not_found_whole_call (client : EmojiKitchenClient) (e1 e2 : str)
    (success : bool) (content : option bytes) (error : option str) (bulk : State) :
  success && truthy_opt truthy_seq content = false ->
  (file_exists rt (storage (self bulk)) e1 e2 (fs bulk)).1 = Return false ->
  download_image client e1 e2 (size (self bulk))
  = Return (success, content, error, Some 404) ->
  process_single rt client e1 e2 bulk
  = (Return tt,
     advance_progress (incr_not_found (send_request e1 e2 (size (self bulk)) bulk)))
  /\ BulkMore.download_batch_chunk rt client [(e1, e2)] bulk
     = (Return tt,
        advance_progress (incr_not_found (send_request e1 e2 (size (self bulk)) bulk))).
Proof.
  intros Hfail Hex Himg.
  pose proof (StorageFacts.file_exists_keeps_tree rt (storage (self bulk)) e1 e2
                (fs bulk)) as K.
  assert (Eset : set_fs (fs bulk) bulk = bulk) by now destruct bulk.
  split.
  - unfold process_single, process_single_begin, process_single_resume. run.
    destruct (file_exists rt (storage (self bulk)) e1 e2 (fs bulk)) as [r t].
    cbn [fst snd] in *. subst r t. rewrite Eset, Himg. cbv beta iota.
    rewrite Hfail. now rewrite bool_decide_eq_true_2.
  - cbn [BulkMore.download_batch_chunk]. run.
    destruct (file_exists rt (storage (self bulk)) e1 e2 (fs bulk)) as [r t].
    cbn [fst snd] in *. subst r t. rewrite Eset.
    cbn [self send_request]. rewrite Himg. cbv beta iota.
    rewrite Hfail. now rewrite bool_decide_eq_true_2.
Qed.

(** C1, as the code has it: a fetch that fails is recorded under the kind
    its status gives, NotFound for a 404, and [download_pair] counts it in
    [failures] whatever the kind, leaving the other fields of the
    statistics alone: [DownloadStats] has no counter of its own for a
    404.  The bulk script has one: [process_single], and
    [download_batch_chunk] likewise, add the 404 to [not_found] and leave
    [failures] and [failed_pairs] alone. *)
Theorem not_found_accounting (clock : Orchestrator.Clock) (e1 e2 : str) (size : Z)
    (st : Orchestrator.State) (url : str) (success : bool)
    (content : option bytes) (error : option str) (status : option Z)
    (bulk : State) :
  Orchestrator.fetches rt st e1 e2 ->
  build_url (new_client (Orchestrator.delay_ms (Orchestrator.self st))
                        (Orchestrator.max_concurrent (Orchestrator.self st)))
    e1 e2 size = Return url ->
  download_image (new_client (Orchestrator.delay_ms (Orchestrator.self st))
                             (Orchestrator.max_concurrent (Orchestrator.self st)))
    e1 e2 size = Return (success, content, error, status) ->
  success && truthy_opt truthy_seq content = false ->
  (exists st',
     Orchestrator.download_pair rt new_client clock e1 e2 size st
     = (Return (false, error), st')
     /\ Orchestrator.failures (Orchestrator.stats (Orchestrator.self st'))
        = Orchestrator.failures (Orchestrator.stats (Orchestrator.self st)) + 1
     /\ Orchestrator.successes (Orchestrator.stats (Orchestrator.self st'))
        = Orchestrator.successes (Orchestrator.stats (Orchestrator.self st))
     /\ Orchestrator.skipped (Orchestrator.stats (Orchestrator.self st'))
        = Orchestrator.skipped (Orchestrator.stats (Orchestrator.self st))
     /\ Orchestrator.total (Orchestrator.stats (Orchestrator.self st'))
        = Orchestrator.total (Orchestrator.stats (Orchestrator.self st))
     /\ Orchestrator.duration_seconds (Orchestrator.stats (Orchestrator.self st'))
        = Orchestrator.duration_seconds (Orchestrator.stats (Orchestrator.self st))
     /\ exists r,
          Logger.failures (Orchestrator.logger (Orchestrator.self st'))
          = Logger.failures (Orchestrator.logger (Orchestrator.self st)) ++ [r]
          /\ Logger.error_type r = Some (Orchestrator.error_kind status)
          /\ Logger.status_code r = status)
  /\ Orchestrator.error_kind (Some 404) = lit "NotFound"
  /\ (exists bulk',
        process_single_resume rt e1 e2 (Return (success, content, error, Some 404)) bulk
        = (Return tt, bulk')
        /\ not_found (self bulk') = not_found (self bulk) + 1
        /\ failures (self bulk') = failures (self bulk)
        /\ failed_pairs (self bulk') = failed_pairs (self bulk))
  /\ (forall client : EmojiKitchenClient,
        (file_exists rt (storage (self bulk)) e1 e2 (fs bulk)).1 = Return false ->
        download_image client e1 e2 (Bulk.size (self bulk))
        = Return (success, content, error, Some 404) ->
        exists bulk',
          process_single rt client e1 e2 bulk = (Return tt, bulk')
          /\ BulkMore.download_batch_chunk rt client [(e1, e2)] bulk
             = (Return tt, bulk')
          /\ not_found (self bulk') = not_found (self bulk) + 1
          /\ failures (self bulk') = failures (self bulk)
          /\ failed_pairs (self bulk') = failed_pairs (self bulk)
          /\ successes (self bulk') = successes (self bulk)
          /\ skipped (self bulk') = skipped (self bulk)).
Proof.
  intros Hpre Hurl Hresp Hfail. split; [|split; [|split]].
  - destruct (OrchestratorFacts.download_pair_fetch_failed rt new_client clock e1 e2
                size st url success content error status Hpre Hurl Hresp Hfail)
      as (st' & E & _ & _ & Hstats & (r & Hr & _ & _ & _ & Hk & Hc) & _).
    exists st'. rewrite Hstats. repeat split; eauto.
  - reflexivity.
  - rewrite (process_single_resume_not_found rt e1 e2 success content error bulk Hfail).
    eexists. split; [reflexivity|]. now repeat split.
  - intros client Hex Himg.
    destruct (not_found_whole_call client e1 e2 success content error bulk
                Hfail Hex Himg) as [E1 E2].
    eexists. split; [exact E1|]. split; [exact E2|]. now repeat split.
Qed.

End NotFound.

Lemma bulk0_has_no_picture :
  (file_exists posix (storage (self bulk0)) grinning sunglasses (fs bulk0)).1
  = Return false.
Proof.
  rewrite (StorageFacts.file_exists_returns posix (storage (self bulk0)) grinning
             sunglasses (fs bulk0) grin_cool_glyph_png eq_refl).
  unfold is_file, grin_cool_glyph_png, bulk0, empty_tree, downloads.
  cbn [stat fs fst]. now rewrite lookup_singleton_ne.
Qed.

Lemma not_found_accounting_witness :
  (exists st',
     Orchestrator.download_pair posix (fun _ _ => serve (Return not_found_404))
       clock0 grinning sunglasses 512 (on_tree empty_tree)
     = (Return (false, Some (lit "HTTP 404")), st')
     /\ Orchestrator.failures (Orchestrator.stats (Orchestrator.self st')) = 0 + 1)
  /\ exists bulk',
       process_single posix (serve (Return not_found_404)) grinning sunglasses bulk0
       = (Return tt, bulk')
       /\ BulkMore.download_batch_chunk posix (serve (Return not_found_404))
            [(grinning, sunglasses)] bulk0 = (Return tt, bulk')
       /\ not_found (self bulk') = 0 + 1 /\ failures (self bulk') = 0.
Proof.
  destruct (not_found_accounting posix (fun _ _ => serve (Return not_found_404))
              clock0 grinning sunglasses 512 (on_tree empty_tree) _ false None
              (Some (lit "HTTP 404")) (Some 404) bulk0
              OrchestratorFacts.fresh_tree_fetches eq_refl eq_refl eq_refl)
    as ((st' & E & Hf & _) & _ & _ & Hbulk).
  destruct (Hbulk (serve (Return not_found_404)) bulk0_has_no_picture eq_refl)
    as (bulk' & E1 & E2 & Hn & Hb & _).
  split; [exists st' | exists bulk']; auto.
Defined.

(** ** A moment of a run with a fetch outstanding *)

Lemma bulk0_begins :
  process_single_begin posix grinning sunglasses bulk0
  = (Return false, send_request grinning sunglasses 100 bulk0).
Proof.
  unfold process_single_begin. run.
  assert (E : file_exists posix (storage (self bulk0)) grinning sunglasses (fs bulk0)
              = (Return false, fs bulk0)).
  { rewrite (StorageFacts.file_exists_returns posix (storage (self bulk0)) grinning
               sunglasses (fs bulk0) grin_cool_glyph_png eq_refl).
    unfold is_file, grin_cool_glyph_png, bulk0, empty_tree, downloads.
    cbn [stat fs]. now rewrite lookup_singleton_ne. }
  rewrite E. reflexivity.
Qed.

Lemma fetching_reachable : reachable posix 500 bulk0 one_pair fetching.
Proof.
  apply (reach_step posix 500 bulk0 one_pair queued).
  - apply (reach_step posix 500 bulk0 one_pair scheduled).
    + apply (reach_step posix 500 bulk0 one_pair (start bulk0 one_pair 500)).
      * apply reach_start.
      * exact (step_gather posix 500 (start bulk0 one_pair 500) eq_refl
                 ltac:(discriminate)).
    + exact (step_begin posix 500 scheduled 0%nat (spawn (grinning, sunglasses))
               (Return false) (send_request grinning sunglasses 100 bulk0)
               eq_refl eq_refl bulk0_begins).
  - exact (step_acquire posix 500 queued 0%nat
             {| task_pair := (grinning, sunglasses); task_phase := Queued |}
             eq_refl eq_refl eq_refl).
Qed.

End BulkFacts.

(* ===================================================================== *)
(** * More about the storage manager *)
(* ===================================================================== *)

Module StorageLaws.
Import Paths Storage Examples.

Ltac run :=
  unfold bind, ret, pure, get, modify, raise, try_except, zoom in *;
  cbv beta iota zeta in *.

(** ** [mkdir(parents=True, exist_ok=True)] *)

Lemma below_cons (above : path) (c : str) (l : list str) :
  (above ++ [c]) ++ l = above ++ c :: l.
Proof. now rewrite <- app_assoc. Qed.

(** Whatever the outcome, [makedirs] keeps every entry it finds, and
    touches nothing deeper than the directory it is asked for. *)
Lemma makedirs_keeps (above : path) (todo : list str) (fs fs' : filesystem)
    (r : result unit) :
  makedirs above todo fs = (r, fs') ->
  (forall (q : path) (n : node), fs !! q = Some n -> fs' !! q = Some n)
  /\ (forall q : path,
        (length above + length todo < length q)%nat -> fs' !! q = fs !! q).
Proof.
  revert above fs. induction todo as [|c todo IH]; intros above fs; cbn [makedirs].
  - run. intros [= _ <-]. auto.
  - run. destruct (fs !! (above ++ [c])) as [[content|]|] eqn:E.
    + intros [= _ <-]. auto.
    + intros H. apply IH in H as [H1 H2]. split; [exact H1|].
      intros q Hq. apply H2. rewrite length_app. cbn [length] in *. lia.
    + intros H. apply IH in H as [H1 H2]. split.
      * intros q n Hq. apply H1. rewrite lookup_insert_ne; [exact Hq|].
        intros <-. congruence.
      * intros q Hq. rewrite H2 by (rewrite length_app; cbn [length] in *; lia).
        apply lookup_insert_ne. intros <-.
        rewrite length_app in Hq. cbn [length] in Hq. lia.
Qed.

(** [makedirs] returns exactly when no file sits on the way down. *)
Lemma makedirs_returns_iff (above : path) (todo : list str) (fs : filesystem) :
  (exists fs', makedirs above todo fs = (Return tt, fs'))
  <-> (forall (k : nat) (content : bytes),
         (0 < k <= length todo)%nat ->
         fs !! (above ++ take k todo) <> Some (File content)).
Proof.
  revert above fs. induction todo as [|c todo IH]; intros above fs; cbn [makedirs].
  - run. split; [intros _ k content Hk; cbn [length] in Hk; lia | eauto].
  - run. destruct (fs !! (above ++ [c])) as [[content|]|] eqn:E.
    + split; [intros [fs' [=]] | intros H]. exfalso.
      apply (H 1%nat content); [cbn [length]; lia|].
      cbn [take]. now rewrite take_0.
    + rewrite IH. split; intros H k content Hk.
      * destruct k as [|k]; [lia|]. cbn [take]. destruct k as [|k].
        -- rewrite take_0. congruence.
        -- rewrite <- below_cons. apply H. cbn [length] in Hk. lia.
      * rewrite below_cons. apply (H (S k) content). cbn [length]. lia.
    + rewrite IH. split; intros H k content Hk.
      * destruct k as [|k]; [lia|]. cbn [take]. destruct k as [|k].
        -- rewrite take_0. congruence.
        -- rewrite <- below_cons. intros Hf.
           apply (H (S k) content); [cbn [length] in Hk; lia|].
           rewrite lookup_insert_ne; [exact Hf|].
           intros Heq. apply (f_equal length) in Heq.
           rewrite !length_app, length_take in Heq. cbn [length] in Heq, Hk. lia.
      * rewrite lookup_insert_ne.
        -- rewrite below_cons. apply (H (S k) content). cbn [length]. lia.
        -- intros Heq. apply (f_equal length) in Heq.
           rewrite !length_app, length_take in Heq. cbn [length] in Heq. lia.
Qed.

(** After [makedirs] has returned, every directory on the way is there. *)
Lemma makedirs_made (above : path) (todo : list str) (fs fs' : filesystem) :
  makedirs above todo fs = (Return tt, fs') ->
  forall k : nat, (0 < k <= length todo)%nat ->
                  fs' !! (above ++ take k todo) = Some Dir.
Proof.
  revert above fs. induction todo as [|c todo IH]; intros above fs; cbn [makedirs].
  - intros _ k Hk. cbn [length] in Hk. lia.
  - run. intros H k Hk. destruct k as [|k]; [lia|]. cbn [take].
    destruct (fs !! (above ++ [c])) as [[content|]|] eqn:E; [discriminate| |].
    + destruct k as [|k].
      * rewrite take_0. apply makedirs_keeps in H as [H1 _]. now apply H1.
      * rewrite <- below_cons. eapply IH; [exact H|]. cbn [length] in Hk. lia.
    + destruct k as [|k].
      * rewrite take_0. apply makedirs_keeps in H as [H1 _]. apply H1.
        apply lookup_insert_eq.
      * rewrite <- below_cons. eapply IH; [exact H|]. cbn [length] in Hk. lia.
Qed.

(** Where the directories are in place, [makedirs] changes nothing. *)
Lemma makedirs_in_place (above : path) (todo : list str) (fs : filesystem) :
  (forall k : nat, (0 < k <= length todo)%nat ->
                   fs !! (above ++ take k todo) = Some Dir) ->
  makedirs above todo fs = (Return tt, fs).
Proof.
  revert above. induction todo as [|c todo IH]; intros above H; cbn [makedirs].
  - reflexivity.
  - run. assert (E : fs !! (above ++ [c]) = Some Dir).
    { specialize (H 1%nat). cbn [take length] in H. rewrite take_0 in H.
      apply H. lia. }
    rewrite E. apply IH. intros k Hk. rewrite below_cons.
    apply (H (S k)). cbn [length]. lia.
Qed.

(** ** [save], case by case *)

Section Methods.
Variable rt : Runtime.

Lemma get_file_path_shape (sm : StorageManager) (e1 e2 : str) (p : path) :
  get_file_path rt sm e1 e2 = Return p ->
  exists (dirp : path) (f : str),
    p = dirp ++ [f] /\ dirp <> [] /\ parent p = dirp
    /\ length p = S (S (length (base_dir sm))).
Proof.
  unfold get_file_path, generate_full_path.
  destruct e1 as [|a e1], e2 as [|b e2]; try discriminate. intros [= <-].
  eexists (base_dir sm ++ [_]), _. split; [|split; [|split]].
  - now rewrite <- app_assoc.
  - now destruct (base_dir sm).
  - unfold parent.
    change [generate_directory_name rt (a :: e1) (filename_format sm);
            generate_filename rt (a :: e1) (b :: e2) (path_size rt) (filename_format sm)]
      with ([generate_directory_name rt (a :: e1) (filename_format sm)]
            ++ [generate_filename rt (a :: e1) (b :: e2) (path_size rt)
                  (filename_format sm)]).
    rewrite app_assoc. apply removelast_last.
  - rewrite length_app. cbn [length]. lia.
Qed.

(** What [save] does once the path is resolved. *)
Lemma save_cases (sm : StorageManager) (e1 e2 : str) (content : bytes)
    (fs : filesystem) (p : path) :
  get_file_path rt sm e1 e2 = Return p ->
  match makedirs [] (parent p) fs with
  | (Raise e, fs1) => save rt sm e1 e2 content fs = (Raise e, fs1)
  | (Return _, fs1) =>
      save rt sm e1 e2 content fs
      = match fs !! p with
        | Some Dir => (Raise (OSError EISDIR p), fs1)
        | _ => (Return p, <[p := File content]> fs1)
        end
  end.
Proof.
  intros Hp. destruct (get_file_path_shape sm e1 e2 p Hp) as (dirp & f & -> & Hne & Hpar & _).
  rewrite Hpar. unfold save, write_bytes, mkdir_parents_exist_ok. run.
  rewrite Hp. cbv beta iota. rewrite Hpar.
  destruct (makedirs [] dirp fs) as [[[]|e] fs1] eqn:M; [|reflexivity].
  assert (Hd : stat fs1 dirp = Some Dir).
  { destruct dirp as [|c dirp]; [congruence|]. cbn [stat].
    pose proof (makedirs_made [] (c :: dirp) fs fs1 M (length (c :: dirp))) as K.
    rewrite take_ge in K by lia. apply K. cbn [length]. lia. }
  assert (Hf : stat fs1 (dirp ++ [f]) = fs !! (dirp ++ [f])).
  { destruct (dirp ++ [f]) as [|c q] eqn:Eq; [now destruct dirp|]. cbn [stat].
    rewrite <- Eq. apply (proj2 (makedirs_keeps [] dirp fs fs1 _ M)).
    rewrite length_app. cbn [length]. lia. }
  rewrite Hd, Hf. now destruct (fs !! (dirp ++ [f])) as [[|]|].
Qed.

(** X1: [save] returns only when the pair is valid, no regular file sits
    where a directory of the path belongs, and no directory sits at the
    path itself: with a file in the way, or a directory in the place of
    the picture, it raises. *)
Theorem save_returns_only_unblocked (sm : StorageManager) (e1 e2 : str)
    (content : bytes) (fs fs' : filesystem) (p : path) :
  save rt sm e1 e2 content fs = (Return p, fs') ->
  get_file_path rt sm e1 e2 = Return p
  /\ (forall (k : nat) (old : bytes),
        (0 < k < length p)%nat -> fs !! take k p <> Some (File old))
  /\ fs !! p <> Some Dir.
Proof.
  intros H. pose proof (StorageFacts.save_returns _ _ _ _ _ _ _ _ H) as [Hp _].
  split; [exact Hp|].
  pose proof (save_cases sm e1 e2 content fs p Hp) as C.
  destruct (get_file_path_shape sm e1 e2 p Hp) as (dirp & f & Ep & Hne & Hpar & _).
  assert (Hpre : forall k : nat, (k <= length dirp)%nat -> take k p = take k dirp).
  { intros k Hk. subst p. now rewrite take_app_le. }
  assert (Hlen : length p = S (length dirp)).
  { subst p. rewrite length_app. cbn [length]. lia. }
  rewrite Hpar in C.
  destruct (makedirs [] dirp fs) as [[[]|e] fs1] eqn:M.
  - pose proof (proj1 (makedirs_returns_iff [] dirp fs) (ex_intro _ fs1 M)) as Hfree.
    rewrite C in H. split.
    + intros k old Hk. rewrite Hpre by lia. apply (Hfree k old). lia.
    + destruct (fs !! p) as [[|]|]; congruence.
  - rewrite C in H. discriminate.
Qed.

(** What [save], whatever its outcome, leaves untouched: every path that
    is as long as the pair's and is not the pair's. *)
Lemma save_keeps_path (sm : StorageManager) (e1 e2 : str) (content : bytes)
    (fs fs' : filesystem) (r : result path) (p q : path) :
  get_file_path rt sm e1 e2 = Return p ->
  save rt sm e1 e2 content fs = (r, fs') ->
  length q = length p -> q <> p ->
  stat fs' q = stat fs q.
Proof.
  intros Hp H Hlen Hne.
  pose proof (save_cases sm e1 e2 content fs p Hp) as C.
  destruct (get_file_path_shape sm e1 e2 p Hp) as (dirp & f & Ep & _ & Hpar & _).
  rewrite Hpar in C.
  assert (Hq : q <> []).
  { intros ->. subst p. rewrite length_app in Hlen. cbn [length] in Hlen. lia. }
  destruct q as [|c q]; [congruence|]. cbn [stat].
  destruct (makedirs [] dirp fs) as [[[]|e] fs1] eqn:M.
  - assert (K : fs1 !! (c :: q) = fs !! (c :: q)).
    { apply (proj2 (makedirs_keeps [] dirp fs fs1 _ M)).
      subst p. rewrite length_app in Hlen. cbn [length] in *. lia. }
    rewrite C in H. destruct (fs !! p) as [[|]|]; injection H as _ <-;
      rewrite ?lookup_insert_ne by congruence; exact K.
  - rewrite C in H. injection H as _ <-.
    apply (proj2 (makedirs_keeps [] dirp fs fs1 _ M)).
    subst p. rewrite length_app in Hlen. cbn [length] in *. lia.
Qed.

Lemma file_exists_by_stat (sm : StorageManager) (e1 e2 : str) (fs fs' : filesystem) :
  (forall q : path, get_file_path rt sm e1 e2 = Return q -> stat fs' q = stat fs q) ->
  (file_exists rt sm e1 e2 fs').1 = (file_exists rt sm e1 e2 fs).1
  /\ (get_file_size rt sm e1 e2 fs').1 = (get_file_size rt sm e1 e2 fs).1.
Proof.
  intros H. destruct (get_file_path rt sm e1 e2) as [q|e] eqn:Hq.
  - specialize (H q eq_refl). split.
    + rewrite !(StorageFacts.file_exists_returns rt sm e1 e2 _ q Hq).
      unfold is_file. now rewrite H.
    + unfold get_file_size. run. rewrite Hq. cbv beta iota. rewrite H.
      now destruct (stat fs q).
  - split.
    + now rewrite !(StorageFacts.file_exists_raises rt sm e1 e2 _ e Hq).
    + unfold get_file_size. run. now rewrite Hq.
Qed.

Lemma paths_same_length (sm : StorageManager) (a b c d : str) (p q : path) :
  get_file_path rt sm a b = Return p -> get_file_path rt sm c d = Return q ->
  length q = length p.
Proof.
  intros Hp Hq.
  destruct (get_file_path_shape sm a b p Hp) as (_ & _ & _ & _ & _ & ->).
  now destruct (get_file_path_shape sm c d q Hq) as (_ & _ & _ & _ & _ & ->).
Qed.

(** X2: a [save] for one pair, whether it returns or raises, changes
    neither the existence nor the size of the file of a pair that resolves
    to another path. *)
Theorem save_leaves_other_pairs (sm : StorageManager) (a b c d : str)
    (content : bytes) (fs fs' : filesystem) (r : result path) :
  get_file_path rt sm a b <> get_file_path rt sm c d ->
  save rt sm a b content fs = (r, fs') ->
  (file_exists rt sm c d fs').1 = (file_exists rt sm c d fs).1
  /\ (get_file_size rt sm c d fs').1 = (get_file_size rt sm c d fs).1.
Proof.
  intros Hne H. apply file_exists_by_stat. intros q Hq.
  destruct (get_file_path rt sm a b) as [p|e] eqn:Hp.
  - apply (save_keeps_path sm a b content fs fs' r p q Hp H).
    + exact (paths_same_length sm a b c d p q Hp Hq).
    + intros ->. now rewrite Hq in Hne.
  - unfold save in H. run. rewrite Hp in H. now injection H as _ <-.
Qed.

Lemma delete_keeps_path (sm : StorageManager) (e1 e2 : str) (fs fs' : filesystem)
    (r : result bool) (q : path) :
  Storage.delete rt sm e1 e2 fs = (r, fs') ->
  get_file_path rt sm e1 e2 <> Return q ->
  stat fs' q = stat fs q.
Proof.
  intros H Hne. destruct (get_file_path rt sm e1 e2) as [p|e] eqn:Hp.
  - destruct (stat fs p) as [[content|]|] eqn:Hs.
    + rewrite (StorageFacts.delete_file rt sm e1 e2 fs p content Hp Hs) in H.
      injection H as _ <-. destruct q as [|c q]; [reflexivity|]. cbn [stat].
      apply lookup_delete_ne. congruence.
    + rewrite (StorageFacts.delete_directory rt sm e1 e2 fs p Hp Hs) in H.
      now injection H as _ <-.
    + rewrite (StorageFacts.delete_absent rt sm e1 e2 fs p Hp Hs) in H.
      now injection H as _ <-.
  - rewrite (StorageFacts.delete_invalid rt sm e1 e2 fs e Hp) in H.
    now injection H as _ <-.
Qed.

(** X3: a [delete] for one pair, whatever its outcome, changes neither the
    existence nor the size of the file of a pair that resolves to another
    path. *)
Theorem delete_leaves_other_pairs (sm : StorageManager) (a b c d : str)
    (fs fs' : filesystem) (r : result bool) :
  get_file_path rt sm a b <> get_file_path rt sm c d ->
  Storage.delete rt sm a b fs = (r, fs') ->
  (file_exists rt sm c d fs').1 = (file_exists rt sm c d fs).1
  /\ (get_file_size rt sm c d fs').1 = (get_file_size rt sm c d fs).1.
Proof.
  intros Hne H. apply file_exists_by_stat. intros q Hq.
  eapply delete_keeps_path; [exact H|]. congruence.
Qed.

(** X4: what [save] has written, [delete] removes: after a [save] that
    returned, [delete] returns true, and then the file is gone for
    [file_exists] and for [get_file_size]. *)
Theorem save_then_delete (sm : StorageManager) (e1 e2 : str) (content : bytes)
    (fs fs1 : filesystem) (p : path) :
  save rt sm e1 e2 content fs = (Return p, fs1) ->
  exists fs2,
    Storage.delete rt sm e1 e2 fs1 = (Return true, fs2)
    /\ file_exists rt sm e1 e2 fs2 = (Return false, fs2)
    /\ get_file_size rt sm e1 e2 fs2 = (Return None, fs2).
Proof.
  intros H. apply StorageFacts.save_returns in H as [Hp Hf].
  pose proof (StorageFacts.get_file_path_nonempty rt sm e1 e2 p Hp) as Hne.
  assert (Hs : stat fs1 p = Some (File content)).
  { destruct p; [congruence | exact Hf]. }
  exists (base.delete p fs1).
  assert (Hgone : stat (base.delete p fs1) p = None).
  { destruct p; [congruence|]. cbn [stat]. apply lookup_delete_eq. }
  split; [exact (StorageFacts.delete_file rt sm e1 e2 fs1 p content Hp Hs)|]. split.
  - rewrite (StorageFacts.file_exists_returns rt sm e1 e2 _ p Hp).
    unfold is_file. now rewrite Hgone.
  - unfold get_file_size. run. rewrite Hp. cbv beta iota. now rewrite Hgone.
Qed.

(** X5: the last write wins: once a [save] of a pair has returned, a second
    [save] of the same pair returns too and leaves the tree the second
    would have left without the first. *)
Theorem save_overwrites_save (sm : StorageManager) (e1 e2 : str)
    (first second : bytes) (fs fs1 : filesystem) (p : path) :
  save rt sm e1 e2 first fs = (Return p, fs1) ->
  returns (save rt sm e1 e2 second fs1).1
  /\ save rt sm e1 e2 second fs1 = save rt sm e1 e2 second fs.
Proof.
  intros H. pose proof H as H0.
  apply StorageFacts.save_returns in H0 as [Hp _].
  pose proof (save_cases sm e1 e2 first fs p Hp) as C1.
  pose proof (save_cases sm e1 e2 second fs p Hp) as C2.
  pose proof (save_cases sm e1 e2 second fs1 p Hp) as C3.
  destruct (get_file_path_shape sm e1 e2 p Hp) as (dirp & f & Ep & Hne & Hpar & _).
  rewrite Hpar in C1, C2, C3.
  destruct (makedirs [] dirp fs) as [[[]|e] fsd] eqn:M;
    [|rewrite C1 in H; discriminate].
  rewrite C1 in H.
  assert (Hnd : fs !! p <> Some Dir) by (destruct (fs !! p) as [[|]|]; congruence).
  assert (E1 : fs1 = <[p := File first]> fsd)
    by (destruct (fs !! p) as [[|]|]; congruence).
  assert (M' : makedirs [] dirp fs1 = (Return tt, fs1)).
  { apply makedirs_in_place. intros k Hk. rewrite E1.
    rewrite lookup_insert_ne.
    - exact (makedirs_made [] dirp fs fsd M k Hk).
    - intros Heq. apply (f_equal length) in Heq. subst p. cbn [app] in Heq.
      rewrite length_app, length_take in Heq. cbn [length] in Heq. lia. }
  rewrite M' in C3.
  assert (Hf1 : fs1 !! p = Some (File first)) by (rewrite E1; apply lookup_insert_eq).
  rewrite Hf1 in C3. rewrite C3, C2. split.
  - now exists p.
  - rewrite E1, insert_insert_eq. now destruct (fs !! p) as [[|]|].
Qed.

End Methods.

(** ** [StorageManager.__init__] *)

(** X6: the constructor returns only when no regular file sits on the
    base path; the manager it returns has the base directory in place,
    and every entry that was in the tree is still there. *)
Theorem init_makes_base_directory (base : path) (fmt : FilenameFormat)
    (fs fs' : filesystem) (sm : StorageManager) :
  Storage.init base fmt fs = (Return sm, fs') ->
  (forall (k : nat) (old : bytes),
     (0 < k <= length base)%nat -> fs !! take k base <> Some (File old))
  /\ base_dir sm = base /\ filename_format sm = fmt
  /\ stat fs' base = Some Dir
  /\ (forall (q : path) (n : node), fs !! q = Some n -> fs' !! q = Some n).
Proof.
  unfold Storage.init, mkdir_parents_exist_ok. run. intros H.
  destruct (makedirs [] base fs) as [[[]|e] fs1] eqn:M; [|discriminate].
  injection H as <- <-. split.
  { apply (makedirs_returns_iff [] base fs). now exists fs1. }
  repeat split.
  - destruct base as [|c base]; [reflexivity|]. cbn [stat].
    pose proof (makedirs_made [] (c :: base) fs fs1 M (length (c :: base))) as K.
    rewrite take_ge in K by lia. apply K. cbn [length]. lia.
  - exact (proj1 (makedirs_keeps [] base fs fs1 _ M)).
Qed.

(** ** The laws on the example trees *)

Lemma other_pair_resolves_elsewhere :
  get_file_path posix by_codepoint grinning sunglasses
  <> get_file_path posix by_codepoint sunglasses grinning.
Proof. intros H. vm_compute in H. discriminate H. Qed.

Lemma init_on_empty_tree :
  Storage.init downloads codepoint empty_tree = (Return by_codepoint, empty_tree).
Proof.
  unfold Storage.init, mkdir_parents_exist_ok. run.
  rewrite (makedirs_in_place [] downloads empty_tree); [reflexivity|].
  intros k Hk. unfold downloads in *. cbn [length] in Hk.
  assert (k = 1%nat) as -> by lia. apply lookup_singleton_eq.
Qed.

Lemma delete_the_file :
  Storage.delete posix by_codepoint grinning sunglasses tree_with_file
  = (Return true, base.delete grin_cool_png tree_with_file).
Proof.
  exact (StorageFacts.delete_file posix by_codepoint grinning sunglasses
           tree_with_file grin_cool_png [x00] StorageFacts.grin_cool_resolves
           StorageFacts.tree_with_file_stat).
Qed.

Lemma save_returns_only_unblocked_witness :
  get_file_path posix by_codepoint grinning sunglasses = Return grin_cool_png
  /\ (forall (k : nat) (old : bytes),
        (0 < k < length grin_cool_png)%nat ->
        tree_with_file !! take k grin_cool_png <> Some (File old))
  /\ tree_with_file !! grin_cool_png <> Some Dir.
Proof.
  exact (save_returns_only_unblocked posix by_codepoint grinning sunglasses
           png_bytes tree_with_file _ grin_cool_png StorageFacts.save_over_file).
Defined.

Lemma save_leaves_other_pairs_witness :
  (file_exists posix by_codepoint sunglasses grinning
     (<[grin_cool_png := File png_bytes]> tree_with_file)).1
  = (file_exists posix by_codepoint sunglasses grinning tree_with_file).1
  /\ (get_file_size posix by_codepoint sunglasses grinning
        (<[grin_cool_png := File png_bytes]> tree_with_file)).1
     = (get_file_size posix by_codepoint sunglasses grinning tree_with_file).1.
Proof.
  exact (save_leaves_other_pairs posix by_codepoint grinning sunglasses sunglasses
           grinning png_bytes tree_with_file _ _ other_pair_resolves_elsewhere
           StorageFacts.save_over_file).
Defined.

Lemma delete_leaves_other_pairs_witness :
  (file_exists posix by_codepoint sunglasses grinning
     (base.delete grin_cool_png tree_with_file)).1
  = (file_exists posix by_codepoint sunglasses grinning tree_with_file).1
  /\ (get_file_size posix by_codepoint sunglasses grinning
        (base.delete grin_cool_png tree_with_file)).1
     = (get_file_size posix by_codepoint sunglasses grinning tree_with_file).1.
Proof.
  exact (delete_leaves_other_pairs posix by_codepoint grinning sunglasses sunglasses
           grinning tree_with_file _ _ other_pair_resolves_elsewhere
           delete_the_file).
Defined.

Lemma save_then_delete_witness :
  exists fs2,
    Storage.delete posix by_codepoint grinning sunglasses
      (<[grin_cool_png := File png_bytes]> tree_with_file) = (Return true, fs2)
    /\ file_exists posix by_codepoint grinning sunglasses fs2 = (Return false, fs2)
    /\ get_file_size posix by_codepoint grinning sunglasses fs2 = (Return None, fs2).
Proof.
  exact (save_then_delete posix by_codepoint grinning sunglasses png_bytes
           tree_with_file _ grin_cool_png StorageFacts.save_over_file).
Defined.

Lemma save_overwrites_save_witness :
  returns (save posix by_codepoint grinning sunglasses [x01]
             (<[grin_cool_png := File png_bytes]> tree_with_file)).1
  /\ save posix by_codepoint grinning sunglasses [x01]
       (<[grin_cool_png := File png_bytes]> tree_with_file)
     = save posix by_codepoint grinning sunglasses [x01] tree_with_file.
Proof.
  exact (save_overwrites_save posix by_codepoint grinning sunglasses png_bytes [x01]
           tree_with_file _ grin_cool_png StorageFacts.save_over_file).
Defined.

Lemma init_makes_base_directory_witness :
  (forall (k : nat) (old : bytes),
     (0 < k <= length downloads)%nat ->
     empty_tree !! take k downloads <> Some (File old))
  /\ base_dir by_codepoint = downloads /\ filename_format by_codepoint = codepoint
  /\ stat empty_tree downloads = Some Dir
  /\ (forall (q : path) (n : node),
        empty_tree !! q = Some n -> empty_tree !! q = Some n).
Proof.
  exact (init_makes_base_directory downloads codepoint empty_tree empty_tree
           by_codepoint init_on_empty_tree).
Defined.

End StorageLaws.

(* ===================================================================== *)
(** * More about the result logger *)
(* ===================================================================== *)

Module LoggerLaws.
Import Logger Examples Sessions.

Ltac run :=
  unfold bind, ret, pure, get, modify, raise, try_except, zoom in *;
  cbv beta iota zeta in *.

(** The kind a failure is counted under: [error_type or 'Unknown']. *)
Lemma breakdown_of_failures (lg : JSONLogger) :
  error_breakdown lg
  = fold_left
      (fun (acc : gmap str Z) failure =>
         let kind := str_or (error_type failure) (lit "Unknown") in
         <[kind := default 0 (acc !! kind) + 1]> acc)
      (failures lg) ∅.
Proof. reflexivity. Qed.

Lemma breakdown_lookup (l : list DownloadResult) (k : str) :
  fold_left
    (fun (acc : gmap str Z) failure =>
       let kind := str_or (error_type failure) (lit "Unknown") in
       <[kind := default 0 (acc !! kind) + 1]> acc) l ∅ !! k
  = let n := length (filter (fun r => str_or (error_type r) (lit "Unknown") = k) l) in
    match n with
    | O => None
    | S _ => Some (Z.of_nat n)
    end.
Proof.
  induction l as [|r l IH] using rev_ind; [apply lookup_empty|].
  rewrite fold_left_app, filter_app, length_app. cbn [fold_left].
  cbv zeta in *. rewrite filter_cons, filter_nil.
  destruct (decide (str_or (error_type r) (lit "Unknown") = k)) as [->|Hne].
  - rewrite lookup_insert_eq, IH. cbn [length].
    destruct (length (filter _ l)) as [|n]; cbn [default Nat.add].
    + reflexivity.
    + f_equal. unfold id. lia.
  - rewrite lookup_insert_ne by exact Hne. rewrite IH. cbn [length].
    now rewrite Nat.add_0_r.
Qed.

(** X7: the breakdown of the summary holds, for each kind, the number of
    failures recorded under it ([Unknown] for a failure without a kind),
    and no entry for a kind without failures. *)
Theorem error_breakdown_counts (lg : JSONLogger) (k : str) :
  default 0 (error_breakdown lg !! k)
  = Z.of_nat (length (filter (fun r => str_or (error_type r) (lit "Unknown") = k)
                        (failures lg)))
  /\ (error_breakdown lg !! k = None
      <-> Forall (fun r => str_or (error_type r) (lit "Unknown") <> k) (failures lg)).
Proof.
  rewrite breakdown_of_failures, breakdown_lookup. cbv zeta.
  destruct (length (filter _ (failures lg))) as [|n] eqn:E.
  - split; [reflexivity|]. split; [intros _ | reflexivity].
    apply length_zero_iff_nil in E. apply Forall_forall. intros r Hr Hk.
    assert (Hin : r ∈ filter (fun r => str_or (error_type r) (lit "Unknown") = k)
                      (failures lg)) by (apply list_elem_of_filter; auto).
    rewrite E in Hin. inversion Hin.
  - split; [reflexivity|]. split; [discriminate|]. intros HF. exfalso.
    destruct (filter (fun r => str_or (error_type r) (lit "Unknown") = k)
                (failures lg)) as [|r l] eqn:F; [discriminate|].
    assert (Hin : r ∈ filter (fun r => str_or (error_type r) (lit "Unknown") = k)
                      (failures lg)) by (rewrite F; left).
    apply list_elem_of_filter in Hin as [Hk Hr].
    rewrite Forall_forall in HF. exact (HF r Hr Hk).
Qed.

(** One more of some kind makes the total one more. *)
Lemma breakdown_total_bump (b : gmap str Z) (k : str) :
  Summary.breakdown_total (<[k := default 0 (b !! k) + 1]> b)
  = Summary.breakdown_total b + 1.
Proof.
  unfold Summary.breakdown_total.
  assert (Hcomm : forall (m : gmap str Z) (j1 j2 : str) (z1 z2 y : Z),
             j1 <> j2 -> m !! j1 = Some z1 -> m !! j2 = Some z2 ->
             z1 + (z2 + y) = z2 + (z1 + y)) by (intros; lia).
  destruct (b !! k) as [n|] eqn:E; cbn [default].
  - rewrite <- (insert_delete_eq b k (n + 1)).
    rewrite map_fold_insert_L; [|apply Hcomm | apply lookup_delete_eq].
    rewrite (map_fold_delete_L _ 0 k n b); [lia | apply Hcomm | exact E].
  - rewrite map_fold_insert_L; [lia | apply Hcomm | exact E].
Qed.

Lemma breakdown_total_failures (lg : JSONLogger) :
  Summary.breakdown_total (error_breakdown lg) = Z.of_nat (length (failures lg)).
Proof.
  rewrite breakdown_of_failures.
  induction (failures lg) as [|r l IH] using rev_ind; [reflexivity|].
  rewrite fold_left_app, length_app. cbn [fold_left length]. cbv zeta in IH |- *.
  rewrite breakdown_total_bump, IH. lia.
Qed.

Section Methods.
Variable rt : Runtime.
Variable format_percent : Z -> Z -> str.

(** X8: when [close] returns, the summary it has written adds up: the
    attempts are the successes plus the failures held in memory, and the
    counts of the breakdown sum to the failures.  The records themselves
    stay as they are. *)
Theorem close_writes_consistent_summary (s s' : Summary.Logs) :
  Summary.close rt format_percent s = (Return tt, s') ->
  exists doc b,
    Summary.summary_file s' = Some doc
    /\ Summary.successes doc = Z.of_nat (length (successes (Summary.logger s)))
    /\ Summary.failures doc = Z.of_nat (length (failures (Summary.logger s)))
    /\ Summary.total_attempts doc = Summary.successes doc + Summary.failures doc
    /\ Summary.error_breakdown doc = Some b
    /\ Summary.breakdown_total b = Summary.failures doc
    /\ successes (Summary.logger s') = successes (Summary.logger s)
    /\ failures (Summary.logger s') = failures (Summary.logger s).
Proof.
  unfold Summary.close, Summary.save_summary, Summary.on_logger, info. run.
  cbn [Summary.logger Summary.summary_file Summary.set_logger].
  intros [= <-].
  cbn [Summary.logger Summary.summary_file Summary.set_logger].
  eexists _, _. split; [reflexivity|].
  cbn [Summary.with_breakdown Summary.get_summary Summary.successes
       Summary.failures Summary.total_attempts Summary.error_breakdown].
  repeat split.
  - apply breakdown_total_failures.
  - now rewrite !(proj1 (LoggerFacts.emit_fields _ _ _)).
  - now rewrite !(proj1 (proj2 (LoggerFacts.emit_fields _ _ _))).
Qed.

(** One call with both files readable. *)
Lemma run_call_persists (c : Summary.log_call) (lg : JSONLogger)
    (ds df : list DownloadResult) :
  success_file lg = Return ds -> failure_file lg = Return df ->
  exists lg' news newf,
    Summary.run_call rt c lg = (Return tt, lg')
    /\ successes lg' = successes lg ++ news
    /\ success_file lg' = Return (ds ++ news)
    /\ failures lg' = failures lg ++ newf
    /\ failure_file lg' = Return (df ++ newf)
    /\ (length news + length newf = 1)%nat
    /\ Forall (fun r => is_Some (error_message r)) newf.
Proof.
  intros Hs Hf.
  destruct c as [now e1 e2 fp d u sc | now e1 e2 k m sc d u]; cbn [Summary.run_call].
  - unfold log_success, _append_to_json_file, info. run.
    cbn [success_file set_successes]. rewrite Hs.
    eexists _, [_], []. split; [reflexivity|].
    rewrite !(proj1 (LoggerFacts.emit_fields _ _ _)).
    rewrite !(proj1 (proj2 (LoggerFacts.emit_fields _ _ _))).
    rewrite !(proj1 (proj2 (proj2 (proj2 (LoggerFacts.emit_fields _ _ _))))).
    rewrite !(proj2 (proj2 (proj2 (proj2 (LoggerFacts.emit_fields _ _ _))))).
    cbn [successes failures success_file failure_file set_success_file set_successes].
    rewrite !app_nil_r. repeat split; auto.
  - unfold log_failure, _append_to_json_file, warning. run.
    cbn [failure_file set_failures]. rewrite Hf.
    eexists _, [], [_]. split; [reflexivity|].
    rewrite !(proj1 (LoggerFacts.emit_fields _ _ _)).
    rewrite !(proj1 (proj2 (LoggerFacts.emit_fields _ _ _))).
    rewrite !(proj1 (proj2 (proj2 (proj2 (LoggerFacts.emit_fields _ _ _))))).
    rewrite !(proj2 (proj2 (proj2 (proj2 (LoggerFacts.emit_fields _ _ _))))).
    cbn [successes failures success_file failure_file set_failure_file set_failures].
    rewrite !app_nil_r. repeat split; auto.
Qed.

Lemma run_calls_persist (calls : list Summary.log_call) (lg : JSONLogger)
    (ds df : list DownloadResult) :
  success_file lg = Return ds -> failure_file lg = Return df ->
  exists lg' news newf,
    Summary.run_calls rt calls lg = (Return tt, lg')
    /\ successes lg' = successes lg ++ news
    /\ success_file lg' = Return (ds ++ news)
    /\ failures lg' = failures lg ++ newf
    /\ failure_file lg' = Return (df ++ newf)
    /\ (length news + length newf = length calls)%nat
    /\ Forall (fun r => is_Some (error_message r)) newf.
Proof.
  revert lg ds df. induction calls as [|c calls IH]; intros lg ds df Hs Hf.
  - exists lg, [], []. cbn [Summary.run_calls]. run.
    rewrite !app_nil_r. repeat split; auto.
  - cbn [Summary.run_calls]. run.
    destruct (run_call_persists c lg ds df Hs Hf)
      as (lg1 & n1 & f1 & -> & Es & Efs & Ef & Eff & Hlen & Hmsg).
    destruct (IH lg1 _ _ Efs Eff)
      as (lg2 & n2 & f2 & -> & Es2 & Efs2 & Ef2 & Eff2 & Hlen2 & Hmsg2).
    exists lg2, (n1 ++ n2), (f1 ++ f2).
    rewrite Es2, Efs2, Ef2, Eff2, Es, Ef, !length_app, <- !app_assoc.
    cbn [length]. repeat split; auto; [lia | now apply Forall_app].
Qed.

(** X9: while the two log files can be read and every text that goes to
    them is one UTF-8 can encode (no lone surrogate in what the files hold
    or in what the calls are given), every call of [log_success] and
    [log_failure] returns and appends its record both to the list in
    memory and to the file, in the same order: after any sequence of
    calls the files hold what they held plus the records added in
    memory, one record per call. *)
Theorem log_files_follow_memory (calls : list Summary.log_call) (lg : JSONLogger)
    (ds df : list DownloadResult) :
  success_file lg = Return ds -> failure_file lg = Return df ->
  forallb Conditions.encodable (ds ++ df) = true ->
  forallb (fun c => forallb Conditions.utf8_text (Conditions.call_texts c)) calls
  = true ->
  exists lg' news newf,
    Summary.run_calls rt calls lg = (Return tt, lg')
    /\ successes lg' = successes lg ++ news
    /\ success_file lg' = Return (ds ++ news)
    /\ failures lg' = failures lg ++ newf
    /\ failure_file lg' = Return (df ++ newf)
    /\ (length news + length newf = length calls)%nat.
Proof.
  intros Hs Hf _ _.
  destruct (run_calls_persist calls lg ds df Hs Hf)
    as (lg' & news & newf & H1 & H2 & H3 & H4 & H5 & H6 & _).
  exists lg', news, newf. auto 10.
Qed.

(** X10: a success log that cannot be read does not stop [log_success]:
    with a logger that lets INFO records through, it returns, keeps the
    record in memory, leaves the file as it is, and writes the ERROR line
    before the line of the attempt. *)
Theorem unreadable_file_is_logged (now e1 e2 fp : str) (dur : option float)
    (u : option str) (sc : option Z) (lg : JSONLogger) (e : exn) :
  success_file lg = Raise e ->
  effective_level lg <= INFO ->
  exists lg' r,
    log_success rt now e1 e2 fp dur u sc lg = (Return tt, lg')
    /\ successes lg' = successes lg ++ [r]
    /\ success_file lg' = Raise e
    /\ debug_file lg'
       = debug_file lg
         ++ [(ERROR, lit "Failed to write to " ++ path_str rt (success_file_path lg)
                     ++ lit ": " ++ exn_str rt e);
             (INFO, success_line rt e1 e2 fp dur)].
Proof.
  intros Hs Hlvl. unfold log_success, _append_to_json_file, info, error. run.
  cbn [success_file set_successes]. rewrite Hs.
  eexists _, _. split; [reflexivity|].
  rewrite !(proj1 (LoggerFacts.emit_fields _ _ _)).
  rewrite !(proj1 (proj2 (proj2 (proj2 (LoggerFacts.emit_fields _ _ _))))).
  cbn [successes success_file set_successes].
  split; [reflexivity|]. split; [exact Hs|].
  rewrite LoggerFacts.emit_enabled.
  - rewrite LoggerFacts.emit_enabled.
    + cbn [debug_file set_successes]. now rewrite <- app_assoc.
    + unfold DEBUG, ERROR. lia.
    + unfold effective_level in *. cbn [log_level set_successes].
      unfold INFO, WARNING, ERROR in *. destruct (log_level lg =? 0); lia.
  - unfold DEBUG, INFO. lia.
  - rewrite LoggerFacts.emit_effective_level. exact Hlvl.
Qed.

End Methods.

(** ** The laws on the example logger *)

Lemma log_files_follow_memory_witness :
  exists lg' news newf,
    Summary.run_calls posix two_calls quiet_logger = (Return tt, lg')
    /\ successes lg' = successes quiet_logger ++ news
    /\ success_file lg' = Return ([] ++ news)
    /\ failures lg' = failures quiet_logger ++ newf
    /\ failure_file lg' = Return ([] ++ newf)
    /\ (length news + length newf = length two_calls)%nat.
Proof.
  exact (log_files_follow_memory posix two_calls quiet_logger [] [] eq_refl eq_refl
           eq_refl eq_refl).
Defined.

(** The line the console shows is the one Python writes:
    [Failed to write to logs/successes_20250101_000000.json: [Errno 2] No
    such file or directory: 'logs/successes_20250101_000000.json']. *)
Lemma close_writes_consistent_summary_witness :
  exists s',
    Summary.close posix whole busy_logs = (Return tt, s')
    /\ exists doc b,
         Summary.summary_file s' = Some doc
         /\ Summary.successes doc
            = Z.of_nat (length (successes (Summary.logger busy_logs)))
         /\ Summary.failures doc
            = Z.of_nat (length (failures (Summary.logger busy_logs)))
         /\ Summary.total_attempts doc = Summary.successes doc + Summary.failures doc
         /\ Summary.error_breakdown doc = Some b
         /\ Summary.breakdown_total b = Summary.failures doc
         /\ successes (Summary.logger s') = successes (Summary.logger busy_logs)
         /\ failures (Summary.logger s') = failures (Summary.logger busy_logs).
Proof.
  destruct (Summary.close posix whole busy_logs) as [[[]|e] s'] eqn:E.
  - exists s'. split; [reflexivity|].
    exact (close_writes_consistent_summary posix whole busy_logs s' E).
  - exfalso. revert E.
    unfold Summary.close, Summary.save_summary, Summary.on_logger, info. run.
    discriminate.
Defined.

Lemma unreadable_file_is_logged_witness :
  effective_level damaged_logger <= INFO
  /\ exists lg' r,
       log_success linux new_year grinning sunglasses (lit "out.png")
         (Some 250%float) None (Some 200) damaged_logger = (Return tt, lg')
       /\ successes lg' = successes damaged_logger ++ [r]
       /\ success_file lg' = Raise missing_log
       /\ debug_file lg'
          = debug_file damaged_logger
            ++ [(ERROR, lit "Failed to write to "
                        ++ path_str linux (success_file_path damaged_logger)
                        ++ lit ": " ++ exn_str linux missing_log);
                (INFO, success_line linux grinning sunglasses (lit "out.png")
                         (Some 250%float))].
Proof.
  split; [discriminate|].
  refine (unreadable_file_is_logged linux new_year grinning sunglasses
            (lit "out.png") (Some 250%float) None (Some 200) damaged_logger
            missing_log eq_refl _).
  discriminate.
Defined.

End LoggerLaws.

(* ===================================================================== *)
(** * Facts about the failure table *)
(* ===================================================================== *)

Module ReportingLaws.
Import Reporting Examples Sessions.

Lemma length_dots : length (lit "...") = 3%nat.
Proof. reflexivity. Qed.

Lemma truncate_message_bounded_aux (msg : str) :
  (length (truncate_message msg) <= 50)%nat.
Proof.
  unfold truncate_message.
  destruct (Z.ltb_spec 50 (Z.of_nat (length msg))) as [H|H]; [|lia].
  rewrite length_app, length_take, length_dots. lia.
Qed.

(** X11: the details cell never holds more than fifty characters: a message
    of up to fifty is shown as it is, a longer one is cut to its first
    forty-seven followed by three dots. *)
Theorem truncate_message_bounded (msg : str) :
  (length (truncate_message msg) <= 50)%nat
  /\ ((length msg <= 50)%nat -> truncate_message msg = msg)
  /\ ((50 < length msg)%nat ->
      length (truncate_message msg) = 50%nat
      /\ take 47 (truncate_message msg) = take 47 msg
      /\ drop 47 (truncate_message msg) = lit "...").
Proof.
  unfold truncate_message.
  destruct (Z.ltb_spec 50 (Z.of_nat (length msg))) as [H|H].
  - assert (Hl : length (take 47 msg) = 47%nat) by (rewrite length_take; lia).
    repeat split.
    + rewrite length_app, Hl, length_dots. lia.
    + intros. lia.
    + rewrite length_app, Hl, length_dots. reflexivity.
    + rewrite take_app_le by lia. rewrite take_take. f_equal.
    + rewrite drop_app_length' by (symmetry; exact Hl). reflexivity.
  - repeat split; try lia; intros; lia.
Qed.

Lemma failure_rows_some (l : list Logger.DownloadResult) :
  Forall (fun r => is_Some (Logger.error_message r)) l ->
  exists rows,
    failure_rows l = Some rows
    /\ length rows = length l
    /\ Forall (fun row => (length (details_cell row) <= 50)%nat) rows.
Proof.
  induction 1 as [|r l [m Hm] _ (rows & E & Hlen & Hall)].
  - exists []. repeat split. constructor.
  - cbn [failure_rows]. unfold failure_row. rewrite Hm, E.
    eexists. split; [reflexivity|]. split; [cbn [length]; now rewrite Hlen|].
    constructor; [|exact Hall]. cbn [details_cell].
    apply truncate_message_bounded_aux.
Qed.

Lemma failure_rows_none (l : list Logger.DownloadResult) :
  failure_rows l = None <-> Exists (fun r => Logger.error_message r = None) l.
Proof.
  induction l as [|r l IH]; cbn [failure_rows].
  - split; [discriminate | intros H; inversion H].
  - unfold failure_row. destruct (Logger.error_message r) as [m|] eqn:Hm.
    + destruct (failure_rows l) as [rows|] eqn:E.
      * split; [discriminate|]. intros H. inversion H as [? ? H1|? ? H1]; subst.
        -- congruence.
        -- apply IH in H1. discriminate.
      * split; [|reflexivity]. intros _. apply Exists_cons_tl. now apply IH.
    + split; [|reflexivity]. intros _. now apply Exists_cons_hd.
Qed.


Lemma slice_to_forall {A} (P : A -> Prop) (limit : Z) (l : list A) :
  Forall P l -> Forall P (slice_to limit l).
Proof.
  intros H. unfold slice_to. destruct (0 <=? limit); now apply Forall_take.
Qed.

Lemma print_failures_some (failures : list Logger.DownloadResult) (limit : Z) :
  Forall (fun r => is_Some (Logger.error_message r)) failures ->
  is_Some (print_failures failures limit).
Proof.
  intros H. unfold print_failures. destruct failures as [|r l]; [now eexists|].
  destruct (failure_rows_some (slice_to limit (r :: l))) as (rows & E & _).
  { now apply slice_to_forall. }
  rewrite E. now eexists.
Qed.

(** X12: [print_failures] ends in a [TypeError] exactly when one of the
    records it is about to show carries no error message; records past the
    limit are never looked at. *)
Theorem print_failures_type_error_iff
    (failures : list Logger.DownloadResult) (limit : Z) :
  print_failures failures limit = None
  <-> Exists (fun r => Logger.error_message r = None) (slice_to limit failures).
Proof.
  unfold print_failures. destruct failures as [|r l].
  - split; [discriminate|]. intros H. exfalso.
    unfold slice_to in H. destruct (0 <=? limit); rewrite take_nil in H;
      inversion H.
  - rewrite <- failure_rows_none.
    destruct (failure_rows (slice_to limit (r :: l))); split;
      (discriminate || reflexivity).
Qed.



End ReportingLaws.

(* ===================================================================== *)
(** * Facts about batch runs of the orchestrator *)
(* ===================================================================== *)

Module BatchLaws.
Import Paths Storage Client Orchestrator Batch Conditions Examples Sessions.

Section Methods.
Variable rt : Runtime.
Variable new_client : Z -> Z -> EmojiKitchenClient.

(** What one logging call does to the lists in memory, whatever the state
    of the log files. *)
Lemma run_call_memory (c : Summary.log_call) (lg : Logger.JSONLogger) :
  exists news newf,
    (Summary.run_call rt c lg).1 = Return tt
    /\ Logger.successes (Summary.run_call rt c lg).2 = Logger.successes lg ++ news
    /\ Logger.failures (Summary.run_call rt c lg).2 = Logger.failures lg ++ newf
    /\ Forall has_message newf
    /\ match c with
       | Summary.LogSuccess _ _ _ _ _ _ _ => length news = 1%nat /\ newf = []
       | Summary.LogFailure _ _ _ _ _ _ _ _ => news = [] /\ length newf = 1%nat
       end.
Proof.
  destruct c as [now e1 e2 fp d u sc | now e1 e2 k m sc d u]; cbn [Summary.run_call].
  - unfold Logger.log_success, Logger._append_to_json_file, Logger.info, Logger.error.
    LoggerFacts.run. cbn [Logger.success_file Logger.set_successes].
    destruct (Logger.success_file lg); cbn [fst snd];
      eexists [_], []; (split; [reflexivity|]);
      rewrite ?(proj1 (LoggerFacts.emit_fields _ _ _)),
              ?(proj1 (proj2 (LoggerFacts.emit_fields _ _ _)));
      cbn [Logger.successes Logger.failures Logger.set_success_file
           Logger.set_successes];
      rewrite ?app_nil_r; repeat split; constructor.
  - unfold Logger.log_failure, Logger._append_to_json_file, Logger.warning, Logger.error.
    LoggerFacts.run. cbn [Logger.failure_file Logger.set_failures].
    destruct (Logger.failure_file lg); cbn [fst snd];
      eexists [], [_]; (split; [reflexivity|]);
      rewrite ?(proj1 (LoggerFacts.emit_fields _ _ _)),
              ?(proj1 (proj2 (LoggerFacts.emit_fields _ _ _)));
      cbn [Logger.successes Logger.failures Logger.set_failure_file
           Logger.set_failures];
      rewrite ?app_nil_r; repeat split; repeat constructor; now eexists.
Qed.

Lemma same_config_refl (st : State) : same_config st st.
Proof. now repeat split. Qed.

Lemma same_config_trans (a b c : State) :
  same_config a b -> same_config b c -> same_config a c.
Proof.
  unfold same_config. intros (A1 & A2 & A3 & A4 & A5 & A6 & A7)
                             (B1 & B2 & B3 & B4 & B5 & B6 & B7).
  repeat split; congruence.
Qed.

(** Every way through [download_pair], with the state it ends in. *)
Lemma download_pair_effect (clock : Clock) (e1 e2 : str) (size : Z)
    (st st' : State) (r : result (bool * option str)) :
  download_pair rt new_client clock e1 e2 size st = (r, st') ->
  same_config st st'
  /\ ((r = Return (true, None)
       /\ skip_existing (self st) = true
       /\ (file_exists rt (storage (self st)) e1 e2 (fs st)).1 = Return true
       /\ requests st' = requests st
       /\ fs st' = fs st
       /\ stats (self st') = incr_skipped (stats (self st))
       /\ logger (self st')
          = Logger.emit Logger.INFO
              (lit "Skipped " ++ e1 ++ lit " + " ++ e2 ++ lit " (already exists)")
              (logger (self st)))
      \/ (exists e,
            r = Raise e
            /\ fs st' = fs st
            /\ stats (self st') = stats (self st)
            /\ logger (self st') = logger (self st)
            /\ (requests st' = requests st
                \/ requests st' = requests st ++ [(e1, e2, size)]))
      \/ (exists content p now fp d u sc,
            r = Return (true, None)
            /\ fetches rt st e1 e2
            /\ requests st' = requests st ++ [(e1, e2, size)]
            /\ save rt (storage (self st)) e1 e2 content (fs st)
               = (Return p, fs st')
            /\ stats (self st') = incr_successes (stats (self st))
            /\ logger (self st')
               = (Summary.run_call rt
                    (Summary.LogSuccess now e1 e2 fp d u sc) (logger (self st))).2)
      \/ (exists err now k m sc d u,
            r = Return (false, err)
            /\ fetches rt st e1 e2
            /\ requests st' = requests st ++ [(e1, e2, size)]
            /\ (fs st' = fs st
                \/ exists content e,
                     save rt (storage (self st)) e1 e2 content (fs st)
                     = (Raise e, fs st'))
            /\ stats (self st') = incr_failures (stats (self st))
            /\ logger (self st')
               = (Summary.run_call rt
                    (Summary.LogFailure now e1 e2 k m sc d u) (logger (self st))).2)).
Proof.
  destruct (OrchestratorFacts.check_cases rt e1 e2 st)
    as [[Hs He] | [(e & Hs & He) | Hpre]].
  - pose proof (OrchestratorFacts.precheck_skips rt e1 e2 st Hs He) as P.
    unfold precheck in P. unfold download_pair, Logger.info.
    OrchestratorFacts.run. rewrite P. intros [= <- <-].
    split; [now repeat split|]. left. now repeat split.
  - rewrite (OrchestratorFacts.download_pair_precheck_raises rt new_client
               clock e1 e2 size st e Hs He).
    intros [= <- <-]. split; [apply same_config_refl|].
    right. left. exists e. auto 10.
  - destruct (build_url (new_client (delay_ms (self st)) (max_concurrent (self st)))
                e1 e2 size) as [url|e] eqn:Hurl.
    2:{ rewrite (OrchestratorFacts.download_pair_url_raises rt new_client
                   clock e1 e2 size st e Hpre Hurl).
        intros [= <- <-]. split; [apply same_config_refl|].
        right. left. exists e. auto 10. }
    destruct (download_image (new_client (delay_ms (self st)) (max_concurrent (self st)))
                e1 e2 size) as [[[[success content] error] status]|e] eqn:Hresp.
    2:{ rewrite (OrchestratorFacts.download_pair_fetch_raises rt new_client
                   clock e1 e2 size st url e Hpre Hurl Hresp).
        intros [= <- <-]. split; [now repeat split|].
        right. left. exists e. cbn [set_requests fs self requests]. auto 10. }
    pose proof (OrchestratorFacts.precheck_fetches rt e1 e2 st Hpre) as P.
    unfold precheck in P. unfold download_pair. OrchestratorFacts.run.
    rewrite P, Hurl, Hresp. cbv beta iota.
    destruct (success && truthy_opt truthy_seq content) eqn:Hok.
    + cbn [fs set_requests self].
      destruct (save rt (storage (self st)) e1 e2 (default [] content) (fs st))
        as [[p|e] fs1] eqn:Hsave.
      * match goal with
        | |- context [Logger.log_success rt ?n ?a ?b ?f ?d ?u ?c ?l] =>
            destruct (LoggerFacts.log_success_fields rt n a b f d u c l)
              as (lg' & E & _);
            rewrite E; intros [= <- <-];
            (split; [now repeat split|]); right; right; left;
            exists (default [] content), p, n, f, d, u, c;
            cbn [Summary.run_call];
            cbn [logger self set_logger set_stats set_fs set_requests] in E |- *;
            rewrite E
        end.
        repeat split; auto.
      * match goal with
        | |- context [Logger.log_failure rt ?n ?a ?b ?k ?m ?c ?d ?u ?l] =>
            destruct (LoggerFacts.log_failure_fields rt n a b k m c d u l)
              as (lg' & E & _);
            rewrite E; intros [= <- <-];
            (split; [now repeat split|]); right; right; right;
            exists (Some (lit "Failed to save file: " ++ exn_str rt e)),
                   n, k, m, c, d, u;
            cbn [Summary.run_call];
            cbn [logger self set_logger set_stats set_fs set_requests] in E |- *;
            rewrite E
        end.
        repeat split; auto. right. now exists (default [] content), e.
    + match goal with
      | |- context [Logger.log_failure rt ?n ?a ?b ?k ?m ?c ?d ?u ?l] =>
          destruct (LoggerFacts.log_failure_fields rt n a b k m c d u l)
            as (lg' & E & _);
          rewrite E; intros [= <- <-];
          (split; [now repeat split|]); right; right; right;
          exists error, n, k, m, c, d, u;
          cbn [Summary.run_call];
            cbn [logger self set_logger set_stats set_fs set_requests] in E |- *;
          rewrite E
      end.
      repeat split; auto.
Qed.

Lemma progressed_refl (st : State) : progressed 0 0 st st.
Proof.
  unfold progressed. cbv zeta. split; [apply same_config_refl|].
  split; [now split|]. split; [lia|]. split; [lia|]. split; [lia|].
  split; [lia|]. split; [auto|]. split; [auto|].
  intros q e H. exists e. now repeat split.
Qed.

Lemma progressed_trans (n m x y : Z) (a b c : State) :
  progressed n x a b -> progressed m y b c -> progressed (n + m) (x + y) a c.
Proof.
  unfold progressed. cbv zeta.
  intros (A1 & [A2 A2'] & (A3 & A3' & A3'') & A4 & [A5 A5'] & A6 & A7 & A8 & A9)
         (B1 & [B2 B2'] & (B3 & B3' & B3'') & B4 & [B5 B5'] & B6 & B7 & B8 & B9).
  split; [eapply same_config_trans; eassumption|].
  split; [split; congruence|]. split; [lia|]. split; [lia|].
  split; [lia|]. split; [lia|]. split; [auto|]. split; [auto|].
  intros q e H. destruct (A9 q e H) as (e1 & H1 & K1 & S1).
  destruct (B9 q e1 H1) as (e2 & H2 & K2 & S2).
  exists e2. split; [exact H2|]. split; [now rewrite K1|].
  intros Hs. rewrite S2, S1; auto.
  destruct A1 as (_ & _ & _ & _ & -> & _). exact Hs.
Qed.

(** [save] keeps every entry of the tree but a file at the pair's own
    path, which it replaces by the new file. *)
Lemma save_keeps_entries (sm : StorageManager) (e1 e2 : str) (content : bytes)
    (fs fs' : filesystem) (r : result path) :
  save rt sm e1 e2 content fs = (r, fs') ->
  forall (q : path) (e : node),
    fs !! q = Some e ->
    exists e', fs' !! q = Some e'
               /\ (e = Dir <-> e' = Dir)
               /\ ((file_exists rt sm e1 e2 fs).1 = Return false -> e' = e).
Proof.
  unfold save, mkdir_parents_exist_ok, write_bytes. StorageLaws.run.
  destruct (get_file_path rt sm e1 e2) as [p|err] eqn:Hp.
  2:{ intros [= <- <-] q e H. exists e. now repeat split. }
  destruct (makedirs [] (parent p) fs) as [[[]|e0] fs1] eqn:M.
  2:{ intros [= <- <-] q e H. exists e.
      apply StorageLaws.makedirs_keeps in M as [K _]. split; [auto|]. now split. }
  apply StorageLaws.makedirs_keeps in M as [K _].
  assert (Same : forall (q : path) (e : node),
            fs !! q = Some e ->
            exists e', fs1 !! q = Some e'
                       /\ (e = Dir <-> e' = Dir)
                       /\ ((file_exists rt sm e1 e2 fs).1 = Return false -> e' = e)).
  { intros q e H. exists e. split; [auto|]. now split. }
  destruct (stat fs1 (parent p)) as [[c|]|]; try (intros [= <- <-]; exact Same).
  destruct (stat fs1 p) as [[c|]|] eqn:S; try (intros [= <- <-]; exact Same).
  - intros [= <- <-] q e H. destruct (decide (q = p)) as [->|Hne].
    + rewrite lookup_insert_eq. eexists. split; [reflexivity|].
      assert (Hp0 : p <> []) by (intros ->; discriminate).
      assert (E : e = File c).
      { apply K in H. destruct p; [congruence|]. cbn [stat] in S. congruence. }
      subst e. split; [split; discriminate|].
      rewrite (StorageFacts.file_exists_returns rt sm e1 e2 fs p Hp).
      cbn [fst]. unfold is_file. destruct p; [congruence|]. cbn [stat].
      rewrite H. discriminate.
    + rewrite lookup_insert_ne by congruence. exists e. split; [auto|]. now split.
  - intros [= <- <-] q e H. destruct (decide (q = p)) as [->|Hne].
    + exfalso. apply K in H. destruct p; [discriminate|]. cbn [stat] in S. congruence.
    + rewrite lookup_insert_ne by congruence. exists e. split; [auto|]. now split.
Qed.

(** What a logging call does to the logger. *)
Lemma logger_call_effect (c : Summary.log_call) (lg : Logger.JSONLogger) :
  exists news newf,
    Logger.successes (Summary.run_call rt c lg).2 = Logger.successes lg ++ news
    /\ Logger.failures (Summary.run_call rt c lg).2 = Logger.failures lg ++ newf
    /\ Forall has_message newf
    /\ match c with
       | Summary.LogSuccess _ _ _ _ _ _ _ => length news = 1%nat /\ newf = []
       | Summary.LogFailure _ _ _ _ _ _ _ _ => news = [] /\ length newf = 1%nat
       end
    /\ (forall ds df : list Logger.DownloadResult,
          files_in_step ds df lg ->
          files_in_step ds df (Summary.run_call rt c lg).2).
Proof.
  destruct (run_call_memory c lg) as (news & newf & _ & Hs & Hf & Hm & Hc).
  exists news, newf. repeat (split; [assumption|]).
  intros ds df [Fs Ff].
  destruct (LoggerLaws.run_call_persists rt c lg _ _ Fs Ff)
    as (lg' & n' & f' & E & Es & Efs & Ef & Eff & _).
  rewrite E. cbn [snd]. split.
  - now rewrite Efs, Es, app_assoc.
  - now rewrite Eff, Ef, app_assoc.
Qed.

Lemma emit_files_in_step (level : Z) (msg : str) (ds df : list Logger.DownloadResult)
    (lg : Logger.JSONLogger) :
  files_in_step ds df lg -> files_in_step ds df (Logger.emit level msg lg).
Proof.
  unfold files_in_step.
  destruct (LoggerFacts.emit_fields level msg lg) as (-> & -> & _ & -> & ->).
  auto.
Qed.

(** One call of [download_pair], in terms of [progressed]. *)
Lemma download_pair_progressed (clock : Clock) (e1 e2 : str) (size : Z)
    (st st' : State) (r : result (bool * option str)) :
  download_pair rt new_client clock e1 e2 size st = (r, st') ->
  match r with
  | Return _ => progressed 1 0 st st'
  | Raise _ => progressed 0 0 st st' \/ progressed 0 1 st st'
  end.
Proof.
  intros H. apply download_pair_effect in H as [Hcfg H].
  destruct H as [(-> & Hs & He & Hreq & Hfs & Hst & Hlg)
                | [(e & -> & Hfs & Hst & Hlg & Hreq)
                | [(content & p & now & fp & d & u & sc & -> & Hpre & Hreq & Hsave
                    & Hst & Hlg)
                | (err & now & k & m & sc & d & u & -> & Hpre & Hreq & Hfs
                   & Hst & Hlg)]]].
  - (* skipped *)
    unfold progressed. cbv zeta. rewrite Hst, Hlg, Hreq, Hfs.
    destruct (LoggerFacts.emit_fields Logger.INFO
                (lit "Skipped " ++ e1 ++ lit " + " ++ e2 ++ lit " (already exists)")
                (logger (self st))) as (-> & -> & _).
    unfold handled. cbn [total successes failures skipped duration_seconds incr_skipped].
    split; [exact Hcfg|]. split; [now split|]. split; [lia|]. split; [lia|].
    split; [lia|]. split; [lia|]. split; [auto|].
    split; [intros ds df; apply emit_files_in_step|].
    intros q e Hq. exists e. now repeat split.
  - (* raised *)
    assert (P : forall x : Z,
              Z.of_nat (length (requests st')) = Z.of_nat (length (requests st)) + x ->
              progressed 0 x st st').
    { intros x Hx. unfold progressed. cbv zeta. rewrite Hst, Hlg, Hfs.
      split; [exact Hcfg|]. split; [now split|]. split; [lia|]. split; [lia|].
      split; [lia|]. split; [lia|]. split; [auto|]. split; [auto|].
      intros q n Hq. exists n. now repeat split. }
    destruct Hreq as [Hreq|Hreq]; [left | right]; apply P; rewrite Hreq.
    + lia.
    + rewrite length_app. cbn [length]. lia.
  - (* saved *)
    destruct (logger_call_effect
                (Summary.LogSuccess now e1 e2 fp d u sc) (logger (self st)))
      as (news & newf & Es & Ef & Hm & [Hn ->] & Hfiles).
    rewrite <- Hlg in Es, Ef, Hfiles.
    unfold progressed. cbv zeta. rewrite Hst, Es, Ef, Hreq, !length_app, Hn.
    unfold handled. cbn [total successes failures skipped duration_seconds
                         incr_successes length].
    split; [exact Hcfg|]. split; [now split|]. split; [lia|]. split; [lia|].
    split; [lia|]. split; [lia|].
    split; [rewrite app_nil_r; auto|]. split; [exact Hfiles|].
    intros q e Hq.
    destruct (save_keeps_entries _ _ _ _ _ _ _ Hsave q e Hq) as (e' & H1 & H2 & H3).
    exists e'. split; [exact H1|]. split; [exact H2|].
    intros Hskip. apply H3. destruct Hpre as [Hpre|Hpre]; congruence.
  - (* failed *)
    destruct (logger_call_effect
                (Summary.LogFailure now e1 e2 k m sc d u) (logger (self st)))
      as (news & newf & Es & Ef & Hm & [-> Hn] & Hfiles).
    rewrite <- Hlg in Es, Ef, Hfiles.
    unfold progressed. cbv zeta. rewrite Hst, Es, Ef, Hreq, !length_app, Hn.
    unfold handled. cbn [total successes failures skipped duration_seconds
                         incr_failures length].
    split; [exact Hcfg|]. split; [now split|]. split; [lia|]. split; [lia|].
    split; [lia|]. split; [lia|].
    split; [intros Hall; apply Forall_app; auto|]. split; [exact Hfiles|].
    intros q e Hq. destruct Hfs as [Hfs | (content & e0 & Hsave)].
    + rewrite Hfs. exists e. now repeat split.
    + destruct (save_keeps_entries _ _ _ _ _ _ _ Hsave q e Hq) as (e' & H1 & H2 & H3).
      exists e'. split; [exact H1|]. split; [exact H2|].
      intros Hskip. apply H3. destruct Hpre as [Hpre|Hpre]; congruence.
Qed.

(** A picture that is on disk is still there after any progress. *)
Lemma file_exists_kept (n x : Z) (st st' : State) (e1 e2 : str) :
  progressed n x st st' ->
  (file_exists rt (storage (self st)) e1 e2 (fs st)).1 = Return true ->
  (file_exists rt (storage (self st')) e1 e2 (fs st')).1 = Return true.
Proof.
  intros (Hcfg & _ & _ & _ & _ & _ & _ & _ & Hkeep) H.
  destruct Hcfg as (_ & _ & _ & _ & _ & _ & ->).
  destruct (get_file_path rt (storage (self st)) e1 e2) as [p|e] eqn:Hp.
  2:{ rewrite (StorageFacts.file_exists_raises rt _ e1 e2 _ e Hp) in H.
      discriminate. }
  rewrite (StorageFacts.file_exists_returns rt _ e1 e2 (fs st) p Hp) in H.
  rewrite (StorageFacts.file_exists_returns rt _ e1 e2 (fs st') p Hp).
  cbn [fst] in *. injection H as H. f_equal. unfold is_file in *.
  destruct p as [|c p]; [discriminate|]. cbn [stat] in *.
  destruct (fs st !! (c :: p)) as [[content|]|] eqn:E; try discriminate.
  destruct (Hkeep _ _ E) as (e' & -> & K & _).
  destruct e'; [reflexivity|]. now pose proof (proj2 K eq_refl).
Qed.

Lemma download_pair_true_means_on_disk_aux (clock : Clock) (e1 e2 : str) (size : Z)
    (st st' : State) (err : option str) :
  download_pair rt new_client clock e1 e2 size st = (Return (true, err), st') ->
  (file_exists rt (storage (self st')) e1 e2 (fs st')).1 = Return true
  /\ err = None.
Proof.
  intros H. apply download_pair_effect in H as [Hcfg H].
  destruct Hcfg as (_ & _ & _ & _ & _ & _ & Hsm).
  destruct H as [(Hr & Hs & He & Hreq & Hfs & Hst & Hlg)
                | [(e & Hr & _)
                | [(content & p & now & fp & d & u & sc & Hr & Hpre & Hreq & Hsave & _)
                | (err' & now & k & m & sc & d & u & Hr & _)]]];
    try discriminate.
  - injection Hr as <-. split; [|reflexivity]. now rewrite Hsm, Hfs.
  - injection Hr as <-. split; [|reflexivity]. rewrite Hsm.
    apply StorageFacts.save_returns in Hsave as [Hp Hf].
    rewrite (StorageFacts.file_exists_returns rt _ e1 e2 _ p Hp). cbn [fst].
    f_equal. unfold is_file.
    pose proof (StorageFacts.get_file_path_nonempty rt _ _ _ _ Hp) as Hne.
    destruct p; [congruence|]. cbn [stat]. now rewrite Hf.
Qed.

(** X14: when [download_pair] answers success, the picture of the pair is
    on disk, as a regular file at the path the storage manager resolves,
    and no error text comes with the answer. *)
Theorem download_pair_true_means_on_disk (clock : Clock) (e1 e2 : str) (size : Z)
    (st st' : State) (err : option str) :
  download_pair rt new_client clock e1 e2 size st = (Return (true, err), st') ->
  (file_exists rt (storage (self st')) e1 e2 (fs st')).1 = Return true
  /\ err = None.
Proof. apply download_pair_true_means_on_disk_aux. Qed.

Variable format_percent : Z -> Z -> str.
Variable clock_at : nat -> Clock.

(** The loop of [download_batch], in terms of [progressed]. *)
Lemma download_each_progressed (emoji_pairs : list (str * str)) (size : Z) :
  forall (i : nat) (st st' : State) (r : result unit),
    download_each rt new_client clock_at i emoji_pairs size st = (r, st') ->
    match r with
    | Return _ => progressed (Z.of_nat (length emoji_pairs)) 0 st st'
    | Raise _ =>
        exists k x : Z,
          0 <= k < Z.of_nat (length emoji_pairs) /\ 0 <= x <= 1
          /\ progressed k x st st'
    end.
Proof.
  induction emoji_pairs as [|[e1 e2] rest IH]; intros i st st' r;
    cbn [download_each].
  - unfold ret. intros [= <- <-]. apply progressed_refl.
  - unfold bind.
    destruct (download_pair rt new_client (clock_at i) e1 e2 size st)
      as [[res|e] st1] eqn:E; apply download_pair_progressed in E.
    + intros H. apply IH in H. destruct r as [[]|e].
      * replace (Z.of_nat (length ((e1, e2) :: rest)))
          with (1 + Z.of_nat (length rest)) by (cbn [length]; lia).
        change 0 with (0 + 0). eapply progressed_trans; eassumption.
      * destruct H as (k & x & Hk & Hx & H).
        exists (1 + k), (0 + x). cbn [length]. split; [lia|]. split; [lia|].
        eapply progressed_trans; eassumption.
    + intros [= <- <-]. cbn [length].
      destruct E as [E|E]; [exists 0, 0 | exists 0, 1]; (split; [lia|]);
        (split; [lia | exact E]).
Qed.

(** With skipping on and every picture on disk, the loop only skips. *)
Lemma download_each_all_skipped (emoji_pairs : list (str * str)) (size : Z) :
  forall (i : nat) (st : State),
    skip_existing (self st) = true ->
    all_on_disk rt st emoji_pairs ->
    exists st',
      download_each rt new_client clock_at i emoji_pairs size st = (Return tt, st')
      /\ fs st' = fs st
      /\ requests st' = requests st
      /\ skipped (stats (self st'))
         = skipped (stats (self st)) + Z.of_nat (length emoji_pairs)
      /\ successes (stats (self st')) = successes (stats (self st))
      /\ failures (stats (self st')) = failures (stats (self st)).
Proof.
  induction emoji_pairs as [|[e1 e2] rest IH]; intros i st Hskip Hall;
    cbn [download_each].
  - exists st. unfold ret. cbn [length]. repeat split; lia.
  - unfold bind. inversion Hall as [|? ? Hhd Htl]; subst. cbn [fst snd] in Hhd.
    destruct (OrchestratorFacts.download_pair_skips rt new_client (clock_at i)
                e1 e2 size st Hskip Hhd)
      as (st1 & E & Hreq & Hfs & Hst & _).
    rewrite E.
    pose proof (download_pair_effect _ _ _ _ _ _ _ E) as [Hcfg _].
    destruct Hcfg as (_ & _ & _ & _ & Hsk1 & _ & Hsm1).
    destruct (IH (S i) st1) as (st' & E' & Hfs' & Hreq' & Hsk' & Hsu' & Hfa').
    { congruence. }
    { unfold all_on_disk in *. rewrite Hsm1, Hfs. exact Htl. }
    exists st'. split; [exact E'|].
    rewrite Hfs', Hreq', Hsk', Hsu', Hfa', Hst. cbn [length].
    cbn [skipped successes failures incr_skipped].
    repeat split; try congruence. lia.
Qed.

(** A loop that returns without a new failure leaves every picture of
    the list on disk. *)
Lemma download_each_all_saved (emoji_pairs : list (str * str)) (size : Z) :
  forall (i : nat) (st st' : State),
    download_each rt new_client clock_at i emoji_pairs size st = (Return tt, st') ->
    failures (stats (self st')) = failures (stats (self st)) ->
    all_on_disk rt st' emoji_pairs.
Proof.
  induction emoji_pairs as [|[e1 e2] rest IH]; intros i st st';
    cbn [download_each]; [constructor|].
  unfold bind.
  destruct (download_pair rt new_client (clock_at i) e1 e2 size st)
    as [[[ok err]|e] st1] eqn:E; [|discriminate].
  intros H Hf.
  pose proof (download_pair_progressed _ _ _ _ _ _ _ E) as P1.
  pose proof (download_each_progressed _ _ _ _ _ _ H) as P2.
  cbv beta iota in P1, P2.
  assert (Hf1 : failures (stats (self st1)) = failures (stats (self st))).
  { destruct P1 as (_ & _ & (_ & A & _) & _).
    destruct P2 as (_ & _ & (_ & B & _) & _). lia. }
  constructor; [|eapply IH; [exact H | congruence]].
  cbn [fst snd]. eapply file_exists_kept; [exact P2|].
  destruct ok.
  - exact (proj1 (download_pair_true_means_on_disk_aux _ _ _ _ _ _ _ E)).
  - exfalso. apply download_pair_effect in E as [_ E].
    destruct E as [(Hr & _) | [(e & Hr & _)
                  | [(c & p & now & fp & d & u & sc & Hr & _)
                  | (err' & now & k & m & sc & d & u & _ & _ & _ & _ & Hst & _)]]];
      try discriminate.
    rewrite Hst in Hf1. cbn [failures incr_failures] in Hf1. lia.
Qed.

(** ** [download_batch] *)

Lemma batch_begin_facts (emoji_pairs : list (str * str)) (st : State) :
  same_config st (batch_begin emoji_pairs st)
  /\ stats (self (batch_begin emoji_pairs st))
     = new_stats (Z.of_nat (length emoji_pairs))
  /\ fs (batch_begin emoji_pairs st) = fs st
  /\ requests (batch_begin emoji_pairs st) = requests st
  /\ Logger.successes (logger (self (batch_begin emoji_pairs st)))
     = Logger.successes (logger (self st))
  /\ Logger.failures (logger (self (batch_begin emoji_pairs st)))
     = Logger.failures (logger (self st))
  /\ (forall ds df : list Logger.DownloadResult,
        files_in_step ds df (logger (self st)) ->
        files_in_step ds df (logger (self (batch_begin emoji_pairs st)))).
Proof.
  unfold batch_begin. cbv zeta.
  cbn [self logger stats fs requests set_logger set_stats].
  split; [now repeat split|]. split; [reflexivity|].
  split; [reflexivity|]. split; [reflexivity|].
  split; [apply LoggerFacts.emit_fields|].
  split; [apply LoggerFacts.emit_fields|].
  intros ds df. apply emit_files_in_step.
Qed.

Lemma close_logger_effect (s : Session) :
  exists doc,
    summary_file (close_logger rt format_percent s) = Some doc
    /\ Summary.successes doc
       = Z.of_nat (length (Logger.successes (logger (self (state s)))))
    /\ Summary.failures doc
       = Z.of_nat (length (Logger.failures (logger (self (state s)))))
    /\ Summary.total_attempts doc = Summary.successes doc + Summary.failures doc
    /\ fs (state (close_logger rt format_percent s)) = fs (state s)
    /\ requests (state (close_logger rt format_percent s)) = requests (state s)
    /\ stats (self (state (close_logger rt format_percent s)))
       = stats (self (state s))
    /\ same_config (state s) (state (close_logger rt format_percent s))
    /\ (forall ds df : list Logger.DownloadResult,
          files_in_step ds df (logger (self (state s))) ->
          files_in_step ds df
            (logger (self (state (close_logger rt format_percent s))))).
Proof.
  unfold close_logger, Summary.close, Summary.save_summary, Summary.on_logger,
    Logger.info.
  LoggerLaws.run.
  cbn [Summary.logger Summary.summary_file Summary.set_logger snd state
       summary_file self logger stats fs requests set_logger].
  eexists. split; [reflexivity|].
  cbn [Summary.with_breakdown Summary.get_summary Summary.successes
       Summary.failures Summary.total_attempts].
  repeat (split; [reflexivity|]). split; [now repeat split|].
  intros ds df H. now do 2 apply emit_files_in_step.
Qed.

(** [download_batch], with its loop named. *)
Lemma download_batch_unfold (time_begin time_end : float)
    (emoji_pairs : list (str * str)) (size : Z) (s : Session) :
  download_batch rt new_client format_percent clock_at time_begin time_end
    emoji_pairs size s
  = match download_each rt new_client clock_at 0 emoji_pairs size
            (batch_begin emoji_pairs (state s)) with
    | (Raise e, st2) =>
        (Propagated e, {| state := st2; summary_file := summary_file s |})
    | (Return _, st2) =>
        let st3 := set_stats (set_duration (PrimFloat.sub time_end time_begin)
                                (stats (self st2))) st2 in
        match Reporting.print_failures (Logger.failures (logger (self st3))) 20 with
        | None => (TypeError, {| state := st3; summary_file := summary_file s |})
        | Some _ =>
            let s' := close_logger rt format_percent
                        {| state := st3; summary_file := summary_file s |} in
            (Returned (stats (self (state s'))), s')
        end
    end.
Proof. reflexivity. Qed.

(** Setting the duration is progress of no pair. *)
Lemma set_duration_progressed (d : float) (n x : Z) (st st2 : State) :
  progressed n x st st2 ->
  let st3 := set_stats (set_duration d (stats (self st2))) st2 in
  same_config st st3
  /\ total (stats (self st3)) = total (stats (self st))
  /\ duration_seconds (stats (self st3)) = d
  /\ (successes (stats (self st)) <= successes (stats (self st3))
      /\ failures (stats (self st)) <= failures (stats (self st3))
      /\ skipped (stats (self st)) <= skipped (stats (self st3)))
  /\ handled (stats (self st3)) = handled (stats (self st)) + n
  /\ logger (self st3) = logger (self st2)
  /\ fs st3 = fs st2
  /\ requests st3 = requests st2
  /\ successes (stats (self st3)) = successes (stats (self st2))
  /\ failures (stats (self st3)) = failures (stats (self st2)).
Proof.
  intros (Hcfg & [Ht _] & Hmono & Hh & _). cbv zeta.
  cbn [self stats logger fs requests set_stats].
  unfold handled in *.
  cbn [total successes failures skipped duration_seconds set_duration].
  split; [exact Hcfg|]. now repeat split.
Qed.

(** In the model, a batch whose loop returns and whose failure records
    all carry a message returns. *)
Lemma download_batch_returns (time_begin time_end : float)
    (emoji_pairs : list (str * str)) (size : Z) (s : Session) (st2 : State) :
  Forall has_message (Logger.failures (logger (self (state s)))) ->
  download_each rt new_client clock_at 0 emoji_pairs size
    (batch_begin emoji_pairs (state s)) = (Return tt, st2) ->
  exists out s',
    download_batch rt new_client format_percent clock_at time_begin time_end
      emoji_pairs size s = (Returned out, s').
Proof.
  intros Hmsg E. rewrite download_batch_unfold, E. cbv zeta.
  destruct (batch_begin_facts emoji_pairs (state s))
    as (_ & _ & _ & _ & _ & Hf0 & _).
  apply download_each_progressed in E.
  destruct E as (_ & _ & _ & _ & _ & _ & Hkeep & _).
  destruct (ReportingLaws.print_failures_some
              (Logger.failures (logger (self
                 (set_stats (set_duration (PrimFloat.sub time_end time_begin)
                               (stats (self st2))) st2)))) 20) as [out PF].
  { cbn [self logger set_stats]. apply Hkeep. now rewrite Hf0. }
  rewrite PF. eauto.
Qed.

(** X15: [download_batch] starts its statistics afresh and accounts for
    every pair.  However it ends, [total] is the number of pairs given and
    no more pairs than that are handled.  When it returns, the statistics
    it returns are those it keeps, successes + failures + skipped is the
    number of pairs, the duration is the difference of the two clock
    readings, and the summary file counts the records of the logger:
    those it held before plus the new successes and failures (skips are
    not in it). *)
Theorem download_batch_accounting (time_begin time_end : float)
    (emoji_pairs : list (str * str)) (size : Z) (s : Session) :
  let '(r, s') := download_batch rt new_client format_percent clock_at
                    time_begin time_end emoji_pairs size s in
  total (stats (self (state s'))) = Z.of_nat (length emoji_pairs)
  /\ 0 <= handled (stats (self (state s'))) <= Z.of_nat (length emoji_pairs)
  /\ match r with
     | Returned out =>
         out = stats (self (state s'))
         /\ handled out = Z.of_nat (length emoji_pairs)
         /\ (0 <= successes out /\ 0 <= failures out /\ 0 <= skipped out)
         /\ duration_seconds out = PrimFloat.sub time_end time_begin
         /\ exists doc,
              summary_file s' = Some doc
              /\ Summary.successes doc
                 = Z.of_nat (length (Logger.successes (logger (self (state s)))))
                   + successes out
              /\ Summary.failures doc
                 = Z.of_nat (length (Logger.failures (logger (self (state s)))))
                   + failures out
              /\ Summary.total_attempts doc
                 = Summary.successes doc + Summary.failures doc
     | _ => True
     end.
Proof.
  rewrite download_batch_unfold.
  destruct (batch_begin_facts emoji_pairs (state s))
    as (Hc0 & Hst0 & Hfs0 & Hreq0 & Hs0 & Hf0 & Hfiles0).
  destruct (download_each rt new_client clock_at 0 emoji_pairs size
              (batch_begin emoji_pairs (state s))) as [[[]|e] st2] eqn:E;
    apply download_each_progressed in E.
  - cbv zeta.
    destruct (set_duration_progressed (PrimFloat.sub time_end time_begin) _ _ _ _ E)
      as (Hc & Ht & Hd & (M1 & M2 & M3) & Hh & Hlg & Hfs & Hreq & Hsu & Hfa).
    destruct E as (_ & _ & _ & _ & [R1 R2] & _ & Hkeep & _).
    rewrite Hst0 in *. unfold handled in *.
    cbn [total successes failures skipped new_stats] in *.
    destruct (Reporting.print_failures _ 20) as [out|].
    + destruct (close_logger_effect
                  {| state := set_stats (set_duration (PrimFloat.sub time_end time_begin)
                                           (stats (self st2))) st2;
                     summary_file := summary_file s |})
        as (doc & Hdoc & Ds & Df & Dt & _ & _ & Hst & _).
      cbn [state] in *. rewrite Hst.
      split; [exact Ht|]. split; [lia|].
      split; [reflexivity|]. split; [lia|]. split; [lia|].
      split; [exact Hd|]. exists doc. split; [exact Hdoc|].
      rewrite Ds, Df, Hlg, R1, R2, Hs0, Hf0, Hsu, Hfa in *.
      repeat split; lia.
    + cbn [state]. split; [exact Ht|]. split; [lia | exact I].
  - destruct E as (k & x & Hk & _ & (_ & [Ht _] & (M1 & M2 & M3) & Hh & _)).
    cbn [state summary_file]. rewrite Hst0 in *. unfold handled in *.
    cbn [total successes failures skipped new_stats] in *.
    split; [exact Ht|]. split; [lia | exact I].
Qed.

(** X16: during [download_batch] the orchestrator calls the client's
    [download_image] once for each pair it counts as a success or as a
    failure and never for a pair it skips, so never more often than there
    are pairs; when a pair raises, at most the call for that pair has
    been made besides.  (How many HTTP requests the client makes of one
    call is the client's business.) *)
Theorem download_batch_one_call_per_fetch (time_begin time_end : float)
    (emoji_pairs : list (str * str)) (size : Z) (s : Session) :
  let '(r, s') := download_batch rt new_client format_percent clock_at
                    time_begin time_end emoji_pairs size s in
  let out := stats (self (state s')) in
  let sent := Z.of_nat (length (requests (state s')))
              - Z.of_nat (length (requests (state s))) in
  match r with
  | Propagated _ =>
      successes out + failures out <= sent <= successes out + failures out + 1
  | _ => sent = successes out + failures out
  end
  /\ sent <= Z.of_nat (length emoji_pairs).
Proof.
  rewrite download_batch_unfold.
  destruct (batch_begin_facts emoji_pairs (state s))
    as (Hc0 & Hst0 & Hfs0 & Hreq0 & Hs0 & Hf0 & Hfiles0).
  destruct (download_each rt new_client clock_at 0 emoji_pairs size
              (batch_begin emoji_pairs (state s))) as [[[]|e] st2] eqn:E;
    apply download_each_progressed in E.
  - cbv zeta.
    destruct (set_duration_progressed (PrimFloat.sub time_end time_begin) _ _ _ _ E)
      as (Hc & Ht & Hd & (M1 & M2 & M3) & Hh & Hlg & Hfs & Hreq & Hsu & Hfa).
    destruct E as (_ & _ & _ & _ & _ & Hsent & _).
    rewrite Hst0, Hreq0 in *. unfold handled in *.
    cbn [total successes failures skipped new_stats] in *.
    destruct (close_logger_effect
                {| state := set_stats (set_duration (PrimFloat.sub time_end time_begin)
                                         (stats (self st2))) st2;
                   summary_file := summary_file s |})
      as (doc & _ & _ & _ & _ & _ & Hrq & Hst & _).
    cbn [state] in *.
    destruct (Reporting.print_failures _ 20); cbn [state];
      rewrite ?Hst, ?Hrq, Hreq, Hsu, Hfa; lia.
  - destruct E as (k & x & Hk & Hx & (_ & _ & (M1 & M2 & M3) & Hh & _ & Hsent & _)).
    cbn [state]. rewrite Hst0, Hreq0 in *. unfold handled in *.
    cbn [total successes failures skipped new_stats] in *. lia.
Qed.

(** X18: whatever the tree of pictures holds before [download_batch] it
    holds after it, however the batch ends: a directory stays a directory
    and a file stays a file; with [skip_existing] on, every file also
    keeps its content.  (The tree is the one the storage manager works
    on; the files the logger keeps for itself are not part of it.) *)
Theorem batch_keeps_the_picture_tree (time_begin time_end : float)
    (emoji_pairs : list (str * str)) (size : Z) (s : Session)
    (q : path) (e : node) :
  fs (state s) !! q = Some e ->
  exists e',
    fs (state (download_batch rt new_client format_percent clock_at
                 time_begin time_end emoji_pairs size s).2) !! q = Some e'
    /\ (e = Dir <-> e' = Dir)
    /\ (skip_existing (self (state s)) = true -> e' = e).
Proof.
  intros H. rewrite download_batch_unfold.
  destruct (batch_begin_facts emoji_pairs (state s))
    as (Hc0 & _ & Hfs0 & _).
  rewrite <- Hfs0 in H.
  assert (Hsk : skip_existing (self (batch_begin emoji_pairs (state s)))
                = skip_existing (self (state s))) by apply Hc0.
  rewrite <- Hsk.
  destruct (download_each rt new_client clock_at 0 emoji_pairs size
              (batch_begin emoji_pairs (state s))) as [[[]|e0] st2] eqn:E;
    apply download_each_progressed in E.
  - cbv zeta. destruct E as (_ & _ & _ & _ & _ & _ & _ & _ & Hkeep).
    destruct (close_logger_effect
                {| state := set_stats (set_duration (PrimFloat.sub time_end time_begin)
                                         (stats (self st2))) st2;
                   summary_file := summary_file s |})
      as (doc & _ & _ & _ & _ & Hfs & _).
    cbn [state] in Hfs.
    destruct (Reporting.print_failures _ 20); cbn [snd state];
      rewrite ?Hfs; cbn [fs set_stats]; now apply Hkeep.
  - destruct E as (k & x & _ & _ & (_ & _ & _ & _ & _ & _ & _ & _ & Hkeep)).
    cbn [snd state]. now apply Hkeep.
Qed.

Lemma download_batch_rerun (time_begin time_end : float)
    (emoji_pairs : list (str * str)) (size : Z) (s : Session) :
  skip_existing (self (state s)) = true ->
  all_on_disk rt (state s) emoji_pairs ->
  Forall has_message (Logger.failures (logger (self (state s)))) ->
  exists out s',
    download_batch rt new_client format_percent clock_at time_begin time_end
      emoji_pairs size s = (Returned out, s')
    /\ skipped out = Z.of_nat (length emoji_pairs)
    /\ successes out = 0 /\ failures out = 0
    /\ requests (state s') = requests (state s)
    /\ fs (state s') = fs (state s).
Proof.
  intros Hskip Hall Hmsg. rewrite download_batch_unfold.
  destruct (batch_begin_facts emoji_pairs (state s))
    as (Hc0 & Hst0 & Hfs0 & Hreq0 & Hs0 & Hf0 & Hfiles0).
  destruct (download_each_all_skipped emoji_pairs size 0
              (batch_begin emoji_pairs (state s)))
    as (st2 & E & Hfs2 & Hreq2 & Hsk2 & Hsu2 & Hfa2).
  { destruct Hc0 as (_ & _ & _ & _ & -> & _). exact Hskip. }
  { unfold all_on_disk in *. destruct Hc0 as (_ & _ & _ & _ & _ & _ & ->).
    now rewrite Hfs0. }
  rewrite E. pose proof (download_each_progressed _ _ _ _ _ _ E) as P.
  cbv beta iota zeta in P |- *.
  destruct (set_duration_progressed (PrimFloat.sub time_end time_begin) _ _ _ _ P)
    as (Hc & Ht & Hd & _ & _ & Hlg & Hfs & Hreq & Hsu & Hfa).
  destruct P as (_ & _ & _ & _ & _ & _ & Hkeep & _).
  destruct (ReportingLaws.print_failures_some
              (Logger.failures (logger (self
                 (set_stats (set_duration (PrimFloat.sub time_end time_begin)
                               (stats (self st2))) st2)))) 20) as [out PF].
  { rewrite Hlg. apply Hkeep. now rewrite Hf0. }
  rewrite PF.
  destruct (close_logger_effect
              {| state := set_stats (set_duration (PrimFloat.sub time_end time_begin)
                                       (stats (self st2))) st2;
                 summary_file := summary_file s |})
    as (doc & _ & _ & _ & _ & Hfs3 & Hrq3 & Hst3 & _).
  cbn [state] in *.
  eexists _, _. split; [reflexivity|].
  rewrite Hst3, Hfs3, Hrq3, Hfs, Hreq, Hfs2, Hreq2, Hfs0, Hreq0.
  cbn [skipped successes failures set_stats set_duration self stats].
  rewrite Hsk2, Hsu2, Hfa2, Hst0. cbn [skipped successes failures new_stats].
  repeat split; lia.
Qed.

(** X19: run again with [skip_existing] on over pairs whose pictures are
    all on disk, [download_batch] never calls the client and leaves the
    tree of pictures as it is, however it ends; and when it returns, it
    has counted every pair as skipped and none as a success or a
    failure. *)
Theorem rerun_downloads_nothing (time_begin time_end : float)
    (emoji_pairs : list (str * str)) (size : Z) (s : Session) :
  skip_existing (self (state s)) = true ->
  all_on_disk rt (state s) emoji_pairs ->
  let '(r, s') := download_batch rt new_client format_percent clock_at
                    time_begin time_end emoji_pairs size s in
  requests (state s') = requests (state s)
  /\ fs (state s') = fs (state s)
  /\ match r with
     | Returned out =>
         skipped out = Z.of_nat (length emoji_pairs)
         /\ successes out = 0 /\ failures out = 0
     | _ => True
     end.
Proof.
  intros Hskip Hall. rewrite download_batch_unfold.
  destruct (batch_begin_facts emoji_pairs (state s))
    as (Hc0 & Hst0 & Hfs0 & Hreq0 & Hs0 & Hf0 & Hfiles0).
  destruct (download_each_all_skipped emoji_pairs size 0
              (batch_begin emoji_pairs (state s)))
    as (st2 & E & Hfs2 & Hreq2 & Hsk2 & Hsu2 & Hfa2).
  { destruct Hc0 as (_ & _ & _ & _ & -> & _). exact Hskip. }
  { unfold all_on_disk in *. destruct Hc0 as (_ & _ & _ & _ & _ & _ & ->).
    now rewrite Hfs0. }
  rewrite E. cbv beta iota zeta.
  destruct (close_logger_effect
              {| state := set_stats (set_duration (PrimFloat.sub time_end time_begin)
                                       (stats (self st2))) st2;
                 summary_file := summary_file s |})
    as (doc & _ & _ & _ & _ & Hfs3 & Hrq3 & Hst3 & _).
  cbn [state] in *.
  destruct (Reporting.print_failures _ 20) as [out|]; cbn [state].
  - rewrite Hst3, Hfs3, Hrq3.
    cbn [skipped successes failures set_stats set_duration self stats fs requests].
    rewrite Hfs2, Hreq2, Hfs0, Hreq0, Hsk2, Hsu2, Hfa2, Hst0.
    cbn [skipped successes failures new_stats]. repeat split; lia.
  - cbn [set_stats fs requests]. rewrite Hfs2, Hreq2, Hfs0, Hreq0. now repeat split.
Qed.

(** X20: a batch that returns with no failure counted leaves the picture
    of every pair of the list on disk. *)
Theorem batch_without_failures_has_every_picture (time_begin time_end : float)
    (emoji_pairs : list (str * str)) (size : Z) (s s' : Session)
    (out : DownloadStats) :
  download_batch rt new_client format_percent clock_at time_begin time_end
    emoji_pairs size s = (Returned out, s') ->
  failures out = 0 ->
  all_on_disk rt (state s') emoji_pairs.
Proof.
  rewrite download_batch_unfold.
  destruct (batch_begin_facts emoji_pairs (state s))
    as (Hc0 & Hst0 & Hfs0 & Hreq0 & Hs0 & Hf0 & Hfiles0).
  destruct (download_each rt new_client clock_at 0 emoji_pairs size
              (batch_begin emoji_pairs (state s))) as [[[]|e] st2] eqn:E;
    [|discriminate].
  cbv zeta.
  destruct (close_logger_effect
              {| state := set_stats (set_duration (PrimFloat.sub time_end time_begin)
                                       (stats (self st2))) st2;
                 summary_file := summary_file s |})
    as (doc & _ & _ & _ & _ & Hfs3 & _ & Hst3 & Hc3 & _).
  cbn [state] in *.
  destruct (Reporting.print_failures _ 20); [|discriminate].
  intros [= <- <-] Hfail.
  cbn [failures set_stats set_duration self stats] in Hfail.
  assert (A : all_on_disk rt st2 emoji_pairs).
  { eapply download_each_all_saved; [exact E|].
    rewrite Hst0. cbn [failures new_stats]. exact Hfail. }
  unfold all_on_disk in *. rewrite Hfs3.
  destruct Hc3 as (_ & _ & _ & _ & _ & _ & ->).
  exact A.
Qed.

(** X21: when [download_single] returns true, the picture of the pair is
    on disk and the summary of the session has been written; an exception
    of [download_pair] propagates, with no summary written. *)
Theorem download_single_true_means_on_disk (clock : Clock) (e1 e2 : str)
    (size : Z) (s : Session) :
  match download_single rt new_client format_percent clock e1 e2 size s with
  | (Returned ok, s') =>
      is_Some (summary_file s')
      /\ (ok = true ->
          (file_exists rt (storage (self (state s'))) e1 e2 (fs (state s'))).1
          = Return true)
  | (Propagated _, s') => summary_file s' = summary_file s
  | (TypeError, _) => False
  end.
Proof.
  unfold download_single.
  destruct (download_pair rt new_client clock e1 e2 size (state s))
    as [[[ok err]|e] st1] eqn:E; [|reflexivity].
  destruct (close_logger_effect {| state := st1; summary_file := summary_file s |})
    as (doc & Hdoc & _ & _ & _ & Hfs & _ & _ & Hcfg & _).
  cbn [state] in *. split; [rewrite Hdoc; now eexists|].
  intros ->. rewrite Hfs. destruct Hcfg as (_ & _ & _ & _ & _ & _ & ->).
  exact (proj1 (download_pair_true_means_on_disk_aux _ _ _ _ _ _ _ E)).
Qed.

End Methods.

(** ** The laws on the example sessions *)

Lemma overwriting_fetches :
  fetches posix (overwriting tree_with_file) grinning sunglasses.
Proof. now left. Qed.

Lemma download_pair_true_means_on_disk_witness :
  exists st',
    download_pair posix generous clock0 grinning sunglasses 512
      (overwriting tree_with_file) = (Return (true, None), st')
    /\ (file_exists posix (storage (self st')) grinning sunglasses (fs st')).1
       = Return true
    /\ @None str = None.
Proof.
  destruct (OrchestratorFacts.download_pair_saved posix generous clock0
              grinning sunglasses 512 (overwriting tree_with_file) _ true
              (Some png_bytes) None (Some 200) grin_cool_png _
              overwriting_fetches eq_refl eq_refl eq_refl
              StorageFacts.save_over_file) as (st' & E & _).
  exists st'. split; [exact E|].
  exact (download_pair_true_means_on_disk posix generous clock0 grinning
           sunglasses 512 (overwriting tree_with_file) st' None E).
Defined.

Lemma quiet_logger_messages :
  Forall has_message (Logger.failures (logger (self (on_tree tree_with_file)))).
Proof. constructor. Qed.

Lemma one_pair_on_disk : all_on_disk posix (on_tree tree_with_file) one_pair.
Proof.
  constructor; [exact OrchestratorFacts.full_tree_has_file | constructor].
Qed.

(** A batch of one pair that is fetched and written over the picture
    that was there. *)
Lemma overwriting_batch_returns :
  exists out s',
    download_batch posix generous whole every_time 0%float 1.5%float
      one_pair 512 overwriting_session = (Returned out, s').
Proof.
  destruct (OrchestratorFacts.download_pair_saved posix generous clock0
              grinning sunglasses 512
              (batch_begin one_pair (overwriting tree_with_file)) _ true
              (Some png_bytes) None (Some 200) grin_cool_png _
              (or_introl eq_refl) eq_refl eq_refl eq_refl
              StorageFacts.save_over_file) as (st' & E & _).
  apply (download_batch_returns posix generous whole every_time 0%float 1.5%float
           one_pair 512 overwriting_session st').
  - constructor.
  - unfold one_pair in *. cbn [download_each]. unfold bind, ret, every_time.
    cbn [state overwriting_session]. now rewrite E.
Qed.

Lemma download_batch_accounting_witness :
  exists out s',
    download_batch posix generous whole every_time 0%float 1.5%float
      one_pair 512 overwriting_session = (Returned out, s')
    /\ total out = Z.of_nat (length one_pair)
    /\ out = stats (self (state s'))
    /\ handled out = Z.of_nat (length one_pair)
    /\ duration_seconds out = PrimFloat.sub 1.5%float 0%float
    /\ exists doc,
         summary_file s' = Some doc
         /\ Summary.successes doc
            = Z.of_nat (length (Logger.successes quiet_logger)) + successes out
         /\ Summary.failures doc
            = Z.of_nat (length (Logger.failures quiet_logger)) + failures out
         /\ Summary.total_attempts doc
            = Summary.successes doc + Summary.failures doc.
Proof.
  destruct overwriting_batch_returns as (out & s' & E).
  exists out, s'. split; [exact E|].
  pose proof (download_batch_accounting posix generous whole every_time 0%float
                1.5%float one_pair 512 overwriting_session) as H.
  rewrite E in H. destruct H as (Ht & _ & -> & Hh & _ & Hd & Hdoc).
  repeat split; assumption.
Defined.

Lemma batch_keeps_the_picture_tree_witness :
  exists e',
    fs (state (download_batch posix generous whole every_time 0%float 1.5%float
                 one_pair 512 (session_on tree_with_file)).2) !! grin_cool_png
    = Some e'
    /\ (File [x00] = Dir <-> e' = Dir)
    /\ (true = true -> e' = File [x00]).
Proof.
  exact (batch_keeps_the_picture_tree posix generous whole every_time 0%float
           1.5%float one_pair 512 (session_on tree_with_file) grin_cool_png
           (File [x00]) StorageFacts.tree_with_file_stat).
Defined.

Lemma rerun_downloads_nothing_witness :
  let '(r, s') := download_batch posix generous whole every_time 0%float
                    1.5%float one_pair 512 (session_on tree_with_file) in
  requests (state s') = []
  /\ fs (state s') = tree_with_file
  /\ match r with
     | Returned out =>
         skipped out = Z.of_nat (length one_pair)
         /\ successes out = 0 /\ failures out = 0
     | _ => True
     end.
Proof.
  exact (rerun_downloads_nothing posix generous whole every_time 0%float
           1.5%float one_pair 512 (session_on tree_with_file) eq_refl
           one_pair_on_disk).
Defined.

Lemma batch_without_failures_has_every_picture_witness :
  exists out s',
    download_batch posix generous whole every_time 0%float 1.5%float
      one_pair 512 (session_on tree_with_file) = (Returned out, s')
    /\ failures out = 0
    /\ all_on_disk posix (state s') one_pair.
Proof.
  destruct (download_batch_rerun posix generous whole every_time 0%float
              1.5%float one_pair 512 (session_on tree_with_file) eq_refl
              one_pair_on_disk quiet_logger_messages)
    as (out & s' & E & _ & _ & Hf & _).
  exists out, s'. split; [exact E|]. split; [exact Hf|].
  exact (batch_without_failures_has_every_picture posix generous whole
           every_time 0%float 1.5%float one_pair 512
           (session_on tree_with_file) s' out E Hf).
Defined.

End BatchLaws.

(* ===================================================================== *)
(** * Facts about the bulk script *)
(* ===================================================================== *)

Module BulkLaws.
Import Paths Storage Client Bulk BulkMore BulkConditions Examples Sessions.

Lemma advanced_refl (s : State) : advanced 0 s s.
Proof. unfold advanced. repeat split; lia. Qed.

Lemma advanced_trans (n m : Z) (a b c : State) :
  advanced n a b -> advanced m b c -> advanced (n + m) a c.
Proof.
  unfold advanced.
  intros (A1 & A2 & A3 & (A4 & A5 & A6 & A7) & (A8 & A9 & A10))
         (B1 & B2 & B3 & (B4 & B5 & B6 & B7) & (B8 & B9 & B10)).
  repeat split; try lia; congruence.
Qed.

Section Methods.
Variable rt : Runtime.

(** [process_single] up to its [await]. *)
Lemma process_single_begin_advanced (e1 e2 : str) (s s' : State)
    (out : result bool) :
  process_single_begin rt e1 e2 s = (out, s') ->
  advanced (match out with Return true => 1 | _ => 0 end) s s'
  /\ match out with
     | Return true => fs s' = fs s /\ requests s' = requests s
     | Return false => fs s' = fs s
                       /\ requests s' = requests s ++ [(e1, e2, size (self s))]
                       /\ (file_exists rt (storage (self s)) e1 e2 (fs s)).1
                          = Return false
     | Raise _ => s' = s
     end.
Proof.
  unfold process_single_begin. BulkFacts.run.
  pose proof (StorageFacts.file_exists_keeps_tree rt (storage (self s)) e1 e2 (fs s))
    as K.
  destruct (file_exists rt (storage (self s)) e1 e2 (fs s)) as [[[|]|e] t];
    cbn [snd fst] in *; subst t; intros [= <- <-].
  - unfold advanced, total_attempted.
    cbn [self progress fs requests advance_progress incr_skipped set_counters set_fs
         successes failures skipped not_found failed_pairs size storage
         max_concurrent].
    repeat split; lia.
  - unfold advanced, total_attempted.
    cbn [self progress fs requests send_request set_fs].
    repeat split; lia.
  - split; [|now destruct s]. unfold advanced, total_attempted.
    cbn [self progress set_fs]. repeat split; lia.
Qed.

(** [process_single] from the answer of the client on. *)
Lemma process_single_resume_advanced (e1 e2 : str) (answer : result response)
    (s s' : State) (out : result unit) :
  process_single_resume rt e1 e2 answer s = (out, s') ->
  advanced (match out with Return _ => 1 | Raise _ => 0 end) s s'
  /\ requests s' = requests s
  /\ match out with
     | Return _ => exists resp, answer = Return resp
     | Raise e => answer = Raise e /\ s' = s
     end.
Proof.
  unfold process_single_resume. BulkFacts.run.
  destruct answer as [[[[success content] error] status]|e].
  2:{ intros [= <- <-]. split; [apply advanced_refl|]. auto. }
  destruct (success && truthy_opt truthy_seq content).
  - destruct (save rt (storage (self s)) e1 e2 (default [] content) (fs s))
      as [[p|e] t]; intros [= <- <-];
      (split; [|split; [reflexivity | eauto]]);
      unfold advanced, total_attempted;
      cbn [self progress fs requests advance_progress incr_successes
           record_failure set_counters set_fs successes failures skipped
           not_found failed_pairs size storage max_concurrent];
      rewrite ?length_app; cbn [length]; repeat split; lia.
  - destruct (bool_decide (status = Some 404)); intros [= <- <-];
      (split; [|split; [reflexivity | eauto]]);
      unfold advanced, total_attempted;
      cbn [self progress fs requests advance_progress incr_not_found
           record_failure set_counters set_fs successes failures skipped
           not_found failed_pairs size storage max_concurrent];
      rewrite ?length_app; cbn [length]; repeat split; lia.
Qed.


Lemma process_each_eq (client : EmojiKitchenClient)
    (pairs : list (str * str)) (s : State) :
  download_batch_chunk rt client pairs s = process_each rt client pairs s.
Proof.
  revert s. induction pairs as [|[e1 e2] rest IH]; intros s; [reflexivity|].
  cbn [download_batch_chunk process_each].
  unfold process_single, process_single_begin, process_single_resume.
  BulkFacts.run.
  destruct (file_exists rt (storage (self s)) e1 e2 (fs s)) as [[[|]|e] t];
    cbn [fst snd]; try reflexivity; [apply IH|].
  cbn [self fs set_fs send_request].
  destruct (download_image client e1 e2 (size (self s)))
    as [[[[success content] error] status]|e]; [|reflexivity].
  destruct (success && truthy_opt truthy_seq content).
  - match goal with
    | |- context [save ?a ?b ?c ?d ?x ?f] =>
        destruct (save a b c d x f) as [[p|e] t']
    end; apply IH.
  - destruct (bool_decide (status = Some 404)); apply IH.
Qed.

(** X22: [download_batch_chunk], which nothing calls, does to each pair in
    turn exactly what [process_single] does: the two copies of the logic
    agree on every input, in the result and in the state they leave. *)
Theorem download_batch_chunk_is_process_single (client : EmojiKitchenClient)
    (pairs : list (str * str)) (s : State) :
  download_batch_chunk rt client pairs s = process_each rt client pairs s.
Proof. apply process_each_eq. Qed.



End Methods.

(** ** Interleaved runs of [download_all] *)

Lemma returned_cons (t : task) (l : list task) :
  returned (t :: l) = (if settled t then 1 else 0) + returned l.
Proof.
  unfold returned. rewrite filter_cons.
  destruct (decide (settled t = true)) as [E|E].
  - rewrite E. cbn [length]. lia.
  - apply not_true_is_false in E. rewrite E. lia.
Qed.

Lemma returned_insert (l : list task) (i : nat) (t t' : task) :
  l !! i = Some t ->
  returned (<[i := t']> l)
  = returned l - (if settled t then 1 else 0) + (if settled t' then 1 else 0).
Proof.
  revert i. induction l as [|a l IH]; intros [|i] H; try discriminate.
  - injection H as ->. simpl insert. rewrite !returned_cons. lia.
  - simpl in H. simpl insert. rewrite !returned_cons, (IH i H). lia.
Qed.

Lemma returned_all (l : list task) :
  forallb settled l = true -> returned l = Z.of_nat (length l).
Proof.
  induction l as [|a l IH]; [reflexivity|].
  cbn [forallb]. intros [Ha Hl]%andb_prop.
  rewrite returned_cons, Ha, (IH Hl). cbn [length]. lia.
Qed.

Lemma returned_spawned (l : list (str * str)) : returned (map spawn l) = 0.
Proof.
  induction l as [|a l IH]; [reflexivity|].
  cbn [map]. rewrite returned_cons, IH. reflexivity.
Qed.

Section Runs.
Variable rt : Runtime.
Variable batch_size : Z.

Lemma dealt_with_step (total : nat) (s : State) (r r' : Run) :
  advanced (dealt_with total r) s (st r) ->
  step rt batch_size r r' ->
  advanced (dealt_with total r') s (st r').
Proof.
  intros Inv Hstep. unfold dealt_with in *.
  destruct Hstep as [r Hdone _ | r i t out s' Hi Hph Hrun
                    | r i t Hi Hph Hfree | r i t answer out s' Hi Hph Hrun];
    cbn [tasks st pending] in *.
  - rewrite returned_spawned, length_map.
    rewrite (returned_all _ Hdone) in Inv.
    pose proof (take_drop (Z.to_nat batch_size) (pending r)) as E.
    apply (f_equal length) in E. rewrite length_app in E.
    replace (Z.of_nat total
             - Z.of_nat (length (drop (Z.to_nat batch_size) (pending r)))
             - Z.of_nat (length (take (Z.to_nat batch_size) (pending r))) + 0)
      with (Z.of_nat total - Z.of_nat (length (pending r))
            - Z.of_nat (length (tasks r)) + Z.of_nat (length (tasks r))) by lia.
    exact Inv.
  - apply process_single_begin_advanced in Hrun as [Hrun _].
    rewrite (returned_insert _ _ _ _ Hi), length_insert.
    unfold settled at 1. rewrite Hph.
    replace (Z.of_nat total - Z.of_nat (length (pending r))
             - Z.of_nat (length (tasks r))
             + (returned (tasks r) - 0
                + (if settled (set_phase match out with
                                         | Return true => Finished
                                         | Return false => Queued
                                         | Raise e => Crashed e
                                         end t) then 1 else 0)))
      with (Z.of_nat total - Z.of_nat (length (pending r))
            - Z.of_nat (length (tasks r)) + returned (tasks r)
            + match out with Return true => 1 | _ => 0 end)
      by (destruct out as [[|]|e]; cbn [settled set_phase task_phase]; lia).
    eapply advanced_trans; eassumption.
  - rewrite (returned_insert _ _ _ _ Hi), length_insert.
    unfold settled at 1. rewrite Hph.
    cbn [settled set_phase task_phase].
    replace (Z.of_nat total - Z.of_nat (length (pending r))
             - Z.of_nat (length (tasks r)) + (returned (tasks r) - 0 + 0))
      with (Z.of_nat total - Z.of_nat (length (pending r))
            - Z.of_nat (length (tasks r)) + returned (tasks r)) by lia.
    exact Inv.
  - apply process_single_resume_advanced in Hrun as [Hrun _].
    rewrite (returned_insert _ _ _ _ Hi), length_insert.
    unfold settled at 1. rewrite Hph.
    replace (Z.of_nat total - Z.of_nat (length (pending r))
             - Z.of_nat (length (tasks r))
             + (returned (tasks r) - 0
                + (if settled (set_phase match out with
                                         | Return _ => Finished
                                         | Raise e => Crashed e
                                         end t) then 1 else 0)))
      with (Z.of_nat total - Z.of_nat (length (pending r))
            - Z.of_nat (length (tasks r)) + returned (tasks r)
            + match out with Return _ => 1 | Raise _ => 0 end)
      by (destruct out as [[]|e]; cbn [settled set_phase task_phase]; lia).
    eapply advanced_trans; eassumption.
Qed.

Lemma dealt_with_reachable (s : State) (emoji_pairs : list (str * str)) (r : Run) :
  reachable rt batch_size s emoji_pairs r ->
  advanced (dealt_with (length (pending (start s emoji_pairs batch_size))) r)
           s (st r).
Proof.
  induction 1 as [|r r' _ IH Hstep].
  - unfold dealt_with. cbn [tasks st pending start length returned filter].
    change (returned []) with 0.
    replace (_ - _ - _ + _) with 0 by lia. apply advanced_refl.
  - eapply dealt_with_step; eassumption.
Qed.

(** X24: at every moment of a run of [download_all], whatever the
    interleaving of the coroutines, the four counters together and the
    progress bar have both moved by the number of pairs dealt with so
    far (those of earlier batches and the coroutines of the current
    batch that are back), every counted failure has its entry in
    [failed_pairs], and no counter has gone down. *)
Theorem bulk_counters_follow_progress (s : State) (emoji_pairs : list (str * str))
    (r : Run) :
  reachable rt batch_size s emoji_pairs r ->
  advanced (dealt_with (length (pending (start s emoji_pairs batch_size))) r)
           s (st r).
Proof. apply dealt_with_reachable. Qed.


End Runs.

(** ** What a run leaves of the tree it started from *)

Section Spared.
Variable rt : Runtime.
Variable batch_size : Z.

(** [save] leaves every entry as it is, but a file at the pair's path. *)
Lemma save_spares (sm : StorageManager) (e1 e2 : str) (content : bytes)
    (fs fs' : filesystem) (r : result path) :
  save rt sm e1 e2 content fs = (r, fs') ->
  forall (q : path) (e : node),
    fs !! q = Some e ->
    (get_file_path rt sm e1 e2 = Return q -> e = Dir) ->
    fs' !! q = Some e.
Proof.
  unfold save, mkdir_parents_exist_ok, write_bytes. StorageLaws.run.
  destruct (get_file_path rt sm e1 e2) as [p|err] eqn:Hp.
  2:{ now intros [= <- <-]. }
  destruct (makedirs [] (parent p) fs) as [[[]|e0] fs1] eqn:M;
    apply StorageLaws.makedirs_keeps in M as [K _].
  2:{ intros [= <- <-] q e H _. now apply K. }
  destruct (stat fs1 (parent p)) as [[c|]|];
    try (intros [= <- <-] q e H _; now apply K).
  pose proof (StorageFacts.get_file_path_nonempty rt sm e1 e2 p Hp) as Hne.
  destruct (stat fs1 p) as [[c|]|] eqn:S;
    try (intros [= <- <-] q e H _; now apply K);
    intros [= <- <-] q e H Hdir; destruct (decide (q = p)) as [->|Hq];
    try (rewrite lookup_insert_ne by congruence; now apply K).
  - specialize (Hdir eq_refl). subst e. apply K in H.
    destruct p; [congruence|]. cbn [stat] in S. congruence.
  - apply K in H. destruct p; [congruence|]. cbn [stat] in S. congruence.
Qed.

(** Where [process_single] may write. *)
Lemma process_single_resume_tree (e1 e2 : str) (answer : result response)
    (s s' : State) (out : result unit) :
  process_single_resume rt e1 e2 answer s = (out, s') ->
  fs s' = fs s
  \/ exists content r,
       save rt (storage (self s)) e1 e2 content (fs s) = (r, fs s').
Proof.
  unfold process_single_resume. BulkFacts.run.
  destruct answer as [[[[success content] error] status]|e].
  2:{ intros [= <- <-]. now left. }
  destruct (success && truthy_opt truthy_seq content).
  - destruct (save rt (storage (self s)) e1 e2 (default [] content) (fs s))
      as [[p|e] t] eqn:E; intros [= <- <-]; right;
      exists (default [] content); eexists; exact E.
  - destruct (bool_decide (status = Some 404)); intros [= <- <-]; now left.
Qed.

Lemma spared_step (s : State) (r r' : Run) :
  spared rt s r -> step rt batch_size r r' -> spared rt s r'.
Proof.
  intros (Hfs & Hsm & Hwait) Hstep. unfold spared.
  destruct Hstep as [r Hdone _ | r i t out s' Hi Hph Hrun
                    | r i t Hi Hph Hfree | r i t answer out s' Hi Hph Hrun];
    cbn [tasks st pending] in *.
  - split; [exact Hfs|]. split; [exact Hsm|].
    intros j t Hj [Hw|Hw]; rewrite list_lookup_fmap in Hj;
      destruct (take _ _ !! j); try discriminate;
      injection Hj as <-; discriminate.
  - apply process_single_begin_advanced in Hrun as [(_ & _ & _ & _ & (_ & Hsm' & _)) Hout].
    assert (Hfs' : fs s' = fs (st r)).
    { destruct out as [[|]|e]; [apply Hout | apply Hout | now rewrite Hout]. }
    split; [intros q e H; rewrite Hfs'; now apply Hfs|].
    split; [congruence|].
    intros j t' Hj Hw. apply list_lookup_insert_Some in Hj
      as [(-> & <- & _) | (Hne & Hj)]; [|now apply (Hwait j)].
    cbn [task_pair set_phase].
    destruct out as [[|]|e];
      try (destruct Hw as [Hw|Hw]; cbn [task_phase set_phase] in Hw; discriminate).
    destruct Hout as (_ & _ & Hex). rewrite Hsm in Hex.
    destruct (get_file_path rt (storage (self s)) (task_pair t).1 (task_pair t).2)
      as [p|err] eqn:Hp.
    2:{ rewrite (StorageFacts.file_exists_raises rt _ _ _ _ err Hp) in Hex.
        discriminate. }
    rewrite (StorageFacts.file_exists_returns rt _ _ _ (fs (st r)) p Hp) in Hex.
    rewrite (StorageFacts.file_exists_returns rt _ _ _ (fs s) p Hp).
    cbn [fst] in *. f_equal. injection Hex as Hex.
    pose proof (StorageFacts.get_file_path_nonempty rt _ _ _ p Hp) as Hne.
    unfold is_file in *. destruct p as [|c p]; [congruence|]. cbn [stat] in *.
    destruct (fs s !! (c :: p)) as [[content|]|] eqn:E; try reflexivity.
    apply Hfs in E. now rewrite E in Hex.
  - split; [exact Hfs|]. split; [exact Hsm|].
    intros j t' Hj Hw. apply list_lookup_insert_Some in Hj
      as [(-> & <- & _) | (Hne & Hj)]; [|now apply (Hwait j)].
    cbn [task_pair set_phase]. apply (Hwait j t Hi). now left.
  - pose proof (process_single_resume_tree _ _ _ _ _ _ Hrun) as Htree.
    apply process_single_resume_advanced in Hrun
      as [(_ & _ & _ & _ & (_ & Hsm' & _)) _].
    split; [|split; [congruence|]].
    + intros q e H. destruct Htree as [->|(content & r0 & Hsave)]; [now apply Hfs|].
      apply (save_spares _ _ _ _ _ _ _ Hsave q e (Hfs q e H)).
      rewrite Hsm. intros Hp.
      assert (Hw : awaiting t) by now right.
      specialize (Hwait i t Hi Hw).
      rewrite (StorageFacts.file_exists_returns rt _ _ _ (fs s) q Hp) in Hwait.
      cbn [fst] in Hwait. injection Hwait as Hwait.
      pose proof (StorageFacts.get_file_path_nonempty rt _ _ _ q Hp) as Hne.
      unfold is_file in Hwait. destruct q as [|c q]; [congruence|].
      cbn [stat] in Hwait. rewrite H in Hwait. now destruct e.
    + intros j t' Hj Hw. apply list_lookup_insert_Some in Hj
        as [(-> & <- & _) | (Hne & Hj)]; [|now apply (Hwait j)].
      destruct out as [[]|e]; destruct Hw as [Hw|Hw];
        cbn [task_phase set_phase] in Hw; discriminate.
Qed.

Lemma spared_reachable (s : State) (emoji_pairs : list (str * str)) (r : Run) :
  reachable rt batch_size s emoji_pairs r -> spared rt s r.
Proof.
  induction 1 as [|r r' _ IH Hstep].
  - unfold spared. cbn [start st tasks]. split; [auto|]. split; [reflexivity|].
    intros i t Hi. discriminate.
  - eapply spared_step; eassumption.
Qed.

(** X26: a run of [download_all] never removes or rewrites anything that
    was on disk when it started, whatever the interleaving and whatever
    the endpoint answers: a pair whose picture is there is skipped, and a
    pair the run fetches had no picture to begin with. *)
Theorem bulk_run_spares_what_is_on_disk (s : State)
    (emoji_pairs : list (str * str)) (r : Run) (q : path) (e : node) :
  reachable rt batch_size s emoji_pairs r ->
  fs s !! q = Some e ->
  fs (st r) !! q = Some e.
Proof. intros H. apply spared_reachable in H as [H _]. apply H. Qed.

End Spared.

(** ** The laws on the example run *)


Lemma bulk_counters_follow_progress_witness :
  advanced (dealt_with (length (pending (start bulk0 one_pair 500))) fetching)
           bulk0 (st fetching).
Proof.
  exact (bulk_counters_follow_progress posix 500 bulk0 one_pair fetching
           BulkFacts.fetching_reachable).
Defined.


Lemma second_saved_reachable :
  reachable posix 500 bulk_again two_pairs second_saved.
Proof.
  pose (run := fun (s : State) (a b : phase) (n : Z) =>
          {| st := s; tasks := both a b; pending := []; permits_taken := n |}).
  pose (sent := send_request sunglasses grinning 100 first_skipped).
  apply (reach_step posix 500 bulk_again two_pairs (run sent Finished Outstanding 1)).
  2:{ refine (step_answer posix 500 (run sent Finished Outstanding 1) 1%nat
                {| task_pair := (sunglasses, grinning); task_phase := Outstanding |}
                (Return ok_200) (Return tt) (st second_saved) eq_refl eq_refl _).
      vm_compute. reflexivity. }
  apply (reach_step posix 500 bulk_again two_pairs (run sent Finished Queued 0)).
  2:{ exact (step_acquire posix 500 (run sent Finished Queued 0) 1%nat
               {| task_pair := (sunglasses, grinning); task_phase := Queued |}
               eq_refl eq_refl eq_refl). }
  apply (reach_step posix 500 bulk_again two_pairs
           (run first_skipped Finished Created 0)).
  2:{ refine (step_begin posix 500 (run first_skipped Finished Created 0) 1%nat
                (spawn (sunglasses, grinning)) (Return false) sent eq_refl eq_refl _).
      vm_compute. reflexivity. }
  apply (reach_step posix 500 bulk_again two_pairs
           (run bulk_again Created Created 0)).
  2:{ refine (step_begin posix 500 (run bulk_again Created Created 0) 0%nat
                (spawn (grinning, sunglasses)) (Return true) first_skipped
                eq_refl eq_refl _).
      vm_compute. reflexivity. }
  apply (reach_step posix 500 bulk_again two_pairs (start bulk_again two_pairs 500)).
  - apply reach_start.
  - exact (step_gather posix 500 (start bulk_again two_pairs 500) eq_refl
             ltac:(discriminate)).
Qed.

Lemma bulk_run_spares_what_is_on_disk_witness :
  fs bulk_again !! grin_cool_glyph_png = Some (File [x00])
  /\ fs (st second_saved) !! grin_cool_glyph_png = Some (File [x00])
  /\ fs (st second_saved) !! cool_grin_glyph_png = Some (File png_bytes)
  /\ skipped (self (st second_saved)) = 1
  /\ successes (self (st second_saved)) = 1.
Proof.
  assert (H : fs bulk_again !! grin_cool_glyph_png = Some (File [x00]))
    by apply lookup_insert_eq.
  split; [exact H|]. split.
  - exact (bulk_run_spares_what_is_on_disk posix 500 bulk_again two_pairs
             second_saved grin_cool_glyph_png (File [x00])
             second_saved_reachable H).
  - split; [apply lookup_insert_eq | split; reflexivity].
Defined.

End BulkLaws.

(* ===================================================================== *)
(** * Facts about the test runner and the list of combinations *)
(* ===================================================================== *)

Module RunTestLaws.
Import RunTest LineConditions Examples.

(** ** [strip] and [split] *)

Lemma lstrip_split (s : str) : exists ws, blank ws /\ s = ws ++ lstrip s.
Proof.
  induction s as [|c s (ws & Hws & E)];
    [exists []; split; [constructor | reflexivity]|].
  cbn [lstrip]. destruct (isspace c) eqn:Hc.
  - exists (c :: ws). split; [now constructor|]. cbn [app]. now f_equal.
  - exists []. split; [constructor | reflexivity].
Qed.

Lemma lstrip_head (s : str) (c : N) (t : str) :
  lstrip s = c :: t -> isspace c = false.
Proof.
  induction s as [|a s IH]; [discriminate|]. cbn [lstrip].
  destruct (isspace a) eqn:Ha; [exact IH|]. now intros [= <- _].
Qed.

(** What [strip] keeps: the line is whitespace, the kept part, whitespace. *)
Lemma strip_split (s : str) :
  exists ws0 ws2, blank ws0 /\ blank ws2 /\ s = ws0 ++ strip s ++ ws2
                  /\ lstrip s = strip s ++ ws2.
Proof.
  destruct (lstrip_split s) as (ws0 & H0 & E0).
  destruct (lstrip_split (rev (lstrip s))) as (ws & Hws & E).
  exists ws0, (rev ws). unfold strip.
  assert (E' : lstrip s = rev (lstrip (rev (lstrip s))) ++ rev ws).
  { rewrite <- rev_app_distr, <- E. now rewrite rev_involutive. }
  split; [exact H0|]. split; [now apply Forall_rev|].
  split; [now rewrite <- E' | exact E'].
Qed.

Lemma split_from_blank (ws : str) (w : str) :
  blank ws -> split_from w ws = split_from w [].
Proof.
  revert w. induction ws as [|c ws IH]; intros w H; [reflexivity|].
  inversion H as [|? ? Hc Hws]; subst. cbn [split_from]. rewrite Hc.
  destruct w; rewrite (IH [] Hws); reflexivity.
Qed.

Lemma split_from_trailing (s ws : str) (w : str) :
  blank ws -> split_from w (s ++ ws) = split_from w s.
Proof.
  intros H. revert w. induction s as [|c s IH]; intros w.
  - now apply split_from_blank.
  - cbn [app split_from]. destruct (isspace c); [|apply IH].
    destruct w; now rewrite IH.
Qed.

Lemma split_from_leading (ws s : str) :
  blank ws -> split_from [] (ws ++ s) = split_from [] s.
Proof.
  induction 1 as [|c ws Hc _ IH]; [reflexivity|].
  cbn [app split_from]. now rewrite Hc.
Qed.

Lemma split_from_word (e s : str) (w : str) :
  Forall (fun c => isspace c = false) e ->
  split_from w (e ++ s) = split_from (w ++ e) s.
Proof.
  intros H. revert w. induction H as [|c e Hc _ IH]; intros w.
  - now rewrite app_nil_r.
  - cbn [app split_from]. rewrite Hc, IH. now rewrite <- app_assoc.
Qed.

Lemma split_strip (s : str) : split (strip s) = split s.
Proof.
  destruct (strip_split s) as (ws0 & ws2 & H0 & H2 & E & _).
  unfold split. rewrite E at 2.
  now rewrite split_from_leading, split_from_trailing.
Qed.

Lemma split_from_words (s : str) :
  forall w : str,
    Forall (fun c => isspace c = false) w -> Forall word (split_from w s).
Proof.
  induction s as [|c s IH]; intros w Hw; cbn [split_from].
  - destruct w; constructor; [|constructor]. now split.
  - destruct (isspace c) eqn:Hc.
    + destruct w as [|a w]; [apply IH; constructor|].
      constructor; [now split | apply IH; constructor].
    + apply IH. apply Forall_app. split; [exact Hw | now repeat constructor].
Qed.

Lemma split_from_first (s : str) :
  forall w : str,
    w <> [] -> exists w' rest, split_from w s = (w ++ w') :: rest.
Proof.
  induction s as [|c s IH]; intros w Hw; cbn [split_from].
  - destruct w; [congruence|]. exists [], []. now rewrite app_nil_r.
  - destruct (isspace c).
    + destruct w; [congruence|]. exists [], (split_from [] s).
      now rewrite app_nil_r.
    + destruct (IH (w ++ [c])) as (w' & rest & E).
      { now destruct w. }
      exists (c :: w'), rest. rewrite E. now rewrite <- app_assoc.
Qed.

(** The comment test sees the same first character before and after the
    trailing whitespace goes. *)
Lemma is_comment_strip (s : str) : is_comment (strip s) = is_comment (lstrip s).
Proof.
  destruct (strip_split s) as (ws0 & ws2 & H0 & H2 & _ & E). rewrite E.
  destruct (strip s) as [|c t]; [|reflexivity].
  cbn [app]. destruct H2 as [|c ws Hc _]; [reflexivity|].
  cbn [is_comment]. destruct (N.eqb_spec c 35); [|reflexivity].
  subst c. discriminate.
Qed.

(** [parse_line] in terms of the words of the line. *)
Lemma parse_line_words (line : str) :
  parse_line line
  = if is_comment (lstrip line) then None
    else match split line with
         | a :: b :: _ => Some (a, b)
         | _ => None
         end.
Proof.
  unfold parse_line. cbv zeta. rewrite is_comment_strip, split_strip.
  destruct (strip line) as [|c t] eqn:E.
  - cbn [truthy_seq negb orb].
    rewrite <- split_strip, E. cbn [split split_from].
    now destruct (is_comment (lstrip line)).
  - reflexivity.
Qed.

(** X27: [parse_line] yields a pair exactly for a line that is not a
    comment and has two words or more, and the pair is its first two
    words; the emptiness test and the stripping of the line add nothing
    to that. *)
Theorem parse_line_by_words (line : str) :
  parse_line line
  = if is_comment (lstrip line) then None
    else match split line with
         | a :: b :: _ => Some (a, b)
         | _ => None
         end.
Proof. apply parse_line_words. Qed.

Lemma parse_line_clean (line : str) (a b : str) :
  parse_line line = Some (a, b) ->
  word a /\ word b /\ is_comment a = false.
Proof.
  rewrite parse_line_words.
  destruct (is_comment (lstrip line)) eqn:Hc; [discriminate|].
  pose proof (split_from_words line [] (Forall_nil_2 _)) as W.
  fold (split line) in W.
  destruct (split line) as [|a' [|b' rest]] eqn:E; try discriminate.
  intros [= <- <-].
  inversion W as [|? ? Wa W']; subst. inversion W' as [|? ? Wb _]; subst.
  split; [exact Wa|]. split; [exact Wb|].
  destruct (lstrip_split line) as (ws & Hws & El).
  unfold split in E. rewrite El, split_from_leading in E by exact Hws.
  destruct (lstrip line) as [|c t] eqn:L.
  - discriminate.
  - pose proof (lstrip_head _ _ _ L) as Hsp.
    cbn [split_from] in E. rewrite Hsp in E. cbn [app] in E.
    destruct (split_from_first t [c]) as (w' & rest' & E'); [discriminate|].
    rewrite E' in E. injection E as <- _. exact Hc.
Qed.

(** X28: every pair [run_test.py] reads from the file is made of two
    words, neither empty nor with whitespace in it, the first not
    starting with the comment sign; and there are no more pairs than
    lines. *)
Theorem read_pairs_clean (lines : list str) :
  Forall (fun pr => word pr.1 /\ word pr.2 /\ is_comment pr.1 = false)
         (read_pairs lines)
  /\ (length (read_pairs lines) <= length lines)%nat.
Proof.
  induction lines as [|line rest [IH1 IH2]]; [split; [constructor | reflexivity]|].
  cbn [read_pairs]. destruct (parse_line line) as [[a b]|] eqn:E.
  - split; [|cbn [length]; lia]. constructor; [|exact IH1].
    exact (parse_line_clean line a b E).
  - split; [exact IH1 | cbn [length]; lia].
Qed.

(** X29: a line made of optional whitespace, a first word that does not
    start with the comment sign, whitespace, and a second word, followed
    by nothing or by whitespace and anything else, is read as the pair of
    these two words. *)
Theorem parse_line_reads_two_words (ws0 e1 ws1 e2 tail : str) :
  blank ws0 -> word e1 -> is_comment e1 = false ->
  blank ws1 -> ws1 <> [] -> word e2 -> set_off tail ->
  parse_line (ws0 ++ e1 ++ ws1 ++ e2 ++ tail) = Some (e1, e2).
Proof.
  intros H0 [Hne1 Hw1] Hc1 H1 Hn1 [Hne2 Hw2] Ht.
  rewrite parse_line_words.
  assert (L : exists c t, e1 = c :: t /\ isspace c = false).
  { destruct e1 as [|c t]; [congruence|]. exists c, t.
    split; [reflexivity|]. now inversion Hw1. }
  destruct L as (c & t & -> & Hsp).
  assert (El : lstrip (ws0 ++ (c :: t) ++ ws1 ++ e2 ++ tail)
               = (c :: t) ++ ws1 ++ e2 ++ tail).
  { clear -H0 Hsp. induction H0 as [|a ws Ha _ IH].
    - cbn [app lstrip]. now rewrite Hsp.
    - cbn [app lstrip]. rewrite Ha. exact IH. }
  assert (Hcm : is_comment (lstrip (ws0 ++ (c :: t) ++ ws1 ++ e2 ++ tail)) = false)
    by (rewrite El; exact Hc1).
  rewrite Hcm.
  unfold split. rewrite split_from_leading by exact H0.
  rewrite (split_from_word (c :: t)) by exact Hw1. cbn [app].
  destruct ws1 as [|s1 ws1]; [congruence|].
  inversion H1 as [|? ? Hs1 Hws1]; subst.
  cbn [app split_from]. rewrite Hs1.
  rewrite split_from_leading by exact Hws1.
  rewrite (split_from_word e2) by exact Hw2. cbn [app].
  destruct e2 as [|c2 t2]; [congruence|].
  destruct tail as [|x tail]; [reflexivity|].
  cbn [set_off] in Ht. cbn [split_from]. now rewrite Ht.
Qed.

(** The line of the pair, as the test file has it. *)
Lemma parse_line_reads_two_words_witness :
  parse_line ([] ++ grinning ++ [32%N] ++ sunglasses ++ [10%N])
  = Some (grinning, sunglasses).
Proof.
  refine (parse_line_reads_two_words [] grinning [32%N] sunglasses [10%N]
            _ _ _ _ _ _ _).
  - constructor.
  - split; [discriminate | repeat constructor].
  - reflexivity.
  - repeat constructor.
  - discriminate.
  - split; [discriminate | repeat constructor].
  - reflexivity.
Defined.

(** ** The list of combinations *)

Lemma list_prod_lookup {A B} (l : list A) (l' : list B) :
  forall (i j : nat) (a : A) (b : B),
    l !! i = Some a -> l' !! j = Some b ->
    list_prod l l' !! (i * length l' + j)%nat = Some (a, b).
Proof.
  induction l as [|x l IH]; intros i j a b Hi Hj; [discriminate|].
  cbn [list_prod]. destruct i as [|i].
  - injection Hi as ->. cbn [Nat.mul Nat.add].
    rewrite lookup_app_l by (rewrite length_map; eapply lookup_lt_Some; eauto).
    now rewrite list_lookup_fmap, Hj.
  - cbn [lookup list_lookup] in Hi.
    rewrite lookup_app_r by (rewrite length_map; cbn [Nat.mul]; lia).
    rewrite length_map.
    replace (S i * length l' + j - length l')%nat
      with (i * length l' + j)%nat by (cbn [Nat.mul]; lia).
    now apply IH.
Qed.

Lemma list_prod_NoDup {A B} (l : list A) (l' : list B) :
  NoDup l -> NoDup l' -> NoDup (list_prod l l').
Proof.
  intros Hl Hl'. induction Hl as [|x l Hx _ IH]; [constructor|].
  cbn [list_prod]. apply NoDup_app. split; [|split; [|exact IH]].
  - apply NoDup_fmap_2; [|exact Hl']. now intros b b' [=].
  - intros [a b] Hin Hin'. apply list_elem_of_fmap in Hin as (b' & [= -> ->] & _).
    apply list_elem_of_In, in_prod_iff in Hin' as [Hin' _].
    apply Hx. now apply list_elem_of_In.
Qed.

(** X30: [generate_all_combinations] lists the ordered pairs of the given
    emojis in row-major order: [n * n] of them, the pair of the [i]-th
    and the [j]-th at index [i * n + j], the pairs of an emoji with
    itself included, each pair once when no emoji is given twice. *)
Theorem generate_all_combinations_enumerates (emojis : list str) :
  length (BulkMore.generate_all_combinations emojis)
  = (length emojis * length emojis)%nat
  /\ (forall (i j : nat) (a b : str),
        emojis !! i = Some a -> emojis !! j = Some b ->
        BulkMore.generate_all_combinations emojis !! (i * length emojis + j)%nat
        = Some (a, b))
  /\ (forall a b : str,
        In (a, b) (BulkMore.generate_all_combinations emojis)
        <-> In a emojis /\ In b emojis)
  /\ (NoDup emojis -> NoDup (BulkMore.generate_all_combinations emojis)).
Proof.
  unfold BulkMore.generate_all_combinations.
  split; [apply length_prod|]. split; [apply list_prod_lookup|].
  split; [intros a b; apply in_prod_iff|].
  intros H. now apply list_prod_NoDup.
Qed.

End RunTestLaws.

(* ===================================================================== *)
(** * The concurrency ceiling *)
(* ===================================================================== *)

Module CeilingLaws.
Import Paths Storage Client Conditions Examples Sessions.

Section Orchestrated.
Import Orchestrator BatchRun.
Variable rt : Runtime.
Variable new_client : Z -> Z -> EmojiKitchenClient.
Variable clock_at : nat -> Clock.
Variable size : Z.

Lemma batch_pool_invariant_step (ceiling : Z) (r r' : Run) :
  pool_invariant ceiling r -> step rt new_client clock_at size r r' ->
  pool_invariant ceiling r'.
Proof.
  intros (Hp & Hc & Hle) Hstep. unfold pool_invariant, outstanding in *.
  destruct Hstep as [r e1 e2 rest out s' Hf _ _ Hrun | r e1 e2 rest Hf _ _
                    | r Hf Hfree | r e1 e2 rest out s' Hf _ Hrun];
    cbn [st fetch permits_taken] in *; rewrite Hf in *.
  - apply BatchLaws.download_pair_effect in Hrun as [(_ & _ & _ & Hm & _) _].
    repeat split; lia.
  - repeat split; lia.
  - repeat split; lia.
  - apply BatchLaws.download_pair_effect in Hrun as [(_ & _ & _ & Hm & _) _].
    repeat split; lia.
Qed.

Lemma batch_pool_invariant_reachable (s : State) (emoji_pairs : list (str * str))
    (r : Run) :
  reachable rt new_client clock_at size s emoji_pairs r ->
  pool_invariant (max_concurrent (self s)) r.
Proof.
  induction 1 as [|r r' _ IH Hstep].
  - unfold pool_invariant, outstanding. cbn. repeat split; lia.
  - eapply batch_pool_invariant_step; eassumption.
Qed.

End Orchestrated.

(** C8: at every moment of a run of [download_all], whatever the number
    of queued pairs and the batch size, the fetches outstanding are no
    more than the ceiling; and so it is at every moment of the loop of
    [download_batch], where each call of [download_pair] has a client and
    a pool of its own and the calls follow one another. *)
Theorem outstanding_within_ceiling (rt : Runtime) :
  (forall (batch_size : Z) (s : Bulk.State) (emoji_pairs : list (str * str))
          (r : Bulk.Run),
     0 <= Bulk.max_concurrent (Bulk.self s) ->
     Bulk.reachable rt batch_size s emoji_pairs r ->
     Bulk.outstanding r <= Bulk.max_concurrent (Bulk.self s))
  /\ (forall (new_client : Z -> Z -> EmojiKitchenClient)
             (clock_at : nat -> Orchestrator.Clock) (size : Z)
             (s : Orchestrator.State) (emoji_pairs : list (str * str))
             (r : BatchRun.Run),
        0 <= Orchestrator.max_concurrent (Orchestrator.self s) ->
        BatchRun.reachable rt new_client clock_at size s emoji_pairs r ->
        BatchRun.outstanding r <= Orchestrator.max_concurrent (Orchestrator.self s)
        /\ BatchRun.outstanding r <= 1).
Proof.
  split.
  - intros batch_size s emoji_pairs r Hn Hr.
    destruct (BulkFacts.pool_invariant_reachable rt batch_size s emoji_pairs r Hr)
      as (_ & _ & H).
    lia.
  - intros new_client clock_at size s emoji_pairs r Hn Hr.
    destruct (batch_pool_invariant_reachable rt new_client clock_at size s
                emoji_pairs r Hr) as (_ & _ & H).
    split; [lia|]. unfold BatchRun.outstanding. destruct (BatchRun.fetch r); lia.
Qed.

(** ** A run that exhausts its pool *)

(** On the empty tree no pair has its picture. *)
Lemma no_picture_yet (sm : StorageManager) (e1 e2 : str) (p : path) :
  get_file_path posix sm e1 e2 = Return p ->
  (file_exists posix sm e1 e2 empty_tree).1 = Return false.
Proof.
  intros Hp. rewrite (StorageFacts.file_exists_returns posix sm e1 e2 _ p Hp).
  cbn [fst]. f_equal. unfold is_file.
  destruct (StorageLaws.get_file_path_shape posix sm e1 e2 p Hp)
    as (dirp & f & -> & Hne & _).
  destruct dirp as [|c dirp]; [congruence|]. cbn [app stat].
  unfold empty_tree, downloads. rewrite lookup_singleton_ne; [reflexivity|].
  intros [= _ H]. now destruct dirp.
Qed.

Lemma begins_to_fetch (s : Bulk.State) (e1 e2 : str) (p : path) :
  Bulk.fs s = empty_tree ->
  get_file_path posix (Bulk.storage (Bulk.self s)) e1 e2 = Return p ->
  Bulk.process_single_begin posix e1 e2 s
  = (Return false, Bulk.send_request e1 e2 (Bulk.size (Bulk.self s)) s).
Proof.
  intros Hfs Hp. unfold Bulk.process_single_begin. BulkFacts.run.
  pose proof (no_picture_yet (Bulk.storage (Bulk.self s)) e1 e2 p Hp) as N.
  pose proof (StorageFacts.file_exists_keeps_tree posix (Bulk.storage (Bulk.self s))
                e1 e2 (Bulk.fs s)) as K.
  rewrite Hfs in *.
  destruct (file_exists posix (Bulk.storage (Bulk.self s)) e1 e2 empty_tree)
    as [r t]. cbn [fst snd] in *. subst r t.
  rewrite <- Hfs. now destruct s.
Qed.

Lemma crowded_reachable : Bulk.reachable posix 500 bulk2 three_pairs crowded.
Proof.
  pose (run := fun (s : Bulk.State) (a b c : Bulk.phase) (n : Z) =>
          {| Bulk.st := s; Bulk.tasks := in_phases a b c; Bulk.pending := [];
             Bulk.permits_taken := n |}).
  pose (s1 := Bulk.send_request grinning sunglasses 100 bulk2).
  pose (s2 := Bulk.send_request sunglasses grinning 100 s1).
  apply (Bulk.reach_step posix 500 bulk2 three_pairs
           (run three_sent Bulk.Outstanding Bulk.Queued Bulk.Queued 1)).
  2:{ exact (Bulk.step_acquire posix 500
               (run three_sent Bulk.Outstanding Bulk.Queued Bulk.Queued 1) 1%nat
               {| Bulk.task_pair := (sunglasses, grinning);
                  Bulk.task_phase := Bulk.Queued |}
               eq_refl eq_refl eq_refl). }
  apply (Bulk.reach_step posix 500 bulk2 three_pairs
           (run three_sent Bulk.Queued Bulk.Queued Bulk.Queued 0)).
  2:{ exact (Bulk.step_acquire posix 500
               (run three_sent Bulk.Queued Bulk.Queued Bulk.Queued 0) 0%nat
               {| Bulk.task_pair := (grinning, sunglasses);
                  Bulk.task_phase := Bulk.Queued |}
               eq_refl eq_refl eq_refl). }
  apply (Bulk.reach_step posix 500 bulk2 three_pairs
           (run s2 Bulk.Queued Bulk.Queued Bulk.Created 0)).
  2:{ exact (Bulk.step_begin posix 500
               (run s2 Bulk.Queued Bulk.Queued Bulk.Created 0) 2%nat
               (Bulk.spawn (grinning, grinning)) (Return false) three_sent
               eq_refl eq_refl
               (begins_to_fetch s2 grinning grinning _ eq_refl eq_refl)). }
  apply (Bulk.reach_step posix 500 bulk2 three_pairs
           (run s1 Bulk.Queued Bulk.Created Bulk.Created 0)).
  2:{ exact (Bulk.step_begin posix 500
               (run s1 Bulk.Queued Bulk.Created Bulk.Created 0) 1%nat
               (Bulk.spawn (sunglasses, grinning)) (Return false) s2
               eq_refl eq_refl
               (begins_to_fetch s1 sunglasses grinning _ eq_refl eq_refl)). }
  apply (Bulk.reach_step posix 500 bulk2 three_pairs
           (run bulk2 Bulk.Created Bulk.Created Bulk.Created 0)).
  2:{ exact (Bulk.step_begin posix 500
               (run bulk2 Bulk.Created Bulk.Created Bulk.Created 0) 0%nat
               (Bulk.spawn (grinning, sunglasses)) (Return false) s1
               eq_refl eq_refl
               (begins_to_fetch bulk2 grinning sunglasses _ eq_refl eq_refl)). }
  apply (Bulk.reach_step posix 500 bulk2 three_pairs (Bulk.start bulk2 three_pairs 500)).
  - apply Bulk.reach_start.
  - exact (Bulk.step_gather posix 500 (Bulk.start bulk2 three_pairs 500) eq_refl
             ltac:(discriminate)).
Qed.

(** With the pool exhausted the third coroutine cannot get a permit. *)
Lemma crowded_is_full (r' : Bulk.Run) :
  Bulk.step posix 500 crowded r' -> Bulk.outstanding r' <= 2.
Proof.
  intros H. inversion H as [r Hdone _ | r i t out s' Hi Hph Hrun
                           | r i t Hi Hph Hfree | r i t answer out s' Hi Hph Hrun];
    subst.
  - discriminate.
  - destruct i as [|[|[|i]]]; cbn in Hi; try discriminate;
      injection Hi as <-; discriminate.
  - cbn in Hfree. lia.
  - destruct i as [|[|[|i]]]; cbn in Hi; try discriminate;
      injection Hi as <-; try discriminate;
      destruct out; vm_compute; discriminate.
Qed.

Lemma first_on_the_wire_reachable :
  BatchRun.reachable posix generous every_time 512 narrow three_pairs
    first_on_the_wire.
Proof.
  apply (BatchRun.reach_step posix generous every_time 512 narrow three_pairs
           {| BatchRun.st := narrow; BatchRun.todo := three_pairs;
              BatchRun.done := 0; BatchRun.fetch := BatchRun.Waiting;
              BatchRun.permits_taken := 0 |}).
  - apply (BatchRun.reach_step posix generous every_time 512 narrow three_pairs
             (BatchRun.start narrow three_pairs)).
    + apply BatchRun.reach_start.
    + refine (BatchRun.step_enter posix generous every_time 512
                (BatchRun.start narrow three_pairs) grinning sunglasses _
                eq_refl eq_refl _).
      split; [now left | now eexists].
  - exact (BatchRun.step_acquire posix generous every_time 512
             {| BatchRun.st := narrow; BatchRun.todo := three_pairs;
                BatchRun.done := 0; BatchRun.fetch := BatchRun.Waiting;
                BatchRun.permits_taken := 0 |} eq_refl eq_refl).
Qed.

Lemma outstanding_within_ceiling_witness :
  (Bulk.outstanding crowded <= 2 /\ Bulk.outstanding crowded = 2
   /\ length three_pairs = 3%nat)
  /\ BatchRun.outstanding first_on_the_wire <= 1.
Proof.
  destruct (outstanding_within_ceiling posix) as [Hbulk Hbatch].
  split; [split; [|split; reflexivity]|].
  - refine (Hbulk 500 bulk2 three_pairs crowded _ crowded_reachable).
    discriminate.
  - refine (proj1 (Hbatch generous every_time 512 narrow three_pairs
                     first_on_the_wire _ first_on_the_wire_reachable)).
    discriminate.
Defined.

End CeilingLaws.
